(** * Web retrieval tools of the pi coding agent: fetch, locate, convert, parse

    A shallow embedding of
      packages/coding-agent/src/core/tools/web-read.ts
      packages/coding-agent/src/core/tools/web-search.ts
    together with the parts of the JavaScript platform these two files lean
    on (strings, regular expressions, URI coding), and the properties the
    specification states about them. *)

From Stdlib Require Import String Ascii DecimalString.
From Stdlib Require Import List NArith ZArith QArith Bool Arith Lia Lqa.
Import ListNotations.

Local Open Scope nat_scope.
Local Open Scope list_scope.

Set Implicit Arguments.

(* ================================================================== *)
(** * JavaScript strings *)
(* ================================================================== *)

(** A JavaScript string is a sequence of UTF-16 code units. *)
Definition char16 := N.
Definition jsstring := list char16.

(** String literals of the source, written as Rocq strings. *)
Definition js (s : string) : jsstring :=
  map N_of_ascii (list_ascii_of_string s).

Definition DQ : jsstring := [34%N].   (* the double quote *)
Definition NL : jsstring := [10%N].   (* the escape \n of a string literal *)

Fixpoint str_eqb (a b : jsstring) : bool :=
  match a, b with
  | [], [] => true
  | x :: a', y :: b' => N.eqb x y && str_eqb a' b'
  | _, _ => false
  end.

(** [s.startsWith(p)] *)
Fixpoint startsWith (s p : jsstring) : bool :=
  match p, s with
  | [], _ => true
  | x :: p', y :: s' => N.eqb x y && startsWith s' p'
  | _ :: _, [] => false
  end.

(** [s.includes(p)] *)
Fixpoint includes (s p : jsstring) : bool :=
  startsWith s p ||
  match s with
  | [] => false
  | _ :: s' => includes s' p
  end.

(** [s.slice(1)] *)
Definition slice1 (s : jsstring) : jsstring := tl s.

(** WhiteSpace and LineTerminator code units: the class [\s] of regular
    expressions and the characters removed by [trim]. *)
Definition is_whitespace (c : char16) : bool :=
  ((c =? 9) || (c =? 10) || (c =? 11) || (c =? 12) || (c =? 13) || (c =? 32)
   || (c =? 160) || (c =? 5760) || ((8192 <=? c) && (c <=? 8202))
   || (c =? 8232) || (c =? 8233) || (c =? 8239) || (c =? 8287)
   || (c =? 12288) || (c =? 65279))%N.

Definition is_line_terminator (c : char16) : bool :=
  ((c =? 10) || (c =? 13) || (c =? 8232) || (c =? 8233))%N.

Fixpoint trimStart (s : jsstring) : jsstring :=
  match s with
  | c :: s' => if is_whitespace c then trimStart s' else s
  | [] => []
  end.

Definition trimEnd (s : jsstring) : jsstring := rev (trimStart (rev s)).

(** [s.trim()] *)
Definition trim (s : jsstring) : jsstring := trimEnd (trimStart s).

(** [s.split("\n")]: always at least one piece. *)
Fixpoint split_on (sep : char16) (s : jsstring) : list jsstring :=
  match s with
  | [] => [[]]
  | c :: s' =>
      if N.eqb c sep then [] :: split_on sep s'
      else match split_on sep s' with
           | l :: ls => (c :: l) :: ls
           | [] => [[c]]
           end
  end.

(** [a.join(sep)] *)
Fixpoint join (sep : jsstring) (l : list jsstring) : jsstring :=
  match l with
  | [] => []
  | [x] => x
  | x :: rest => x ++ sep ++ join sep rest
  end.

(** Decimal rendering of a non-negative integer, as a template literal
    renders a number. *)
Definition dec (n : N) : jsstring :=
  js (NilZero.string_of_uint (N.to_uint n)).

(* ================================================================== *)
(** * Regular expressions *)
(* ================================================================== *)

Module RegExp.

(** Members of a character class. *)
Inductive citem :=
| CChar (c : char16)
| CRange (lo hi : char16)
| CDigit (positive : bool)     (* \d and \D *)
| CSpace (positive : bool)     (* \s and \S *)
| CWord (positive : bool).     (* \w and \W *)

Inductive regex :=
| REmpty
| RChar (c : char16)
| RAny                                           (* . *)
| RClass (neg : bool) (items : list citem)       (* [...] and [^...] *)
| RSeq (a b : regex)
| RAlt (a b : regex)
| RQuant (greedy : bool) (min : nat) (max : option nat) (a : regex)
| RGroup (i : nat) (a : regex)                   (* i-th capturing group *)
| RBackref (i : nat).

Record flags := { ignoreCase : bool; dotAll : bool }.

Definition captures := list (option jsstring).

Definition get_cap (i : nat) (c : captures) : option jsstring :=
  match i with
  | 0 => None
  | S j => match nth_error c j with Some v => v | None => None end
  end.

Fixpoint set_nth (n : nat) (v : option jsstring) (l : captures) : captures :=
  match n, l with
  | 0, [] => [v]
  | 0, _ :: t => v :: t
  | S n', [] => None :: set_nth n' v []
  | S n', x :: t => x :: set_nth n' v t
  end.

Definition set_cap (i : nat) (v : option jsstring) (c : captures) : captures :=
  match i with
  | 0 => c
  | S j => set_nth j v c
  end.

Fixpoint groups_in (r : regex) : list nat :=
  match r with
  | RSeq a b | RAlt a b => groups_in a ++ groups_in b
  | RQuant _ _ _ a => groups_in a
  | RGroup i a => i :: groups_in a
  | _ => []
  end.

Definition reset_caps (gs : list nat) (c : captures) : captures :=
  fold_left (fun acc i => set_cap i None acc) gs c.

(** Canonicalize of the specification, for a pattern without the unicode
    flag: upper-casing, except that a code unit of 128 or more never folds
    to one below 128.  Code units of 128 or more are left as they are here.
    A text character of 128 or more then never equals a pattern character
    below 128, as in the specification, so the matcher is exact for every
    pattern written in ASCII; a pattern with a character of 128 or more is
    never given to it: the literals of the source are ASCII, and a pattern
    built from the selector is compiled here only when it is
    ([WebRead.RegExp_gi]). *)
Definition upper (c : char16) : char16 :=
  if ((97 <=? c) && (c <=? 122))%N then (c - 32)%N else c.

Definition lower (c : char16) : char16 :=
  if ((65 <=? c) && (c <=? 90))%N then (c + 32)%N else c.

Definition canon (fl : flags) (c : char16) : char16 :=
  if ignoreCase fl then upper c else c.

Definition is_digit (c : char16) : bool := ((48 <=? c) && (c <=? 57))%N.

Definition is_word (c : char16) : bool :=
  (((97 <=? c) && (c <=? 122)) || ((65 <=? c) && (c <=? 90))
   || is_digit c || (c =? 95))%N.

Definition item_has (it : citem) (c : char16) : bool :=
  match it with
  | CChar a => N.eqb a c
  | CRange lo hi => ((lo <=? c) && (c <=? hi))%N
  | CDigit p => Bool.eqb p (is_digit c)
  | CSpace p => Bool.eqb p (is_whitespace c)
  | CWord p => Bool.eqb p (is_word c)
  end.

(** CharacterSetMatcher: some member of the set has the canonical form of
    the input character. *)
Definition class_has (fl : flags) (items : list citem) (c : char16) : bool :=
  existsb (fun it => item_has it c) items ||
  (ignoreCase fl &&
   (existsb (fun it => item_has it (upper c)) items ||
    existsb (fun it => item_has it (lower c)) items)).

Definition class_match (fl : flags) (neg : bool) (items : list citem)
    (c : char16) : bool :=
  xorb neg (class_has fl items c).

Definition any_match (fl : flags) (c : char16) : bool :=
  dotAll fl || negb (is_line_terminator c).

(** Does [s] start with the captured text [t], up to canonical form? *)
Fixpoint backref_rest (fl : flags) (t s : jsstring) : option jsstring :=
  match t, s with
  | [], _ => Some s
  | x :: t', y :: s' =>
      if N.eqb (canon fl x) (canon fl y) then backref_rest fl t' s' else None
  | _ :: _, [] => None
  end.

Definition result := option (jsstring * captures).
Definition cont := jsstring -> captures -> result.

Definition orelse (a b : result) : result :=
  match a with Some _ => a | None => b end.

(** The text consumed between position [s] and the later position [s']. *)
Definition consumed (s s' : jsstring) : jsstring :=
  firstn (length s - length s') s.

(** RepeatMatcher: the rounds of a quantified atom whose matcher is
    [atom] and whose groups are [gs].  The captures of the groups inside are
    cleared at each round, and once the minimum is met a round that consumes
    nothing is refused.  Every round lowers the minimum or consumes a
    character, so [min + length s] units of [fuel] cover them all. *)
Fixpoint rep (atom : jsstring -> captures -> cont -> result) (gs : list nat)
    (greedy : bool) (k : cont) (fuel : nat) (min : nat) (max : option nat)
    (s : jsstring) (c : captures) {struct fuel} : result :=
  match max with
  | Some 0 => k s c
  | _ =>
      match fuel with
      | 0 => k s c
      | S fuel' =>
          let d : cont := fun s' c' =>
            if (min =? 0) && (length s' =? length s) then None
            else rep atom gs greedy k fuel' (pred min) (option_map pred max) s' c' in
          let round := atom s (reset_caps gs c) d in
          if negb (min =? 0) then round
          else if greedy then orelse round (k s c)
          else orelse (k s c) round
      end
  end.

(** The backtracking matcher of the language specification, in
    continuation-passing style: [m fl r s c k] matches [r] at the front of
    [s] with captures [c] and hands the rest to [k]; the first success in
    priority order wins. *)
Fixpoint m (fl : flags) (r : regex) (s : jsstring) (c : captures) (k : cont)
    {struct r} : result :=
  match r with
  | REmpty => k s c
  | RChar a =>
      match s with
      | x :: s' => if N.eqb (canon fl a) (canon fl x) then k s' c else None
      | [] => None
      end
  | RAny =>
      match s with
      | x :: s' => if any_match fl x then k s' c else None
      | [] => None
      end
  | RClass neg items =>
      match s with
      | x :: s' => if class_match fl neg items x then k s' c else None
      | [] => None
      end
  | RSeq a b => m fl a s c (fun s' c' => m fl b s' c' k)
  | RAlt a b => orelse (m fl a s c k) (m fl b s c k)
  | RGroup i a =>
      m fl a s c (fun s' c' => k s' (set_cap i (Some (consumed s s')) c'))
  | RBackref i =>
      match get_cap i c with
      | None => k s c
      | Some t =>
          match backref_rest fl t s with
          | Some s' => k s' c
          | None => None
          end
      end
  | RQuant greedy min max a =>
      rep (m fl a) (groups_in a) greedy k (min + length s) min max s c
  end.

Definition accept : cont := fun s c => Some (s, c).

(** ** Pattern syntax

    [new RegExp(source, flags)] and the regular expression literals of the
    source are read by the parser below.  It covers characters, [.],
    classes, capturing and non-capturing groups, alternation, every
    quantifier, back references and the usual escapes.  A source text the
    language rejects is [PMalformed] (the constructor throws SyntaxError).
    Assertions, look-around, named groups and the legacy octal escapes are
    not given a meaning here: such a text is [PUnmodelled], and what the
    platform does with it is left open where it can arise. *)

Inductive parsed (A : Type) :=
| POk (a : A)
| PMalformed
| PUnmodelled.
Arguments PMalformed {A}.
Arguments PUnmodelled {A}.

Definition isc (c : char16) (a : ascii) : bool := N.eqb c (N_of_ascii a).

Definition hexval (c : char16) : option N :=
  if is_digit c then Some (c - 48)%N
  else if ((97 <=? c) && (c <=? 102))%N then Some (c - 87)%N
  else if ((65 <=? c) && (c <=? 70))%N then Some (c - 55)%N
  else None.

Fixpoint hexn (n : nat) (acc : N) (p : jsstring) : option (N * jsstring) :=
  match n with
  | 0 => Some (acc, p)
  | S n' =>
      match p with
      | c :: p' =>
          match hexval c with
          | Some v => hexn n' (acc * 16 + v)%N p'
          | None => None
          end
      | [] => None
      end
  end.

Fixpoint digits (acc : N) (p : jsstring) : N * jsstring :=
  match p with
  | c :: p' => if is_digit c then digits (acc * 10 + (c - 48))%N p' else (acc, p)
  | [] => (acc, p)
  end.

Definition starts_digit (p : jsstring) : bool :=
  match p with c :: _ => is_digit c | [] => false end.

(** What follows a backslash, inside or outside a class, when it denotes
    one character or one of the sets [\d \s \w]. *)
Definition parse_escape (in_class : bool) (p : jsstring)
    : parsed (citem * jsstring) :=
  match p with
  | [] => PMalformed
  | c :: p' =>
      if isc c "d" then POk (CDigit true, p')
      else if isc c "D" then POk (CDigit false, p')
      else if isc c "s" then POk (CSpace true, p')
      else if isc c "S" then POk (CSpace false, p')
      else if isc c "w" then POk (CWord true, p')
      else if isc c "W" then POk (CWord false, p')
      else if isc c "t" then POk (CChar 9%N, p')
      else if isc c "n" then POk (CChar 10%N, p')
      else if isc c "v" then POk (CChar 11%N, p')
      else if isc c "f" then POk (CChar 12%N, p')
      else if isc c "r" then POk (CChar 13%N, p')
      else if isc c "b" then
        if in_class then POk (CChar 8%N, p') else PUnmodelled
      else if isc c "B" then
        if in_class then POk (CChar c, p') else PUnmodelled
      else if isc c "0" then
        if starts_digit p' then PUnmodelled else POk (CChar 0%N, p')
      else if is_digit c then PUnmodelled
      else if isc c "c" then PUnmodelled
      else if isc c "k" then PUnmodelled
      else if isc c "x" then
        match hexn 2 0%N p' with
        | Some (v, p2) => POk (CChar v, p2)
        | None => POk (CChar c, p')
        end
      else if isc c "u" then
        match hexn 4 0%N p' with
        | Some (v, p2) => POk (CChar v, p2)
        | None => POk (CChar c, p')
        end
      else POk (CChar c, p')
  end.

Definition parse_class_atom (p : jsstring) : parsed (citem * jsstring) :=
  match p with
  | [] => PMalformed
  | c :: p' => if isc c "\" then parse_escape true p' else POk (CChar c, p')
  end.

(** The members of a class, up to and including the closing bracket. *)
Fixpoint parse_class (fuel : nat) (p : jsstring)
    : parsed (list citem * jsstring) :=
  match fuel with
  | 0 => PUnmodelled
  | S f =>
      match p with
      | [] => PMalformed
      | c :: p' =>
          if isc c "]" then POk ([], p')
          else
            match parse_class_atom p with
            | POk (a, p1) =>
                let single :=
                  match parse_class f p1 with
                  | POk (its, p2) => POk (a :: its, p2)
                  | e => e
                  end in
                match p1 with
                | d :: (e :: _) as p2 =>
                    if isc d "-" && negb (isc e "]") then
                      match parse_class_atom p2 with
                      | POk (b, p3) =>
                          match a, b with
                          | CChar lo, CChar hi =>
                              if (hi <? lo)%N then PMalformed
                              else
                                match parse_class f p3 with
                                | POk (its, p4) => POk (CRange lo hi :: its, p4)
                                | e => e
                                end
                          | _, _ =>
                              match parse_class f p3 with
                              | POk (its, p4) =>
                                  POk (a :: CChar 45%N :: b :: its, p4)
                              | e => e
                              end
                          end
                      | PMalformed => PMalformed
                      | PUnmodelled => PUnmodelled
                      end
                    else single
                | _ => single
                end
            | PMalformed => PMalformed
            | PUnmodelled => PUnmodelled
            end
      end
  end.

(** A braced quantifier after its opening brace: [n}], [n,}] or [n,m}]. *)
Definition parse_braces (p : jsstring) : option (N * option N * jsstring) :=
  if starts_digit p then
    let '(n, p1) := digits 0%N p in
    match p1 with
    | c :: p2 =>
        if isc c "}" then Some (n, Some n, p2)
        else if isc c "," then
          match p2 with
          | d :: p3 =>
              if isc d "}" then Some (n, None, p3)
              else if is_digit d then
                let '(k, p4) := digits 0%N p2 in
                match p4 with
                | e :: p5 => if isc e "}" then Some (n, Some k, p5) else None
                | [] => None
                end
              else None
          | [] => None
          end
        else None
    | [] => None
    end
  else None.

Definition count_limit : N := 65535.

(** The quantifier that may follow an atom. *)
Definition parse_quant (a : regex) (p : jsstring) : parsed (regex * jsstring) :=
  let lazy (p : jsstring) : bool * jsstring :=
    match p with
    | c :: p' => if isc c "?" then (false, p') else (true, p)
    | [] => (true, p)
    end in
  match p with
  | c :: p' =>
      if isc c "*" then
        let '(g, p2) := lazy p' in POk (RQuant g 0 None a, p2)
      else if isc c "+" then
        let '(g, p2) := lazy p' in POk (RQuant g 1 None a, p2)
      else if isc c "?" then
        let '(g, p2) := lazy p' in POk (RQuant g 0 (Some 1) a, p2)
      else if isc c "{" then
        match parse_braces p' with
        | Some (n, mx, p2) =>
            let '(g, p3) := lazy p2 in
            if (count_limit <? n)%N then PUnmodelled
            else
              match mx with
              | None => POk (RQuant g (N.to_nat n) None a, p3)
              | Some k =>
                  if (k <? n)%N then PMalformed
                  else if (count_limit <? k)%N then PUnmodelled
                  else POk (RQuant g (N.to_nat n) (Some (N.to_nat k)) a, p3)
              end
        | None => POk (a, p)
        end
      else POk (a, p)
  | [] => POk (a, p)
  end.

Definition mk_seq (a b : regex) : regex :=
  match b with
  | REmpty => a
  | _ => RSeq a b
  end.

Definition item_regex (it : citem) : regex :=
  match it with
  | CChar c => RChar c
  | _ => RClass false [it]
  end.

Fixpoint parse_disj (fuel : nat) (p : jsstring) (g : nat)
    : parsed (regex * jsstring * nat) :=
  match fuel with
  | 0 => PUnmodelled
  | S f =>
      match parse_alt f p g with
      | POk (a, p1, g1) =>
          match p1 with
          | c :: p2 =>
              if isc c "|" then
                match parse_disj f p2 g1 with
                | POk (b, p3, g3) => POk (RAlt a b, p3, g3)
                | e => e
                end
              else POk (a, p1, g1)
          | [] => POk (a, p1, g1)
          end
      | e => e
      end
  end
with parse_alt (fuel : nat) (p : jsstring) (g : nat)
    : parsed (regex * jsstring * nat) :=
  match fuel with
  | 0 => PUnmodelled
  | S f =>
      match p with
      | [] => POk (REmpty, p, g)
      | c :: _ =>
          if isc c "|" || isc c ")" then POk (REmpty, p, g)
          else
            match parse_term f p g with
            | POk (t, p1, g1) =>
                match parse_alt f p1 g1 with
                | POk (r, p2, g2) => POk (mk_seq t r, p2, g2)
                | e => e
                end
            | e => e
            end
      end
  end
with parse_term (fuel : nat) (p : jsstring) (g : nat)
    : parsed (regex * jsstring * nat) :=
  match fuel with
  | 0 => PUnmodelled
  | S f =>
      let quantified (a : regex) (p1 : jsstring) (g1 : nat) :=
        match parse_quant a p1 with
        | POk (q, p2) => POk (q, p2, g1)
        | PMalformed => PMalformed
        | PUnmodelled => PUnmodelled
        end in
      match p with
      | [] => PMalformed
      | c :: p' =>
          if isc c "*" || isc c "+" || isc c "?" then PMalformed
          else if isc c "^" || isc c "$" then PUnmodelled
          else if isc c "{" then
            match parse_braces p' with
            | Some _ => PMalformed
            | None => quantified (RChar c) p' g
            end
          else if isc c "." then quantified RAny p' g
          else if isc c "[" then
            let '(neg, p1) :=
              match p' with
              | d :: p1 => if isc d "^" then (true, p1) else (false, p')
              | [] => (false, p')
              end in
            match parse_class (S (length p1)) p1 with
            | POk (its, p2) => quantified (RClass neg its) p2 g
            | PMalformed => PMalformed
            | PUnmodelled => PUnmodelled
            end
          else if isc c "\" then
            match p' with
            | d :: _ =>
                if is_digit d && negb (isc d "0") then
                  let '(n, p2) := digits 0%N p' in
                  if (count_limit <? n)%N then PUnmodelled
                  else quantified (RBackref (N.to_nat n)) p2 g
                else
                  match parse_escape false p' with
                  | POk (it, p2) => quantified (item_regex it) p2 g
                  | PMalformed => PMalformed
                  | PUnmodelled => PUnmodelled
                  end
            | [] => PMalformed
            end
          else if isc c "(" then
            match p' with
            | q :: p1 =>
                if isc q "?" then
                  match p1 with
                  | k :: p2 =>
                      if isc k ":" then
                        match parse_disj f p2 g with
                        | POk (a, p3, g3) =>
                            match p3 with
                            | e :: p4 =>
                                if isc e ")" then quantified a p4 g3
                                else PMalformed
                            | [] => PMalformed
                            end
                        | e => e
                        end
                      else if isc k "=" || isc k "!" || isc k "<" then PUnmodelled
                      else PMalformed
                  | [] => PMalformed
                  end
                else
                  match parse_disj f p' (S g) with
                  | POk (a, p3, g3) =>
                      match p3 with
                      | e :: p4 =>
                          if isc e ")" then quantified (RGroup g a) p4 g3
                          else PMalformed
                      | [] => PMalformed
                      end
                  | e => e
                  end
            | [] => PMalformed
            end
          else quantified (RChar c) p' g
      end
  end.

Fixpoint max_backref (r : regex) : nat :=
  match r with
  | RSeq a b | RAlt a b => Nat.max (max_backref a) (max_backref b)
  | RQuant _ _ _ a | RGroup _ a => max_backref a
  | RBackref i => i
  | _ => 0
  end.

(** A compiled pattern: its syntax tree, the number of its capturing
    groups and its flags. *)
Record regexp := { tree : regex; ngroups : nat; fl : flags }.

Definition compile (source : jsstring) (f : flags) : parsed regexp :=
  match parse_disj (4 * length source + 4) source 1 with
  | POk (r, [], g) =>
      if max_backref r <? g then
        POk {| tree := r; ngroups := pred g; fl := f |}
      else PUnmodelled
  | POk (_, _ :: _, _) => PMalformed       (* a closing parenthesis too many *)
  | PMalformed => PMalformed
  | PUnmodelled => PUnmodelled
  end.

(** The flag sets of the source.  The global flag does not change what
    one attempt matches; it selects the looping forms of [replace] and
    [match], which have their own definitions below. *)
Definition flags_none : flags := {| ignoreCase := false; dotAll := false |}.
Definition flags_g : flags := flags_none.
Definition flags_i : flags := {| ignoreCase := true; dotAll := false |}.
Definition flags_gi : flags := flags_i.
Definition flags_gis : flags := {| ignoreCase := true; dotAll := true |}.

(** Does a pattern text compile? *)
Definition compiles (source : jsstring) : bool :=
  match compile source flags_none with
  | POk _ => true
  | _ => false
  end.

(** The pattern of a source text, for a text that compiles; the empty
    pattern stands in where it does not. *)
Definition compiled (source : jsstring) (f : flags) : regexp :=
  match compile source f with
  | POk r => r
  | _ => {| tree := REmpty; ngroups := 0; fl := f |}
  end.

(** A regular expression literal of the source.  Its last argument is the
    evidence that the text compiles: a literal that did not would be a
    syntax error of the source file, and is one here too. *)
Definition literal (source : jsstring) (f : flags)
    (_ : compiles source = true) : regexp :=
  compiled source f.

(** ** Running a pattern over a string *)

(** One attempt at the front of [s]: the rest after the match and the
    captures. *)
Definition match_at (re : regexp) (s : jsstring)
    : option (jsstring * captures) :=
  m (fl re) (tree re) s (repeat None (ngroups re)) accept.

(** The first match at or after the front of [s], as [exec] finds it from
    [lastIndex]: the matched text, the captures and the rest of the string
    after the match. *)
Fixpoint search (re : regexp) (s : jsstring)
    : option (jsstring * captures * jsstring) :=
  match match_at re s with
  | Some (rest, caps) => Some (consumed s rest, caps, rest)
  | None =>
      match s with
      | [] => None
      | _ :: s' => search re s'
      end
  end.

(** [re.test(s)] on a pattern whose [lastIndex] is 0. *)
Definition test (re : regexp) (s : jsstring) : bool :=
  match search re s with Some _ => true | None => false end.

(** The value of a capture handed to a replacer function or read from a
    match array. *)
Definition grp (i : nat) (caps : captures) : jsstring :=
  match get_cap i caps with Some t => t | None => [] end.

Definition replacer := jsstring -> captures -> jsstring.

(** GetSubstitution for a replacement text: [$$], [$&] and the numbered
    references [$n] and [$nn].  (The two positional forms are not provided;
    no replacement text of the source uses them.) *)
Fixpoint expand (t : jsstring) (matched : jsstring) (caps : captures)
    : jsstring :=
  match t with
  | [] => []
  | c :: t1 =>
      if isc c "$" then
        match t1 with
        | d :: t2 =>
            if isc d "$" then d :: expand t2 matched caps
            else if isc d "&" then matched ++ expand t2 matched caps
            else if is_digit d then
              let n1 := N.to_nat (d - 48)%N in
              let two :=
                match t2 with
                | e :: t3 =>
                    if is_digit e then
                      let n2 := 10 * n1 + N.to_nat (e - 48)%N in
                      if (1 <=? n2) && (n2 <=? length caps)
                      then Some (grp n2 caps ++ expand t3 matched caps)
                      else None
                    else None
                | [] => None
                end in
              match two with
              | Some r => r
              | None =>
                  if (1 <=? n1) && (n1 <=? length caps)
                  then grp n1 caps ++ expand t2 matched caps
                  else c :: d :: expand t2 matched caps
              end
            else c :: expand t1 matched caps
        | [] => [c]
        end
      else c :: expand t1 matched caps
  end.

Definition tpl (t : jsstring) : replacer := fun matched caps => expand t matched caps.

(** [s.replace(re, f)] for a pattern with the global flag.  The walk goes
    through the positions of [s] from left to right; [skip] counts the
    characters still covered by the previous match.  After an empty match
    the search resumes one position further. *)
Fixpoint replace_walk (re : regexp) (f : replacer) (s : jsstring)
    (skip : nat) : jsstring :=
  match skip with
  | S n =>
      match s with
      | [] => []
      | _ :: s' => replace_walk re f s' n
      end
  | 0 =>
      match match_at re s with
      | Some (rest, caps) =>
          let mt := consumed s rest in
          f mt caps ++
          match s with
          | [] => []
          | c :: s' =>
              match length mt with
              | 0 => c :: replace_walk re f s' 0
              | S n => replace_walk re f s' n
              end
          end
      | None =>
          match s with
          | [] => []
          | c :: s' => c :: replace_walk re f s' 0
          end
      end
  end.

Definition replace (re : regexp) (f : replacer) (s : jsstring) : jsstring :=
  replace_walk re f s 0.

(** [s.match(re)] for a pattern with the global flag: every matched text,
    or null when there is none. *)
Fixpoint match_walk (re : regexp) (s : jsstring) (skip : nat)
    : list jsstring :=
  match skip with
  | S n =>
      match s with
      | [] => []
      | _ :: s' => match_walk re s' n
      end
  | 0 =>
      match match_at re s with
      | Some (rest, _) =>
          let mt := consumed s rest in
          mt ::
          match s with
          | [] => []
          | _ :: s' => match_walk re s' (pred (length mt))
          end
      | None =>
          match s with
          | [] => []
          | _ :: s' => match_walk re s' 0
          end
      end
  end.

Definition match_all (re : regexp) (s : jsstring) : option (list jsstring) :=
  match match_walk re s 0 with
  | [] => None
  | l => Some l
  end.

End RegExp.

Import RegExp.

(* ================================================================== *)
(** * Exceptions, the network and the clock *)
(* ================================================================== *)

(** An Error object, of which the source reads [name] and [message]. *)
Record Error := { name : jsstring; message : jsstring }.

(** [new Error(msg)] *)
Definition mkError (msg : jsstring) : Error :=
  {| name := js "Error"; message := msg |}.

(** A thrown value.  JavaScript throws any value, and a promise rejects
    with any value: [fetch] and [response.text()] reject with the reason
    the caller gave to [abort], which need not be an Error.  The source
    does three things with a caught value: it tests it in
    [lastError || ...], it reads its [name] and it reads its [message]. *)
Inductive thrown :=
| Obj (e : Error)
    (* an object whose name and message are strings: every Error *)
| Bare (falsy : bool)
    (* a value with neither property that is not null or undefined: a
       string, a number, a boolean, a plain object; [falsy] tells whether
       it converts to false *)
| Nullish.
    (* null or undefined: reading a property of it throws a TypeError *)

Coercion Obj : Error >-> thrown.

(** [!error] *)
Definition falsy (v : thrown) : bool :=
  match v with
  | Obj _ => false
  | Bare f => f
  | Nullish => true
  end.

(** [error.name === s], for a value that is not null or undefined. *)
Definition named (v : thrown) (s : jsstring) : bool :=
  match v with
  | Obj e => str_eqb (name e) s
  | _ => false
  end.

(** [error.message] inside a template literal, for a value that is not
    null or undefined. *)
Definition message_text (v : thrown) : jsstring :=
  match v with
  | Obj e => message e
  | _ => js "undefined"
  end.

Inductive completion (A : Type) :=
| Normal (a : A)
| Throw (e : thrown).
Arguments Throw {A}.

(** A fetched response.  [body] is what [await response.text()] gives; it
    may still fail while the body is read. *)
Record Response := {
  status : N;
  statusText : jsstring;
  contentType : option jsstring;        (* headers.get("content-type") *)
  body : completion jsstring
}.

(** [response.ok] *)
Definition ok (r : Response) : bool :=
  ((200 <=? status r) && (status r <=? 299))%N.

(** What the run does to the outside, in order. *)
Inductive event :=
| Fetched (url : jsstring)
| Waited (ms : Q).

Record world := {
  calls : nat;             (* calls of fetch so far *)
  draws : nat;             (* calls of Math.random so far *)
  log : list event
}.

Definition world0 : world := {| calls := 0; draws := 0; log := [] |}.

(** The host and everything imported from outside the two files. *)
Record platform := {
  (** [fetch(url, options)]: the outcome of the k-th call; an aborted
      signal shows as the thrown abort reason, an AbortError unless the
      caller gave another one. *)
  net : nat -> jsstring -> completion Response;
  (** [Math.random()]: the k-th draw. *)
  random : nat -> Q;
  (** [new URL(url).protocol], or None when the constructor throws. *)
  newURL : jsstring -> option jsstring;
  (** [new RegExp(source, "gi")] followed by [html.match] for a source
      text outside the modelled syntax. *)
  foreign_regexp : jsstring -> completion (jsstring -> option (list jsstring));
  (** The message of the SyntaxError for a rejected pattern. *)
  syntax_error : jsstring -> jsstring;
  (** The message of a URIError. *)
  uri_error : jsstring;
  (** The message of the TypeError for reading [name] of null or of
      undefined. *)
  type_error : jsstring;
  (** Imported from ./truncate.js. *)
  formatSize : nat -> jsstring;
  DEFAULT_MAX_BYTES : nat;
  DEFAULT_MAX_LINES : nat
}.

(** Computations that act on the world and may throw. *)
Definition M (A : Type) := world -> completion A * world.

Definition ret {A} (a : A) : M A := fun w => (Normal a, w).
Definition throw {A} (e : thrown) : M A := fun w => (Throw e, w).
Definition bind {A B} (x : M A) (f : A -> M B) : M B :=
  fun w =>
    match x w with
    | (Normal a, w') => f a w'
    | (Throw e, w') => (Throw e, w')
    end.
Definition lift {A} (c : completion A) : M A := fun w => (c, w).

Notation "x <- c ;; k" := (bind c (fun x => k))
  (at level 61, c at next level, right associativity).
Notation "c ;;; k" := (bind c (fun _ => k))
  (at level 61, right associativity).

Definition fetch (P : platform) (url : jsstring) : M Response :=
  fun w =>
    (net P (calls w) url,
     {| calls := S (calls w); draws := draws w;
        log := log w ++ [Fetched url] |}).

Definition Math_random (P : platform) : M Q :=
  fun w =>
    (Normal (random P (draws w)),
     {| calls := calls w; draws := S (draws w); log := log w |}).

(** [await new Promise((resolve) => setTimeout(resolve, waitTime))] *)
Definition sleep (waitTime : Q) : M unit :=
  fun w =>
    (Normal tt,
     {| calls := calls w; draws := draws w; log := log w ++ [Waited waitTime] |}).

Definition pow2 (n : nat) : Q := inject_Z (2 ^ Z.of_nat n).

(** [2 ** attempt * 1000 + Math.random() * 1000] *)
Definition rate_limit_wait (attempt : nat) (r : Q) : Q :=
  (pow2 attempt * 1000 + r * 1000)%Q.

(** [2 ** attempt * 500] *)
Definition error_wait (attempt : nat) : Q := (pow2 attempt * 500)%Q.

(** [lastError || new Error("Max retries exceeded")]: [lastError] starts
    as null and holds whatever the last failed call threw. *)
Definition or_max_retries (lastError : option thrown) : thrown :=
  match lastError with
  | Some e => if falsy e then Obj (mkError (js "Max retries exceeded")) else e
  | None => Obj (mkError (js "Max retries exceeded"))
  end.

(** Rate limit handling: retry with exponential backoff.  The two files
    carry the same text of this function.  [retry_loop] is the [for] loop,
    entered with [attempt] and [maxRetries - attempt] rounds to go. *)
Fixpoint retry_loop (P : platform) (url : jsstring) (maxRetries : nat)
    (togo : nat) (attempt : nat) (lastError : option thrown) : M Response :=
  match togo with
  | 0 => throw (or_max_retries lastError)
  | S togo' =>
      fun w =>
        match fetch P url w with
        | (Normal response, w1) =>
            if (status response =? 429)%N then
              (* Rate limited - wait and retry *)
              (r <- Math_random P ;;
               sleep (rate_limit_wait attempt r) ;;;
               retry_loop P url maxRetries togo' (S attempt) lastError) w1
            else (Normal response, w1)
        | (Throw error, w1) =>
            ((if attempt <? maxRetries - 1
              then sleep (error_wait attempt)
              else ret tt) ;;;
             retry_loop P url maxRetries togo' (S attempt) (Some error)) w1
        end
  end.

Definition fetchWithRetry (P : platform) (url : jsstring) (maxRetries : nat)
    : M Response :=
  retry_loop P url maxRetries maxRetries 0 None.

(** The number of network calls in a log. *)
Definition fetches (l : list event) : nat :=
  List.length (filter (fun e => match e with Fetched _ => true | _ => false end) l).

(** The waits in a log, in order. *)
Definition waits (l : list event) : list Q :=
  flat_map (fun e => match e with Waited q => [q] | _ => [] end) l.

(* ================================================================== *)
(** * truncate.ts *)
(* ================================================================== *)

Module Truncate.

Definition is_high (c : char16) : bool := ((55296 <=? c) && (c <=? 56319))%N.
Definition is_low (c : char16) : bool := ((56320 <=? c) && (c <=? 57343))%N.

(** The length of the UTF-8 encoding of a string: one to three bytes for a
    code unit, four for a surrogate pair.  [after_high] tells that the code
    unit before was a high surrogate, already counted for three. *)
Fixpoint utf8_from (after_high : bool) (s : jsstring) : nat :=
  match s with
  | [] => 0
  | c :: s' =>
      (if (c <? 128)%N then 1
       else if (c <? 2048)%N then 2
       else if after_high && is_low c then 1
       else 3) + utf8_from (is_high c) s'
  end.

Definition byteLength (s : jsstring) : nat := utf8_from false s.

Record TruncationResult := {
  content : jsstring;
  truncated : bool;
  totalBytes : nat;
  outputBytes : nat;
  totalLines : nat;
  outputLines : nat
}.

Section Caps.

Variables maxBytes maxLines : nat.

(** Modelled from the spec: the lines kept by truncateHead, whose file
    (truncate.ts) is not part of the sources at hand.  The head is kept and
    the tail dropped once the byte cap or the line cap is hit, whichever
    comes first; [i] is the index of the next line and [bytes] the size of
    the text kept so far.  The specification does not say whether the cut
    may fall inside a line; whole lines are kept here. *)
Fixpoint keep_lines (lines : list jsstring) (i : nat) (bytes : nat)
    : list jsstring :=
  match lines with
  | [] => []
  | line :: rest =>
      if i <? maxLines then
        let lineBytes := byteLength line + (if i =? 0 then 0 else 1) in
        if bytes + lineBytes <=? maxBytes
        then line :: keep_lines rest (S i) (bytes + lineBytes)
        else []
      else []
  end.

(** Modelled from the spec: truncateHead of truncate.ts, which is not part
    of the sources at hand.  It bounds a text by a maximal byte count and a
    maximal line count, keeps the head, and reports the exact totals of the
    input and the exact sizes of the output. *)
Definition truncateHead (text : jsstring) : TruncationResult :=
  let totalBytes := byteLength text in
  let lines := split_on 10%N text in
  let totalLines := List.length lines in
  if (totalLines <=? maxLines) && (totalBytes <=? maxBytes) then
    {| content := text; truncated := false;
       totalBytes := totalBytes; outputBytes := totalBytes;
       totalLines := totalLines; outputLines := totalLines |}
  else
    let kept := keep_lines lines 0 0 in
    let out := join NL kept in
    {| content := out; truncated := true;
       totalBytes := totalBytes; outputBytes := byteLength out;
       totalLines := totalLines; outputLines := List.length kept |}.

End Caps.

End Truncate.

(* ================================================================== *)
(** * web-read.ts: markup conversion and content location *)
(* ================================================================== *)

Module WebRead.

(** [String.fromCharCode(parseInt(code, radix))]: the number modulo 2^16.
    (Exact while the number is below 2^53, where parseInt is.) *)
Fixpoint parseInt (radix : N) (acc : N) (s : jsstring) : N :=
  match s with
  | c :: s' =>
      match hexval c with
      | Some v => parseInt radix (acc * radix + v)%N s'
      | None => acc
      end
  | [] => acc
  end.

Definition fromCharCode (n : N) : jsstring := [(n mod 65536)%N].

(** Simple HTML entity decoder *)
Definition decodeEntities (html : jsstring) : jsstring :=
  let s := replace (literal (js "&amp;") flags_g eq_refl) (tpl (js "&")) html in
  let s := replace (literal (js "&lt;") flags_g eq_refl) (tpl (js "<")) s in
  let s := replace (literal (js "&gt;") flags_g eq_refl) (tpl (js ">")) s in
  let s := replace (literal (js "&quot;") flags_g eq_refl) (tpl DQ) s in
  let s := replace (literal (js "&#39;") flags_g eq_refl) (tpl (js "'")) s in
  let s := replace (literal (js "&nbsp;") flags_g eq_refl) (tpl (js " ")) s in
  let s := replace (literal (js "&#(\d+);") flags_g eq_refl)
             (fun _ caps => fromCharCode (parseInt 10 0 (grp 1 caps))) s in
  replace (literal (js "&#x([0-9a-fA-F]+);") flags_g eq_refl)
    (fun _ caps => fromCharCode (parseInt 16 0 (grp 1 caps))) s.

(** Strip HTML tags *)
Definition stripTags (html : jsstring) : jsstring :=
  replace (literal (js "<[^>]+>") flags_g eq_refl) (tpl []) html.

(** Extract text content from HTML, preserving some structure *)
Definition htmlToText (html : jsstring) : jsstring :=
  let text := html in
  (* Remove script and style elements completely *)
  let text := replace (literal (js "<script[^>]*>[\s\S]*?<\/script>") flags_gi eq_refl) (tpl []) text in
  let text := replace (literal (js "<style[^>]*>[\s\S]*?<\/style>") flags_gi eq_refl) (tpl []) text in
  let text := replace (literal (js "<nav[^>]*>[\s\S]*?<\/nav>") flags_gi eq_refl) (tpl []) text in
  let text := replace (literal (js "<footer[^>]*>[\s\S]*?<\/footer>") flags_gi eq_refl) (tpl []) text in
  let text := replace (literal (js "<header[^>]*>[\s\S]*?<\/header>") flags_gi eq_refl) (tpl []) text in
  let text := replace (literal (js "<aside[^>]*>[\s\S]*?<\/aside>") flags_gi eq_refl) (tpl []) text in
  (* Convert block elements to newlines *)
  let text := replace (literal (js "<br\s*\/?>") flags_gi eq_refl) (tpl NL) text in
  let text := replace (literal (js "<\/p>") flags_gi eq_refl) (tpl (NL ++ NL)) text in
  let text := replace (literal (js "<\/div>") flags_gi eq_refl) (tpl NL) text in
  let text := replace (literal (js "<\/li>") flags_gi eq_refl) (tpl NL) text in
  let text := replace (literal (js "<\/tr>") flags_gi eq_refl) (tpl NL) text in
  let text := replace (literal (js "<\/td>") flags_gi eq_refl) (tpl (js " ")) text in
  let text := replace (literal (js "<\/th>") flags_gi eq_refl) (tpl (js " ")) text in
  (* Handle headings *)
  let text := replace (literal (js "<\/h[1-6]>") flags_gi eq_refl) (tpl (NL ++ NL)) text in
  (* Strip remaining tags *)
  let text := stripTags text in
  (* Decode entities *)
  let text := decodeEntities text in
  (* Clean up whitespace *)
  let text := replace (literal (js "[ \t]+") flags_g eq_refl) (tpl (js " ")) text in
  let text := replace (literal (js "\n{3,}") flags_g eq_refl) (tpl (NL ++ NL)) text in
  trim text.

(** The replacer of the six heading rules. *)
Definition heading (marks : jsstring) : replacer :=
  fun _ caps => NL ++ marks ++ js " " ++ trim (stripTags (grp 1 caps)) ++ NL.

(** Convert HTML to Markdown *)
Definition htmlToMarkdown (html : jsstring) : jsstring :=
  let md := html in
  (* Remove script and style elements completely *)
  let md := replace (literal (js "<script[^>]*>[\s\S]*?<\/script>") flags_gi eq_refl) (tpl []) md in
  let md := replace (literal (js "<style[^>]*>[\s\S]*?<\/style>") flags_gi eq_refl) (tpl []) md in
  let md := replace (literal (js "<nav[^>]*>[\s\S]*?<\/nav>") flags_gi eq_refl) (tpl []) md in
  let md := replace (literal (js "<footer[^>]*>[\s\S]*?<\/footer>") flags_gi eq_refl) (tpl []) md in
  let md := replace (literal (js "<aside[^>]*>[\s\S]*?<\/aside>") flags_gi eq_refl) (tpl []) md in
  (* Extract and preserve links *)
  let md :=
    replace
      (literal (js "<a[^>]*href=" ++ DQ ++ js "([^" ++ DQ ++ js "]+)" ++ DQ
                ++ js "[^>]*>([\s\S]*?)<\/a>") flags_gi eq_refl)
      (fun _ caps =>
         let href := grp 1 caps in
         let linkText := trim (stripTags (grp 2 caps)) in
         match linkText with
         | [] => linkText
         | _ =>
             if startsWith href (js "javascript:") then linkText
             else js "[" ++ linkText ++ js "](" ++ href ++ js ")"
         end) md in
  (* Extract and preserve images *)
  let md :=
    replace
      (literal (js "<img[^>]*src=" ++ DQ ++ js "([^" ++ DQ ++ js "]+)" ++ DQ
                ++ js "[^>]*alt=" ++ DQ ++ js "([^" ++ DQ ++ js "]*)" ++ DQ
                ++ js "[^>]*\/?>") flags_gi eq_refl)
      (tpl (js "![$2]($1)")) md in
  let md :=
    replace
      (literal (js "<img[^>]*src=" ++ DQ ++ js "([^" ++ DQ ++ js "]+)" ++ DQ
                ++ js "[^>]*\/?>") flags_gi eq_refl)
      (tpl (js "![]($1)")) md in
  (* Convert headings *)
  let md := replace (literal (js "<h1[^>]*>([\s\S]*?)<\/h1>") flags_gi eq_refl) (heading (js "#")) md in
  let md := replace (literal (js "<h2[^>]*>([\s\S]*?)<\/h2>") flags_gi eq_refl) (heading (js "##")) md in
  let md := replace (literal (js "<h3[^>]*>([\s\S]*?)<\/h3>") flags_gi eq_refl) (heading (js "###")) md in
  let md := replace (literal (js "<h4[^>]*>([\s\S]*?)<\/h4>") flags_gi eq_refl) (heading (js "####")) md in
  let md := replace (literal (js "<h5[^>]*>([\s\S]*?)<\/h5>") flags_gi eq_refl) (heading (js "#####")) md in
  let md := replace (literal (js "<h6[^>]*>([\s\S]*?)<\/h6>") flags_gi eq_refl) (heading (js "######")) md in
  (* Convert formatting *)
  let md := replace (literal (js "<(strong|b)[^>]*>([\s\S]*?)<\/\1>") flags_gi eq_refl) (tpl (js "**$2**")) md in
  let md := replace (literal (js "<(em|i)[^>]*>([\s\S]*?)<\/\1>") flags_gi eq_refl) (tpl (js "*$2*")) md in
  let md := replace (literal (js "<code[^>]*>([\s\S]*?)<\/code>") flags_gi eq_refl) (tpl (js "`$1`")) md in
  let md := replace (literal (js "<(pre)[^>]*>([\s\S]*?)<\/\1>") flags_gi eq_refl)
              (tpl (NL ++ js "```" ++ NL ++ js "$2" ++ NL ++ js "```" ++ NL)) md in
  (* Convert lists *)
  let md := replace (literal (js "<ul[^>]*>") flags_gi eq_refl) (tpl NL) md in
  let md := replace (literal (js "<\/ul>") flags_gi eq_refl) (tpl NL) md in
  let md := replace (literal (js "<ol[^>]*>") flags_gi eq_refl) (tpl NL) md in
  let md := replace (literal (js "<\/ol>") flags_gi eq_refl) (tpl NL) md in
  let md := replace (literal (js "<li[^>]*>([\s\S]*?)<\/li>") flags_gi eq_refl) (tpl (js "- $1" ++ NL)) md in
  (* Convert blockquotes *)
  let md :=
    replace (literal (js "<blockquote[^>]*>([\s\S]*?)<\/blockquote>") flags_gi eq_refl)
      (fun _ caps =>
         let lines := split_on 10%N (trim (stripTags (grp 1 caps))) in
         join NL (map (fun line => js "> " ++ line) lines) ++ NL) md in
  (* Convert tables (simple) *)
  let md :=
    replace (literal (js "<table[^>]*>([\s\S]*?)<\/table>") flags_gi eq_refl)
      (fun _ caps =>
         let table := grp 1 caps in
         let table :=
           replace (literal (js "<tr[^>]*>([\s\S]*?)<\/tr>") flags_gi eq_refl)
             (fun _ caps =>
                let row := grp 1 caps in
                let cells :=
                  match match_all (literal (js "<t[dh][^>]*>[\s\S]*?<\/t[dh]>") flags_gi eq_refl) row with
                  | Some l => l
                  | None => []
                  end in
                let cellContents := map (fun c => trim (stripTags c)) cells in
                js "| " ++ join (js " | ") cellContents ++ js " |" ++ NL) table in
         NL ++ table ++ NL) md in
  (* Handle line breaks and paragraphs *)
  let md := replace (literal (js "<br\s*\/?>") flags_gi eq_refl) (tpl NL) md in
  let md := replace (literal (js "<p[^>]*>([\s\S]*?)<\/p>") flags_gi eq_refl) (tpl (NL ++ js "$1" ++ NL)) md in
  let md := replace (literal (js "<\/div>") flags_gi eq_refl) (tpl NL) md in
  (* Strip remaining tags *)
  let md := stripTags md in
  (* Decode entities *)
  let md := decodeEntities md in
  (* Clean up whitespace *)
  let md := replace (literal (js "[ \t]+") flags_g eq_refl) (tpl (js " ")) md in
  let md := replace (literal (js "\n{3,}") flags_g eq_refl) (tpl (NL ++ NL)) md in
  trim md.

(** Every code unit is below 128. *)
Definition is_ascii (s : jsstring) : bool := forallb (fun c => c <? 128)%N s.

(** [new RegExp(source, "gi")], seen through the one use the source makes
    of the object: [html.match(pattern)].  The source text comes from the
    caller's selector; a text with a character outside ASCII is left to
    the platform, since [RegExp.upper] folds ASCII letters only. *)
Definition RegExp_gi (P : platform) (source : jsstring)
    : completion (jsstring -> option (list jsstring)) :=
  if is_ascii source then
    match compile source flags_gi with
    | POk re => Normal (match_all re)
    | PMalformed =>
        Throw {| name := js "SyntaxError"; message := syntax_error P source |}
    | PUnmodelled => foreign_regexp P source
    end
  else foreign_regexp P source.

(** The pattern texts pushed for a selector. *)
Definition selector_patterns (selector : jsstring) : list jsstring :=
  if startsWith selector (js "#") then
    (* ID selector *)
    let id := slice1 selector in
    [ js "<[^>]*id=" ++ DQ ++ id ++ DQ ++ js "[^>]*>([\s\S]*?)<\/[^>]+>";
      js "<[^>]*id='" ++ id ++ js "'[^>]*>([\s\S]*?)<\/[^>]+>" ]
  else if startsWith selector (js ".") then
    (* Class selector *)
    let className := slice1 selector in
    [ js "<[^>]*class=" ++ DQ ++ js "[^" ++ DQ ++ js "]*" ++ className
      ++ js "[^" ++ DQ ++ js "]*" ++ DQ ++ js "[^>]*>([\s\S]*?)<\/[^>]+>" ]
  else
    (* Element selector *)
    [ js "<" ++ selector ++ js "[^>]*>([\s\S]*?)<\/" ++ selector ++ js ">" ].

Fixpoint compile_all (P : platform) (sources : list jsstring)
    : completion (list (jsstring -> option (list jsstring))) :=
  match sources with
  | [] => Normal []
  | src :: rest =>
      match RegExp_gi P src with
      | Throw e => Throw e
      | Normal p =>
          match compile_all P rest with
          | Throw e => Throw e
          | Normal ps => Normal (p :: ps)
          end
      end
  end.

Fixpoint first_matches (html : jsstring)
    (patterns : list (jsstring -> option (list jsstring))) : jsstring :=
  match patterns with
  | [] => []
  | pattern :: rest =>
      match pattern html with
      | Some (x :: l) => join NL (x :: l)
      | _ => first_matches html rest
      end
  end.

(** Extract content using selector *)
Definition extractBySelector (P : platform) (html selector : jsstring)
    : completion jsstring :=
  match compile_all P (selector_patterns selector) with
  | Throw e => Throw e
  | Normal patterns => Normal (first_matches html patterns)
  end.

(** Extract title from HTML *)
Definition extractTitle (html : jsstring) : jsstring :=
  match search (literal (js "<title[^>]*>([\s\S]*?)<\/title>") flags_i eq_refl) html with
  | Some (_, titleMatch, _) => trim (decodeEntities (stripTags (grp 1 titleMatch)))
  | None =>
      match search (literal (js "<h1[^>]*>([\s\S]*?)<\/h1>") flags_i eq_refl) html with
      | Some (_, h1Match, _) => trim (decodeEntities (stripTags (grp 1 h1Match)))
      | None => []
      end
  end.

Definition contentSelectors : list jsstring :=
  [ js "article";
    js "[role=" ++ DQ ++ js "main" ++ DQ ++ js "]";
    js "main";
    js "#content";
    js "#main";
    js ".content";
    js ".main";
    js ".article";
    js ".post" ].

(** The [for] loop of extractMainContent over the selectors still to try;
    None when no candidate qualifies. *)
Fixpoint try_selectors (P : platform) (html : jsstring)
    (selectors : list jsstring) : completion (option jsstring) :=
  match selectors with
  | [] => Normal None
  | selector :: rest =>
      match extractBySelector P html selector with
      | Throw e => Throw e
      | Normal content =>
          if 500 <? List.length content then Normal (Some content)
          else try_selectors P html rest
      end
  end.

(** Try to extract main content using heuristics (simplified Readability) *)
Definition extractMainContent (P : platform) (html : jsstring)
    : completion jsstring :=
  (* Try common article/content selectors *)
  match try_selectors P html contentSelectors with
  | Throw e => Throw e
  | Normal (Some content) => Normal content
  | Normal None =>
      (* Fall back to body content *)
      match search (literal (js "<body[^>]*>([\s\S]*?)<\/body>") flags_i eq_refl) html with
      | Some (_, bodyMatch, _) => Normal (grp 1 bodyMatch)
      | None => Normal html
      end
  end.

(** ** The tool *)

Inductive Format := markdown | text.

Record TruncationInfo := {
  info_totalBytes : nat;
  info_outputBytes : nat;
  info_totalLines : nat;
  info_outputLines : nat
}.

Record WebReadToolDetails := {
  d_url : jsstring;
  d_format : Format;
  d_title : option jsstring;
  d_truncated : bool;
  d_truncationInfo : option TruncationInfo
}.

(** What the tool hands back: the text of its one content item, the
    details, and the error flag (absent counts as false). *)
Record ToolResult (D : Type) := {
  r_text : jsstring;
  r_details : D;
  isError : bool
}.

Import Truncate.

Definition truncation_notice (P : platform) (t : TruncationResult) : jsstring :=
  NL ++ NL ++ js "[Content truncated: showing " ++ dec (N.of_nat (outputLines t))
  ++ js " of " ++ dec (N.of_nat (totalLines t)) ++ js " lines ("
  ++ formatSize P (outputBytes t) ++ js " of " ++ formatSize P (totalBytes t)
  ++ js ")]".

Definition truncation_info (t : TruncationResult) : option TruncationInfo :=
  if truncated t then
    Some {| info_totalBytes := totalBytes t; info_outputBytes := outputBytes t;
            info_totalLines := totalLines t; info_outputLines := outputLines t |}
  else None.

Definition is_empty (s : jsstring) : bool :=
  match s with [] => true | _ => false end.

(** The body of the [try] block of [execute]. *)
Definition execute_try (P : platform) (url : jsstring) (outputFormat : Format)
    (selector : option jsstring) : M (ToolResult WebReadToolDetails) :=
  (* Validate URL *)
  match newURL P url with
  | None => throw (mkError (js "Invalid URL: " ++ url))
  | Some protocol =>
      (* Only allow http/https *)
      if negb (str_eqb protocol (js "http:") || str_eqb protocol (js "https:"))
      then throw (mkError (js "Unsupported protocol: " ++ protocol
                           ++ js ". Only http and https are allowed."))
      else
        response <- fetchWithRetry P url 3 ;;
        if negb (ok response) then
          throw (mkError (js "Failed to fetch: " ++ dec (status response)
                          ++ js " " ++ statusText response))
        else
          let contentType :=
            match contentType response with Some c => c | None => [] end in
          (* Handle non-HTML content *)
          if negb (includes contentType (js "text/html"))
             && negb (includes contentType (js "application/xhtml")) then
            (* For text content, return as-is *)
            if includes contentType (js "text/") then
              text <- lift (body response) ;;
              let truncation :=
                truncateHead (DEFAULT_MAX_BYTES P) (DEFAULT_MAX_LINES P) text in
              let output := content truncation in
              let output :=
                if truncated truncation
                then output ++ truncation_notice P truncation else output in
              ret {| r_text := output;
                     r_details :=
                       {| d_url := url; d_format := outputFormat;
                          d_title := None;
                          d_truncated := truncated truncation;
                          d_truncationInfo := truncation_info truncation |};
                     isError := false |}
            else
              throw (mkError (js "Unsupported content type: " ++ contentType
                              ++ js ". This tool only supports HTML and text content."))
          else
            html <- lift (body response) ;;
            (* Extract title *)
            let title := extractTitle html in
            (* Extract content *)
            contentHtml <-
              match selector with
              | Some (c :: sel) =>
                  let selector := c :: sel in
                  contentHtml <- lift (extractBySelector P html selector) ;;
                  if is_empty contentHtml then
                    throw (mkError (js "No content found matching selector: "
                                    ++ selector))
                  else ret contentHtml
              | _ => lift (extractMainContent P html)
              end ;;
            (* Convert to desired format *)
            let content :=
              match outputFormat with
              | markdown => htmlToMarkdown contentHtml
              | text => htmlToText contentHtml
              end in
            (* Apply truncation *)
            let truncation :=
              truncateHead (DEFAULT_MAX_BYTES P) (DEFAULT_MAX_LINES P) content in
            let output :=
              if is_empty title then []
              else js "# " ++ title ++ NL ++ NL ++ js "Source: " ++ url ++ NL ++ NL in
            let output := output ++ Truncate.content truncation in
            let output :=
              if truncated truncation
              then output ++ truncation_notice P truncation else output in
            ret {| r_text := output;
                   r_details :=
                     {| d_url := url; d_format := outputFormat;
                        d_title := Some title;
                        d_truncated := truncated truncation;
                        d_truncationInfo := truncation_info truncation |};
                   isError := false |}
  end.

(** [execute]: the [try] block and the [catch] around it.  The handler
    reads [error.name] first: on null or undefined that read throws, and
    nothing catches it. *)
Definition execute (P : platform) (url : jsstring) (format : option Format)
    (selector : option jsstring) : M (ToolResult WebReadToolDetails) :=
  fun w =>
    let outputFormat := match format with Some f => f | None => markdown end in
    let plain :=
      {| d_url := url; d_format := outputFormat; d_title := None;
         d_truncated := false; d_truncationInfo := None |} in
    match execute_try P url outputFormat selector w with
    | (Normal r, w') => (Normal r, w')
    | (Throw Nullish, w') =>
        (Throw (Obj {| name := js "TypeError"; message := type_error P |}), w')
    | (Throw error, w') =>
        if named error (js "AbortError") then
          (Normal {| r_text := js "Request cancelled"; r_details := plain;
                     isError := false |}, w')
        else
          (Normal {| r_text := js "Failed to read URL: " ++ message_text error;
                     r_details := plain; isError := true |}, w')
    end.

End WebRead.

(* ================================================================== *)
(** * URI coding *)
(* ================================================================== *)

Module URI.

(** [n] continuation octets, each written %XX with the two top bits 10. *)
Fixpoint continuation (n : nat) (acc : N) (p : jsstring)
    : option (N * jsstring) :=
  match n with
  | 0 => Some (acc, p)
  | S n' =>
      match p with
      | c :: p1 =>
          if isc c "%" then
            match hexn 2 0%N p1 with
            | Some (b, p2) =>
                if (b / 64 =? 2)%N
                then continuation n' (acc * 64 + b mod 64)%N p2
                else None
            | None => None
            end
          else None
      | [] => None
      end
  end.

(** The UTF-16 form of a code point. *)
Definition utf16 (v : N) : jsstring :=
  if (v <? 65536)%N then [v]
  else [(55296 + (v - 65536) / 1024)%N; (56320 + (v - 65536) mod 1024)%N].

(** Decode with an empty reserved set.  None is a thrown URIError.  One
    unit of [fuel] per character of the input is enough. *)
Fixpoint decode (fuel : nat) (s : jsstring) : option jsstring :=
  match s with
  | [] => Some []
  | c :: s1 =>
      match fuel with
      | 0 => None
      | S f =>
          if isc c "%" then
            match hexn 2 0%N s1 with
            | None => None
            | Some (b, s2) =>
                if (b <? 128)%N then option_map (cons b) (decode f s2)
                else if (b <? 192)%N then None
                else
                  let '(n, lead, least) :=
                    if (b <? 224)%N then (1, b mod 32, 128)%N
                    else if (b <? 240)%N then (2, b mod 16, 2048)%N
                    else (3, b mod 8, 65536)%N in
                  if (248 <=? b)%N then None
                  else
                    match continuation (N.to_nat n) lead s2 with
                    | None => None
                    | Some (v, s3) =>
                        if (v <? least)%N || (1114111 <? v)%N
                           || ((55296 <=? v) && (v <=? 57343))%N
                        then None
                        else option_map (app (utf16 v)) (decode f s3)
                    end
            end
          else option_map (cons c) (decode f s1)
      end
  end.

Definition decodeURIComponent (s : jsstring) : option jsstring :=
  decode (List.length s) s.

(** uriUnescaped: letters, digits and [-_.!~*'()]. *)
Definition unescaped (c : char16) : bool :=
  (((97 <=? c) && (c <=? 122)) || ((65 <=? c) && (c <=? 90)) || is_digit c)%N
  || existsb (N.eqb c) (js "-_.!~*'()").

Definition hexdigit (v : N) : char16 :=
  if (v <? 10)%N then (48 + v)%N else (55 + v)%N.

Definition percent (b : N) : jsstring :=
  [37%N; hexdigit (b / 16); hexdigit (b mod 16)].

Definition utf8 (v : N) : list N :=
  if (v <? 128)%N then [v]
  else if (v <? 2048)%N then [192 + v / 64; 128 + v mod 64]%N
  else if (v <? 65536)%N then
    [224 + v / 4096; 128 + (v / 64) mod 64; 128 + v mod 64]%N
  else
    [240 + v / 262144; 128 + (v / 4096) mod 64;
     128 + (v / 64) mod 64; 128 + v mod 64]%N.

(** Encode.  None is a thrown URIError (a lone surrogate). *)
Fixpoint encodeURIComponent (s : jsstring) : option jsstring :=
  match s with
  | [] => Some []
  | c :: s1 =>
      if unescaped c then option_map (cons c) (encodeURIComponent s1)
      else if Truncate.is_low c then None
      else if Truncate.is_high c then
        match s1 with
        | d :: s2 =>
            if Truncate.is_low d then
              let v := ((c - 55296) * 1024 + (d - 56320) + 65536)%N in
              option_map (app (flat_map percent (utf8 v))) (encodeURIComponent s2)
            else None
        | [] => None
        end
      else option_map (app (flat_map percent (utf8 c))) (encodeURIComponent s1)
  end.

End URI.

(* ================================================================== *)
(** * web-search.ts *)
(* ================================================================== *)

Module WebSearch.

Record WebSearchResult := {
  url : jsstring;
  title : jsstring;
  snippet : jsstring
}.

Record WebSearchToolDetails := {
  d_query : jsstring;
  resultCount : nat;
  d_truncated : bool
}.

(** A JavaScript number, as far as [max_results] needs one: a finite value
    (every finite double is a rational), or one of the three others. *)
Inductive number :=
| Finite (q : Q)
| NaN
| PosInfinity
| NegInfinity.

(** [Math.min(a, b)] *)
Definition Math_min (a b : number) : number :=
  match a, b with
  | NaN, _ | _, NaN => NaN
  | NegInfinity, _ | _, NegInfinity => NegInfinity
  | PosInfinity, x | x, PosInfinity => x
  | Finite p, Finite q => if Qle_bool p q then a else b
  end.

(** [n < x] for an array length [n]. *)
Definition length_lt (n : nat) (x : number) : bool :=
  match x with
  | Finite q => negb (Qle_bool q (inject_Z (Z.of_nat n)))
  | PosInfinity => true
  | NaN | NegInfinity => false
  end.

Definition stripTags (html : jsstring) : jsstring :=
  let s := replace (literal (js "<[^>]+>") flags_g eq_refl) (tpl []) html in
  let s := replace (literal (js "&amp;") flags_g eq_refl) (tpl (js "&")) s in
  let s := replace (literal (js "&lt;") flags_g eq_refl) (tpl (js "<")) s in
  let s := replace (literal (js "&gt;") flags_g eq_refl) (tpl (js ">")) s in
  let s := replace (literal (js "&quot;") flags_g eq_refl) (tpl DQ) s in
  let s := replace (literal (js "&#39;") flags_g eq_refl) (tpl (js "'")) s in
  let s := replace (literal (js "&nbsp;") flags_g eq_refl) (tpl (js " ")) s in
  let s := replace (literal (js "\s+") flags_g eq_refl) (tpl (js " ")) s in
  trim s.

(** Pattern 1: <a class="result__a" href="...">Title</a> *)
Definition resultLinkRegex : regexp :=
  literal (js "<a[^>]*class=" ++ DQ ++ js "[^" ++ DQ ++ js "]*result__a[^" ++ DQ
           ++ js "]*" ++ DQ ++ js "[^>]*href=" ++ DQ ++ js "([^" ++ DQ ++ js "]+)"
           ++ DQ ++ js "[^>]*>(.*?)<\/a>") flags_gi eq_refl.

(** Pattern 2: data-testid="result-title-a" href="..." *)
Definition resultLinkRegex2 : regexp :=
  literal (js "<a[^>]*data-testid=" ++ DQ ++ js "result-title-a" ++ DQ
           ++ js "[^>]*href=" ++ DQ ++ js "([^" ++ DQ ++ js "]+)" ++ DQ
           ++ js "[^>]*>(.*?)<\/a>") flags_gi eq_refl.

(** Snippet patterns *)
Definition snippetRegex : regexp :=
  literal (js "<a[^>]*class=" ++ DQ ++ js "[^" ++ DQ ++ js "]*result__snippet[^"
           ++ DQ ++ js "]*" ++ DQ ++ js "[^>]*>(.*?)<\/a>") flags_gis eq_refl.

Definition snippetRegex2 : regexp :=
  literal (js "<span[^>]*data-testid=" ++ DQ ++ js "result-snippet" ++ DQ
           ++ js "[^>]*>(.*?)<\/span>") flags_gis eq_refl.

(** DDG uses redirect URLs - extract the actual URL.  None is the URIError
    of decodeURIComponent. *)
Definition actual_url (url : jsstring) : option jsstring :=
  if includes url (js "uddg=") then
    match search (literal (js "uddg=([^&]+)") flags_none eq_refl) url with
    | Some (_, uddgMatch, _) => URI.decodeURIComponent (grp 1 uddgMatch)
    | None => Some url
    end
  else Some url.

(** Skip ad URLs and internal DDG links *)
Definition organic (url title : jsstring) : bool :=
  negb (WebRead.is_empty url) && negb (startsWith url (js "/"))
  && negb (includes url (js "duckduckgo.com")) && negb (WebRead.is_empty title).

(** The first [while] loop: [html] is the text from [lastIndex] on.  Each
    round costs one unit of [fuel]; None is a loop that has not ended
    within it. *)
Fixpoint link_loop (P : platform) (usedRegex : regexp) (maxResults : number)
    (fuel : nat) (html : jsstring) (urlTitles : list (jsstring * jsstring))
    : option (completion (list (jsstring * jsstring))) :=
  match fuel with
  | 0 => None
  | S fuel' =>
      match search usedRegex html with
      | None => Some (Normal urlTitles)
      | Some (_, mt, rest) =>
          if length_lt (List.length urlTitles) maxResults then
            let title := trim (stripTags (grp 2 mt)) in
            match actual_url (grp 1 mt) with
            | None =>
                Some (Throw {| name := js "URIError"; message := uri_error P |})
            | Some url =>
                link_loop P usedRegex maxResults fuel' rest
                  (if organic url title then urlTitles ++ [(url, title)]
                   else urlTitles)
            end
          else Some (Normal urlTitles)
      end
  end.

(** The second [while] loop. *)
Fixpoint snippet_loop (usedSnippetRegex : regexp) (maxResults : number)
    (fuel : nat) (html : jsstring) (snippets : list jsstring)
    : option (list jsstring) :=
  match fuel with
  | 0 => None
  | S fuel' =>
      match search usedSnippetRegex html with
      | None => Some snippets
      | Some (_, mt, rest) =>
          if length_lt (List.length snippets) maxResults then
            snippet_loop usedSnippetRegex maxResults fuel' rest
              (snippets ++ [trim (stripTags (grp 1 mt))])
          else Some snippets
      end
  end.

(** The closing [for] loop: [i] runs over [urlTitles]. *)
Fixpoint combine_loop (maxResults : number) (snippets : list jsstring)
    (rest : list (jsstring * jsstring)) (i : nat)
    (results : list WebSearchResult) : list WebSearchResult :=
  match rest with
  | [] => results
  | (u, t) :: rest' =>
      if length_lt (List.length results) maxResults then
        combine_loop maxResults snippets rest' (S i)
          (results ++ [{| url := u; title := t;
                          snippet := nth i snippets [] |}])
      else results
  end.

(** Parse DuckDuckGo HTML search results *)
Definition parseDDGResults_fuel (P : platform) (fuel : nat) (html : jsstring)
    (maxResults : number) : option (completion (list WebSearchResult)) :=
  (* Extract URLs and titles *)
  let usedRegex :=
    if test resultLinkRegex html then resultLinkRegex else resultLinkRegex2 in
  match link_loop P usedRegex maxResults fuel html [] with
  | None => None
  | Some (Throw e) => Some (Throw e)
  | Some (Normal urlTitles) =>
      (* Extract snippets *)
      let usedSnippetRegex :=
        if test snippetRegex html then snippetRegex else snippetRegex2 in
      match snippet_loop usedSnippetRegex maxResults fuel html [] with
      | None => None
      | Some snippets =>
          (* Combine into results *)
          Some (Normal (combine_loop maxResults snippets urlTitles 0 []))
      end
  end.

Definition parseDDGResults (P : platform) (html : jsstring)
    (maxResults : number) : option (completion (list WebSearchResult)) :=
  parseDDGResults_fuel P (S (List.length html)) html maxResults.

(** The markdown list of the results, numbered from [i + 1]. *)
Fixpoint format_results (results : list WebSearchResult) (i : nat) : jsstring :=
  match results with
  | [] => []
  | r :: rest =>
      js "### " ++ dec (N.of_nat (i + 1)) ++ js ". [" ++ title r ++ js "]("
      ++ url r ++ js ")" ++ NL
      ++ (if WebRead.is_empty (snippet r) then [] else snippet r ++ NL)
      ++ NL ++ format_results rest (S i)
  end.

Definition ToolResult := WebRead.ToolResult WebSearchToolDetails.

Definition no_details (query : jsstring) : WebSearchToolDetails :=
  {| d_query := query; resultCount := 0; d_truncated := false |}.

(** The body of the [try] block of [execute].  None is a run whose parsing
    loops have not ended. *)
Definition execute_try (P : platform) (query : jsstring) (limit : number)
    : world -> option (completion ToolResult * world) :=
  fun w =>
    (* Build DuckDuckGo HTML search URL *)
    match URI.encodeURIComponent query with
    | None => Some (Throw {| name := js "URIError"; message := uri_error P |}, w)
    | Some q =>
        let searchUrl := js "https://html.duckduckgo.com/html/?q=" ++ q in
        match fetchWithRetry P searchUrl 3 w with
        | (Throw e, w1) => Some (Throw e, w1)
        | (Normal response, w1) =>
            if negb (ok response) then
              Some (Throw (mkError (js "Search failed: " ++ dec (status response)
                                    ++ js " " ++ statusText response)), w1)
            else
              match body response with
              | Throw e => Some (Throw e, w1)
              | Normal html =>
                  match parseDDGResults P html limit with
                  | None => None
                  | Some (Throw e) => Some (Throw e, w1)
                  | Some (Normal []) =>
                      Some (Normal
                              {| WebRead.r_text :=
                                   js "No results found for " ++ DQ ++ query ++ DQ;
                                 WebRead.r_details := no_details query;
                                 WebRead.isError := false |}, w1)
                  | Some (Normal results) =>
                      (* Format results as markdown *)
                      let output :=
                        js "## Search Results for " ++ DQ ++ query ++ DQ
                        ++ NL ++ NL ++ format_results results 0 in
                      Some (Normal
                              {| WebRead.r_text := output;
                                 WebRead.r_details :=
                                   {| d_query := query;
                                      resultCount := List.length results;
                                      d_truncated := false |};
                                 WebRead.isError := false |}, w1)
                  end
              end
        end
    end.

(** [execute]: the limit, the [try] block and the [catch] around it.  As
    in the page reader the handler reads [error.name] first, which throws
    on null and on undefined. *)
Definition execute (P : platform) (query : jsstring) (max_results : option number)
    : world -> option (completion ToolResult * world) :=
  fun w =>
    let limit :=
      Math_min (match max_results with Some n => n | None => Finite 10 end)
               (Finite 20) in
    match execute_try P query limit w with
    | None => None
    | Some (Normal r, w') => Some (Normal r, w')
    | Some (Throw Nullish, w') =>
        Some (Throw (Obj {| name := js "TypeError"; message := type_error P |}), w')
    | Some (Throw error, w') =>
        if named error (js "AbortError") then
          Some (Normal {| WebRead.r_text := js "Search cancelled";
                          WebRead.r_details := no_details query;
                          WebRead.isError := false |}, w')
        else
          Some (Normal {| WebRead.r_text := js "Search error: " ++ message_text error;
                          WebRead.r_details := no_details query;
                          WebRead.isError := true |}, w')
    end.

End WebSearch.

(* ================================================================== *)
(** * A sample host *)
(* ================================================================== *)

Module Sample.

(** A network that answers the k-th call with the k-th entry of a script
    and is down afterwards. *)
Definition scripted (script : list (completion Response))
    : nat -> jsstring -> completion Response :=
  fun k _ => nth k script (Throw {| name := js "TypeError"; message := js "fetch failed" |}).

Definition response (code : N) (type : string) (text : jsstring) : Response :=
  {| status := code; statusText := []; contentType := Some (js type);
     body := Normal text |}.

Definition answer (code : N) (type : string) (text : jsstring)
    : completion Response :=
  Normal (response code type text).

(** The scheme of a URL text: the letters before the first colon, in lower
    case, with the colon. *)
Fixpoint scheme (url : jsstring) : option jsstring :=
  match url with
  | [] => None
  | c :: rest =>
      if isc c ":" then Some [c]
      else if is_word c then option_map (cons (lower c)) (scheme rest)
      else None
  end.

Definition host (script : list (completion Response)) : platform :=
  {| net := scripted script;
     random := fun _ => (1 # 2)%Q;
     newURL := scheme;
     foreign_regexp := fun _ => Normal (fun _ => None);
     syntax_error := fun source => js "Invalid regular expression: /" ++ source ++ js "/";
     uri_error := js "URI malformed";
     type_error := js "Cannot read properties of null (reading 'name')";
     formatSize := fun n => dec (N.of_nat n) ++ js "B";
     DEFAULT_MAX_BYTES := 50 * 1024;
     DEFAULT_MAX_LINES := 2000 |}.

(** Fifteen result anchors. *)
Definition items : list (jsstring * jsstring) :=
  map (fun i => (js "https://example.com/page" ++ dec (N.of_nat i),
                 js "Result number " ++ dec (N.of_nat i)))
      (seq 1 15).

End Sample.


(* ================================================================== *)
(** * Vocabulary of the statements *)
(* ================================================================== *)

(** An outcome after which the loop goes on. *)
Definition retryable (o : completion Response) : Prop :=
  match o with
  | Normal r => status r = 429%N
  | Throw _ => True
  end.

(** The bytes a list of lines takes when line [i] is its first. *)
Fixpoint cost (i : nat) (ls : list jsstring) : nat :=
  match ls with
  | [] => 0
  | l :: r => Truncate.byteLength l + (if i =? 0 then 0 else 1) + cost (S i) r
  end.

(** A pattern whose first step is one literal character. *)
Definition starts_with_char (re : regexp) : bool :=
  match tree re with
  | RSeq (RChar _) _ => true
  | _ => false
  end.

(** A matcher whose successful runs come from its continuation, called at
    a position that is not before the start. *)
Definition shrinking (atom : jsstring -> captures -> cont -> result) : Prop :=
  forall s c d res,
    atom s c d = Some res ->
    exists s' c', List.length s' <= List.length s /\ d s' c' = Some res.

(** What extractBySelector finds for a selector whose patterns compile:
    the matches of the first of its patterns that matches at all. *)
Definition candidate (html selector : jsstring) : jsstring :=
  WebRead.first_matches html
    (map (fun source => match_all (compiled source flags_gi))
         (WebRead.selector_patterns selector)).

(** The inner part of the first <body ...> ... </body>, if there is one. *)
Definition body_region (html : jsstring) : option jsstring :=
  match search (literal (js "<body[^>]*>([\s\S]*?)<\/body>") flags_i eq_refl) html with
  | Some (_, bodyMatch, _) => Some (grp 1 bodyMatch)
  | None => None
  end.

(** ** Quantified classes as plain recursions

    What RepeatMatcher does for [X*], [X+] and [X*?] when [X] consumes
    exactly one character accepted by [p]. *)

Fixpoint greedy_class (p : char16 -> bool) (k : cont) (s : jsstring)
    (c : captures) : result :=
  match s with
  | x :: s' => if p x then orelse (greedy_class p k s' c) (k s c) else k s c
  | [] => k s c
  end.

Definition plus_class (p : char16 -> bool) (k : cont) (s : jsstring)
    (c : captures) : result :=
  match s with
  | x :: s' => if p x then greedy_class p k s' c else None
  | [] => None
  end.

Fixpoint lazy_class (p : char16 -> bool) (k : cont) (s : jsstring)
    (c : captures) : result :=
  orelse (k s c)
    match s with
    | x :: s' => if p x then lazy_class p k s' c else None
    | [] => None
    end.

(** The matcher of a step that consumes one character accepted by [p]. *)
Definition one (p : char16 -> bool) : jsstring -> captures -> cont -> result :=
  fun s c k =>
    match s with
    | x :: s' => if p x then k s' c else None
    | [] => None
    end.

(** The longest prefix of accepted characters, and what follows it. *)
Fixpoint span_of (p : char16 -> bool) (s : jsstring) : jsstring :=
  match s with
  | x :: s' => if p x then x :: span_of p s' else []
  | [] => []
  end.

Fixpoint after_span (p : char16 -> bool) (s : jsstring) : jsstring :=
  match s with
  | x :: s' => if p x then after_span p s' else s
  | [] => []
  end.

(** ** Tidy text *)

(** Every whitespace character is a space and is not followed by another
    whitespace character. *)
Fixpoint spaced (s : jsstring) : Prop :=
  match s with
  | [] => True
  | a :: t =>
      (is_whitespace a = true ->
       a = 32%N /\ match t with b :: _ => is_whitespace b = false | [] => True end)
      /\ spaced t
  end.

(** Collapsed and trimmed. *)
Definition tidy (s : jsstring) : Prop :=
  spaced s
  /\ (forall c, hd_error s = Some c -> is_whitespace c = false)
  /\ (forall c, hd_error (rev s) = Some c -> is_whitespace c = false).

(** The last step but one of the search parser's stripTags. *)
Definition collapse (s : jsstring) : jsstring :=
  replace (literal (js "\s+") flags_g eq_refl) (tpl (js " ")) s.

(** The first step of both stripTags functions. *)
Definition remove_tags (s : jsstring) : jsstring :=
  replace (literal (js "<[^>]+>") flags_g eq_refl) (tpl []) s.

(** What follows the first [>] of a string. *)
Fixpoint after_gt (s : jsstring) : option jsstring :=
  match s with
  | [] => None
  | x :: t => if (62 =? x)%N then Some t else after_gt t
  end.

(** The six entity steps of the search parser's stripTags. *)
Definition search_entities (s : jsstring) : jsstring :=
  let s := replace (literal (js "&amp;") flags_g eq_refl) (tpl (js "&")) s in
  let s := replace (literal (js "&lt;") flags_g eq_refl) (tpl (js "<")) s in
  let s := replace (literal (js "&gt;") flags_g eq_refl) (tpl (js ">")) s in
  let s := replace (literal (js "&quot;") flags_g eq_refl) (tpl DQ) s in
  let s := replace (literal (js "&#39;") flags_g eq_refl) (tpl (js "'")) s in
  replace (literal (js "&nbsp;") flags_g eq_refl) (tpl (js " ")) s.

(** A result anchor of the first markup variant. *)
Definition anchor (ut : jsstring * jsstring) : jsstring :=
  js "<a class=" ++ DQ ++ js "result__a" ++ DQ ++ js " href=" ++ DQ ++ fst ut
  ++ DQ ++ js ">" ++ snd ut ++ js "</a>".

(** A results page: the anchors one after the other. *)
Definition results_page (items : list (jsstring * jsstring)) : jsstring :=
  concat (map anchor items).

(** ** Pieces of a pattern and of a run *)

(** A run of literal characters, then [r]. *)
Definition chars (l : jsstring) (r : regex) : regex :=
  fold_right (fun a acc => RSeq (RChar a) acc) r l.

(** Does [s] start with [l], up to canonical form? *)
Fixpoint prefix_canon (fl : flags) (l s : jsstring) : bool :=
  match l, s with
  | [], _ => true
  | a :: l', x :: s' => N.eqb (canon fl a) (canon fl x) && prefix_canon fl l' s'
  | _ :: _, [] => false
  end.

(** The continuation [k] fails at every position inside [mid], when [t]
    follows. *)
Fixpoint fails_within (k : cont) (c : captures) (mid t : jsstring) : Prop :=
  match mid with
  | [] => True
  | _ :: mid' => k (mid ++ t) c = None /\ fails_within k c mid' t
  end.

(** A code unit that is no ASCII letter: its canonical form is itself and
    no other character shares it. *)
Definition nonletter (k : char16) : bool :=
  ((k <? 65) || ((90 <? k) && (k <? 97)) || (122 <? k))%N.

(** ** The selector [#main] *)

(** The first pattern that extractBySelector builds for [#main]. *)
Definition main_id_pattern : regexp :=
  literal (js "<[^>]*id=" ++ DQ ++ js "main" ++ DQ ++ js "[^>]*>([\s\S]*?)<\/[^>]+>")
          flags_gi eq_refl.

(** An element that carries the id: its opening tag with [before] in front
    of the attribute, its content [inner], and the closing tag of [name]. *)
Definition main_element (before inner name : jsstring) : jsstring :=
  js "<" ++ before ++ js "id=" ++ DQ ++ js "main" ++ DQ ++ js ">" ++ inner
  ++ js "</" ++ name ++ js ">".

(** ** Well-formed result anchors *)

(** A destination that needs no decoding and passes the filter: it has no
    double quote and no [>], does not end with [=], carries no uddg
    parameter, is not relative and does not name the search provider. *)
Definition plain_url (u : jsstring) : Prop :=
  u <> [] /\ ~ In 34%N u /\ ~ In 62%N u /\ last u 0%N <> 61%N
  /\ includes u (js "uddg=") = false
  /\ startsWith u (js "/") = false
  /\ includes u (js "duckduckgo.com") = false.

(** A title that is plain text already: tidy, without [<] or [&]. *)
Definition plain_title (t : jsstring) : Prop :=
  t <> [] /\ tidy t /\ ~ In 60%N t /\ ~ In 38%N t.

Definition well_formed (ut : jsstring * jsstring) : Prop :=
  plain_url (fst ut) /\ plain_title (snd ut).

(** The url and the title of a result. *)
Definition url_title (r : WebSearch.WebSearchResult) : jsstring * jsstring :=
  (WebSearch.url r, WebSearch.title r).

(** Decision procedures for the predicates above. *)
Definition mem (c : char16) (s : jsstring) : bool := existsb (N.eqb c) s.

Fixpoint spaced_b (s : jsstring) : bool :=
  match s with
  | [] => true
  | a :: t =>
      (negb (is_whitespace a)
       || (N.eqb a 32%N
           && match t with b :: _ => negb (is_whitespace b) | [] => true end))
      && spaced_b t
  end.

Definition starts_clean (s : jsstring) : bool :=
  match s with c :: _ => negb (is_whitespace c) | [] => true end.

Definition tidy_b (s : jsstring) : bool :=
  spaced_b s && starts_clean s && starts_clean (rev s).

Definition well_formed_b (ut : jsstring * jsstring) : bool :=
  let (u, t) := ut in
  negb (WebRead.is_empty u) && negb (mem 34%N u) && negb (mem 62%N u)
  && negb (N.eqb (last u 0%N) 61%N) && negb (includes u (js "uddg="))
  && negb (startsWith u (js "/"))
  && negb (includes u (js "duckduckgo.com"))
  && negb (WebRead.is_empty t) && tidy_b t && negb (mem 60%N t)
  && negb (mem 38%N t).

(** ** Traces *)

(** An event that touches no address other than [url]. *)
Definition only_url (url : jsstring) (e : event) : Prop :=
  match e with
  | Fetched u => u = url
  | Waited _ => True
  end.

(** A computation that leaves the world as it found it. *)
Definition pure {A : Type} (c : M A) : Prop := forall w, snd (c w) = w.

(** The operation returns a result with this text and this error flag. *)
Definition answers {D : Type} (c : completion (WebRead.ToolResult D))
    (text : jsstring) (flag : bool) : Prop :=
  exists r, c = Normal r /\ WebRead.r_text r = text /\ WebRead.isError r = flag.

(** The address the search operation calls for an encoded query. *)
Definition search_address (q : jsstring) : jsstring :=
  js "https://html.duckduckgo.com/html/?q=" ++ q.

(** ** URI coding *)

(** A string whose code units all fit in 16 bits, as every string of the
    language does. *)
Definition utf16_string (s : jsstring) : Prop :=
  Forall (fun c => (c < 65536)%N) s.

(** A character that an encoded URI component may hold: an unreserved one
    or the percent sign. *)
Definition uri_safe (c : char16) : bool := URI.unescaped c || (c =? 37)%N.

(** ** Result anchors as the page writes them *)

(** An anchor that the first link pattern reads as one result, whatever
    its destination decodes to: the destination is not empty, has no double
    quote and does not end with [=]; the text has no [<] and no line
    terminator. *)
Definition readable (ut : jsstring * jsstring) : Prop :=
  fst ut <> [] /\ ~ In 34%N (fst ut) /\ last (fst ut) 0%N <> 61%N
  /\ ~ In 60%N (snd ut)
  /\ forall x, In x (snd ut) -> is_line_terminator x = false.

(** ** The closing steps of the converters *)

(** A space or a tab. *)
Definition blank (c : char16) : bool := ((c =? 32) || (c =? 9))%N.

Definition newline (c : char16) : bool := (10 =? c)%N.

(** The last steps but one of htmlToText and htmlToMarkdown. *)
Definition squeeze_blanks (s : jsstring) : jsstring :=
  replace (literal (js "[ \t]+") flags_g eq_refl) (tpl (js " ")) s.

Definition squeeze_newlines (s : jsstring) : jsstring :=
  replace (literal (js "\n{3,}") flags_g eq_refl) (tpl (NL ++ NL)) s.

(** Every character accepted by [p] is the character [r] and is not
    followed by another one that [p] accepts. *)
Fixpoint single_runs (p : char16 -> bool) (r : char16) (s : jsstring) : Prop :=
  match s with
  | [] => True
  | a :: t =>
      (p a = true ->
       a = r /\ match t with b :: _ => p b = false | [] => True end)
      /\ single_runs p r t
  end.

(** What the converters promise about the whitespace of their output: no
    tab, no two spaces in a row, no three newlines in a row, and nothing to
    trim at either end. *)
Definition clean_whitespace (s : jsstring) : Prop :=
  ~ In 9%N s
  /\ includes s (js "  ") = false
  /\ includes s (NL ++ NL ++ NL) = false
  /\ trim s = s.

(** ** Elements of a page *)



(** An article element, with [attrs] after the tag name and [inner]
    between the tags. *)
Definition article_element (attrs inner : jsstring) : jsstring :=
  js "<article" ++ attrs ++ js ">" ++ inner ++ js "</article>".

(** The pattern that extractBySelector builds for the selector article. *)
Definition article_pattern : regexp :=
  compiled (js "<article[^>]*>([\s\S]*?)<\/article>") flags_gi.

(** ** Result anchors as a results page writes them *)

(** The entities that the search parser decodes, in the order of its
    steps. *)
Inductive entity := Amp | Lt | Gt | Quot | Apos | Nbsp.

Definition entity_markup (e : entity) : jsstring :=
  match e with
  | Amp => js "&amp;"
  | Lt => js "&lt;"
  | Gt => js "&gt;"
  | Quot => js "&quot;"
  | Apos => js "&#39;"
  | Nbsp => js "&nbsp;"
  end.

Definition entity_char (e : entity) : char16 :=
  match e with
  | Amp => 38
  | Lt => 60
  | Gt => 62
  | Quot => 34
  | Apos => 39
  | Nbsp => 32
  end%N.


(** A piece of the markup between the tags of a result anchor. *)
Inductive piece :=
| Text (s : jsstring)      (* characters that stand for themselves *)
| Tag (s : jsstring)       (* a tag, written <s> *)
| Ent (e : entity).        (* a character written as an entity *)

Definition piece_markup (p : piece) : jsstring :=
  match p with
  | Text s => s
  | Tag s => js "<" ++ s ++ js ">"
  | Ent e => entity_markup e
  end.

Definition piece_text (p : piece) : jsstring :=
  match p with
  | Text s => s
  | Tag _ => []
  | Ent e => [entity_char e]
  end.

(** What the page holds for the pieces, and the text they stand for. *)
Definition markup (ps : list piece) : jsstring := concat (map piece_markup ps).
Definition text_of (ps : list piece) : jsstring := concat (map piece_text ps).





(** How the page writes the destination of a result: as it is, or behind
    the redirector of the provider, percent-encoded in the uddg parameter
    and followed by [tail]. *)
Inductive address :=
| Direct (u : jsstring)
| Redirect (target tail : jsstring).

Definition encoded (s : jsstring) : jsstring :=
  match URI.encodeURIComponent s with
  | Some e => e
  | None => []
  end.

Definition href (a : address) : jsstring :=
  match a with
  | Direct u => u
  | Redirect target tail => js "//duckduckgo.com/l/?uddg=" ++ encoded target ++ tail
  end.

Definition destination (a : address) : jsstring :=
  match a with
  | Direct u => u
  | Redirect target _ => target
  end.





(** A result as the page shows it: the markup in front of its anchor, its
    destination and its title. *)
Record hit := { lead : jsstring; addr : address; label : list piece }.

Definition hit_anchor (h : hit) : jsstring :=
  anchor (href (addr h), markup (label h)).

(** A results page: the hits one after the other, each with the markup
    in front of it, and the markup after the last one. *)
Definition hits_page (hits : list hit) (trailer : jsstring) : jsstring :=
  concat (map (fun h => lead h ++ hit_anchor h) hits) ++ trailer.



Definition kept (h : hit) : bool :=
  negb (startsWith (destination (addr h)) (js "/"))
  && negb (includes (destination (addr h)) (js "duckduckgo.com"))
  && negb (WebRead.is_empty (text_of (label h))).




(** The closing tag of the anchor, as the pattern has it. *)
Definition closing : jsstring := [60; 47; 97; 62]%N.






(** A page of results as the provider writes them: each anchor inside a
    heading inside a block, destinations behind the redirector and in the
    open, titles with tags and entities, and among the results a sponsored
    link with a relative destination, a link back to the provider and an
    anchor whose title is markup only. *)
Definition sample_lead : jsstring :=
  js "</h2></div>" ++ NL ++ js "<div class=" ++ DQ ++ js "result" ++ DQ
  ++ js "><h2 class=" ++ DQ ++ js "result__title" ++ DQ ++ js ">".

Definition sample_trailer : jsstring := js "</h2></div></body></html>".

Definition sample_hits : list hit :=
  let bold := fun s => [Tag (js "b"); Text s; Tag (js "/b")] in
  let page := fun n =>
    {| lead := sample_lead;
       addr := Redirect (js "https://example.com/page?n=" ++ dec n) (js "&rut=0a1b");
       label := Text (js "Result ") :: bold (dec n) |} in
  [ {| lead := js "<html><body><div><h2>";
       addr := Redirect (js "https://example.com") [];
       label := [Text (js "Example "); Tag (js "b"); Text (js "Domain"); Tag (js "/b")] |};
    {| lead := sample_lead;
       addr := Direct (js "/y.js?ad_provider=x"); label := [Text (js "Sponsored")] |};
    {| lead := sample_lead;
       addr := Direct (js "https://example.org/a?b=");
       label := [Text (js "Q"); Ent Amp; Text (js "A: 1 "); Ent Lt; Text (js " 2")] |};
    {| lead := sample_lead;
       addr := Direct (js "https://duckduckgo.com/about"); label := [Text (js "About")] |};
    {| lead := sample_lead;
       addr := Redirect (js "https://example.net/a b?x=1&y=" ++ [233%N]) (js "&rut=9f");
       label := [Tag (js "span class=" ++ DQ ++ js "x" ++ DQ); Text (js "Caf");
                 Text [233%N]; Tag (js "/span")] |};
    {| lead := sample_lead;
       addr := Direct (js "https://example.org/empty");
       label := [Tag (js "b"); Tag (js "/b")] |} ]
  ++ map page [1; 2; 3; 4; 5; 6; 7; 8; 9; 10; 11; 12]%N.

(* ================================================================== *)
(** * Properties of the resilient fetcher *)
(* ================================================================== *)

Lemma str_eqb_eq (a b : jsstring) : str_eqb a b = true <-> a = b.
Proof.
  revert b; induction a as [|x a IH]; intros [|y b]; simpl; split;
    try congruence; try reflexivity.
  - intros H. apply andb_true_iff in H as [H1 H2].
    apply N.eqb_eq in H1. apply IH in H2. congruence.
  - intros H. injection H as -> ->. rewrite N.eqb_refl. simpl.
    now apply IH.
Qed.

Lemma str_eqb_neq (a b : jsstring) : a <> b -> str_eqb a b = false.
Proof.
  intros H. destruct (str_eqb a b) eqn:E; [|reflexivity].
  apply str_eqb_eq in E. contradiction.
Qed.

Lemma fetches_app (l1 l2 : list event) :
  fetches (l1 ++ l2) = fetches l1 + fetches l2.
Proof. unfold fetches. now rewrite filter_app, length_app. Qed.

Lemma waits_app (l1 l2 : list event) : waits (l1 ++ l2) = waits l1 ++ waits l2.
Proof. unfold waits. apply flat_map_app. Qed.

Lemma fetches_snoc_fetch (l : list event) (u : jsstring) :
  fetches (l ++ [Fetched u]) = S (fetches l).
Proof. rewrite fetches_app. unfold fetches at 2. simpl. lia. Qed.

Lemma fetches_snoc_wait (l : list event) (q : Q) :
  fetches (l ++ [Waited q]) = fetches l.
Proof. rewrite fetches_app. unfold fetches at 2. simpl. lia. Qed.

Lemma retry_loop_first_answer (P : platform) (url : jsstring) (maxRetries : nat) :
  forall k togo attempt lastError w r,
    k < togo ->
    (forall j, j < k -> retryable (net P (calls w + j) url)) ->
    net P (calls w + k) url = Normal r ->
    status r <> 429%N ->
    exists w',
      retry_loop P url maxRetries togo attempt lastError w = (Normal r, w')
      /\ calls w' = calls w + k + 1
      /\ fetches (log w') = fetches (log w) + k + 1.
Proof.
  induction k as [|k IH]; intros togo attempt lastError w r Hk Hbefore Hnet Hst;
    (destruct togo as [|togo]; [lia|]); simpl; unfold fetch.
  - rewrite Nat.add_0_r in Hnet. rewrite Hnet.
    apply N.eqb_neq in Hst. rewrite Hst.
    eexists; split; [reflexivity|]. simpl.
    rewrite fetches_snoc_fetch. split; lia.
  - pose proof (Hbefore 0 ltac:(lia)) as H0. rewrite Nat.add_0_r in H0.
    assert (Hshift : forall w1 lastError', calls w1 = S (calls w) ->
              fetches (log w1) = S (fetches (log w)) ->
              exists w',
                retry_loop P url maxRetries togo (S attempt) lastError' w1
                = (Normal r, w')
                /\ calls w' = calls w + S k + 1
                /\ fetches (log w') = fetches (log w) + S k + 1).
    { intros w1 lastError' Hc1 Hf1.
      destruct (IH togo (S attempt) lastError' w1 r) as (w' & Hrun & Hc & Hf).
      - lia.
      - intros j Hj. rewrite Hc1.
        replace (S (calls w) + j) with (calls w + S j) by lia.
        apply Hbefore. lia.
      - rewrite Hc1.
        replace (S (calls w) + k) with (calls w + S k) by lia. exact Hnet.
      - exact Hst.
      - exists w'. split; [exact Hrun|]. split; lia. }
    destruct (net P (calls w) url) as [r0|e] eqn:E0; simpl in H0.
    + apply N.eqb_eq in H0. rewrite H0.
      unfold bind, Math_random, sleep; simpl.
      apply Hshift; simpl; [reflexivity|].
      now rewrite fetches_snoc_wait, fetches_snoc_fetch.
    + unfold bind.
      destruct (attempt <? maxRetries - 1); unfold sleep, ret; simpl;
        apply Hshift; simpl; try reflexivity;
        now rewrite ?fetches_snoc_wait, fetches_snoc_fetch.
Qed.

(** C9.  fetchWithRetry hands back the first response whose status is not
    429, as it is, and calls the network no further: when the first [k]
    outcomes are 429 responses or thrown errors and outcome [k], within the
    budget, is a response with any other status (500 as well as 200), the
    result is that response and exactly [k + 1] calls were made. *)
Theorem fetchWithRetry_returns_first_non_429
    (P : platform) (url : jsstring) (maxRetries k : nat) (w : world) (r : Response) :
  k < maxRetries ->
  (forall j, j < k -> retryable (net P (calls w + j) url)) ->
  net P (calls w + k) url = Normal r ->
  status r <> 429%N ->
  exists w',
    fetchWithRetry P url maxRetries w = (Normal r, w')
    /\ calls w' = calls w + k + 1
    /\ fetches (log w') = fetches (log w) + k + 1.
Proof.
  intros. unfold fetchWithRetry. now apply retry_loop_first_answer.
Qed.

Lemma fetchWithRetry_returns_first_non_429_witness :
  exists w',
    fetchWithRetry
      (Sample.host [Throw (mkError (js "reset")); Sample.answer 429 "text/html" [];
                    Sample.answer 500 "text/html" (js "oops")])
      (js "http://example.com/") 3 world0
    = (Sample.answer 500 "text/html" (js "oops"), w')
    /\ calls w' = 0 + 2 + 1 /\ fetches (log w') = 0 + 2 + 1.
Proof.
  apply (@fetchWithRetry_returns_first_non_429
           (Sample.host [Throw (mkError (js "reset"));
                         Sample.answer 429 "text/html" [];
                         Sample.answer 500 "text/html" (js "oops")])
           (js "http://example.com/") 3 2 world0
           (Sample.response 500 "text/html" (js "oops"))).
  - lia.
  - intros [|[|j]] Hj; simpl; [exact I | reflexivity | lia].
  - reflexivity.
  - discriminate.
Defined.




(* ================================================================== *)
(** * Properties of the converters *)
(* ================================================================== *)

(** C6.  The fragment <p>Hello <b>world</b></p> becomes "Hello **world**"
    as markdown and "Hello world" as text. *)
Theorem convert_hello_world :
  WebRead.htmlToMarkdown (js "<p>Hello <b>world</b></p>") = js "Hello **world**"
  /\ WebRead.htmlToText (js "<p>Hello <b>world</b></p>") = js "Hello world".
Proof. split; vm_compute; reflexivity. Qed.

(* ================================================================== *)
(** * Properties of the page-read operation *)
(* ================================================================== *)

(** C7.  A URL whose scheme is neither http nor https makes the page-read
    operation fail at once with the unsupported-protocol error: it returns
    a result with that text and the error flag; the world is left as it
    was, so no network call has been made. *)
Theorem execute_unsupported_protocol
    (P : platform) (url : jsstring) (format : option WebRead.Format)
    (selector : option jsstring) (w : world) (protocol : jsstring) :
  newURL P url = Some protocol ->
  protocol <> js "http:" ->
  protocol <> js "https:" ->
  let out := WebRead.execute P url format selector w in
  exists r,
    fst out = Normal r
    /\ WebRead.r_text r
       = js "Failed to read URL: " ++ js "Unsupported protocol: " ++ protocol
         ++ js ". Only http and https are allowed."
    /\ WebRead.isError r = true
    /\ snd out = w
    /\ fetches (log (snd out)) = fetches (log w).
Proof.
  intros Hurl Hhttp Hhttps out. subst out.
  unfold WebRead.execute, WebRead.execute_try. rewrite Hurl.
  rewrite (str_eqb_neq Hhttp), (str_eqb_neq Hhttps). simpl.
  eexists. repeat split.
Qed.

Lemma execute_unsupported_protocol_witness :
  exists r,
    fst (WebRead.execute (Sample.host []) (js "ftp://example.com/file.txt")
           None None world0) = Normal r
    /\ WebRead.r_text r
       = js "Failed to read URL: Unsupported protocol: ftp:. Only http and https are allowed."
    /\ snd (WebRead.execute (Sample.host []) (js "ftp://example.com/file.txt")
              None None world0) = world0.
Proof.
  destruct (@execute_unsupported_protocol (Sample.host [])
              (js "ftp://example.com/file.txt") None None world0 (js "ftp:"))
    as (r & Hr & Ht & _ & Hw & _).
  - reflexivity.
  - discriminate.
  - discriminate.
  - exists r. split; [exact Hr | split; [exact Ht | exact Hw]].
Defined.

(* ================================================================== *)
(** * Properties of the truncator *)
(* ================================================================== *)

Section TruncateFacts.

Import Truncate.

Lemma split_on_nonempty (sep : char16) (s : jsstring) : split_on sep s <> [].
Proof.
  destruct s as [|c s]; simpl; [discriminate|].
  destruct (N.eqb c sep); [discriminate|].
  destruct (split_on sep s); discriminate.
Qed.

Lemma join_cons_head (sep : jsstring) (c : char16) (l : jsstring)
    (ls : list jsstring) :
  join sep ((c :: l) :: ls) = c :: join sep (l :: ls).
Proof. destruct ls; reflexivity. Qed.

Lemma join_split (s : jsstring) : join NL (split_on 10%N s) = s.
Proof.
  induction s as [|c s IH]; simpl; [reflexivity|].
  destruct (N.eqb c 10) eqn:E.
  - apply N.eqb_eq in E. subst c.
    destruct (split_on 10%N s) as [|l ls] eqn:Es.
    + now apply split_on_nonempty in Es.
    + change (join NL ([] :: l :: ls)) with (10%N :: join NL (l :: ls)).
      now rewrite IH.
  - destruct (split_on 10%N s) as [|l ls] eqn:Es.
    + now apply split_on_nonempty in Es.
    + rewrite join_cons_head. now rewrite IH.
Qed.

Lemma utf8_from_newline (a t : jsstring) (b : bool) :
  utf8_from b (a ++ 10%N :: t) = utf8_from b a + 1 + utf8_from false t.
Proof.
  revert b. induction a as [|c a IH]; intros b; simpl.
  - reflexivity.
  - rewrite IH. lia.
Qed.

Lemma cost_succ (i j : nat) (ls : list jsstring) :
  cost (S i) ls = cost (S j) ls.
Proof.
  revert i j. induction ls as [|l r IH]; intros i j; simpl; [reflexivity|].
  now rewrite (IH (S i) (S j)).
Qed.

Lemma byteLength_join (l : jsstring) (r : list jsstring) :
  byteLength (join NL (l :: r)) = byteLength l + cost 1 r.
Proof.
  revert l. induction r as [|l2 r IH]; intros l.
  - simpl. lia.
  - change (join NL (l :: l2 :: r)) with (l ++ 10%N :: join NL (l2 :: r)).
    unfold byteLength at 1. rewrite utf8_from_newline.
    fold (byteLength l). fold (byteLength (join NL (l2 :: r))).
    rewrite IH. simpl. rewrite (cost_succ 1 0). lia.
Qed.

Lemma byteLength_join_cost (ls : list jsstring) :
  byteLength (join NL ls) = cost 0 ls.
Proof.
  destruct ls as [|l r]; [reflexivity|].
  rewrite byteLength_join. simpl. lia.
Qed.

Lemma cost_app (i : nat) (a b : list jsstring) :
  cost i a <= cost i (a ++ b).
Proof.
  revert i. induction a as [|l a IH]; intros i; simpl; [lia|].
  specialize (IH (S i)). lia.
Qed.

Variables maxBytes maxLines : nat.

Lemma keep_lines_prefix (lines : list jsstring) (i bytes : nat) :
  exists rest, lines = keep_lines maxBytes maxLines lines i bytes ++ rest.
Proof.
  revert i bytes. induction lines as [|l r IH]; intros i bytes; simpl.
  - now exists [].
  - destruct (i <? maxLines); [|now exists (l :: r)].
    destruct (_ <=? maxBytes); [|now exists (l :: r)].
    destruct (IH (S i) (bytes + (byteLength l + (if i =? 0 then 0 else 1))))
      as [rest Hrest].
    exists rest. simpl. now rewrite <- Hrest.
Qed.

Lemma keep_lines_count (lines : list jsstring) (i bytes : nat) :
  i <= maxLines ->
  i + List.length (keep_lines maxBytes maxLines lines i bytes) <= maxLines.
Proof.
  revert i bytes. induction lines as [|l r IH]; intros i bytes Hi; simpl.
  - lia.
  - destruct (i <? maxLines) eqn:E; simpl; [|lia].
    apply Nat.ltb_lt in E.
    destruct (_ <=? maxBytes); simpl; [|lia].
    specialize (IH (S i) (bytes + (byteLength l + (if i =? 0 then 0 else 1)))
                  ltac:(lia)).
    lia.
Qed.

Lemma keep_lines_bytes (lines : list jsstring) (i bytes : nat) :
  bytes <= maxBytes ->
  bytes + cost i (keep_lines maxBytes maxLines lines i bytes) <= maxBytes.
Proof.
  revert i bytes. induction lines as [|l r IH]; intros i bytes Hb; simpl.
  - lia.
  - destruct (i <? maxLines); simpl; [|lia].
    destruct (_ <=? maxBytes) eqn:E; simpl; [|lia].
    apply Nat.leb_le in E.
    specialize (IH (S i) _ E). lia.
Qed.

(** C1.  For every text and every pair of caps, the result of
    truncateHead has [outputBytes <= totalBytes] and
    [outputLines <= totalLines], and [truncated] holds exactly when one of
    the two is a strict inequality. *)
Theorem truncateHead_invariant (text : jsstring) :
  let r := truncateHead maxBytes maxLines text in
  outputBytes r <= totalBytes r
  /\ outputLines r <= totalLines r
  /\ (truncated r = true
      <-> outputBytes r < totalBytes r \/ outputLines r < totalLines r).
Proof.
  unfold truncateHead.
  destruct ((List.length (split_on 10%N text) <=? maxLines)
            && (byteLength text <=? maxBytes)) eqn:E; simpl.
  - repeat split; try lia; try discriminate.
  - destruct (keep_lines_prefix (split_on 10%N text) 0 0) as [rest Hrest].
    pose proof (keep_lines_count (split_on 10%N text) 0 (Nat.le_0_l _)) as Hc.
    pose proof (keep_lines_bytes (split_on 10%N text) 0 (Nat.le_0_l maxBytes)) as Hb.
    set (kept := keep_lines maxBytes maxLines (split_on 10%N text) 0 0) in *.
    assert (Hlen : List.length kept <= List.length (split_on 10%N text)).
    { rewrite Hrest. rewrite length_app. lia. }
    assert (Hbytes : byteLength (join NL kept) <= byteLength text).
    { rewrite <- (join_split text). rewrite !byteLength_join_cost.
      rewrite Hrest. apply cost_app. }
    rewrite byteLength_join_cost in *. simpl in Hb, Hc.
    split; [exact Hbytes|]. split; [exact Hlen|].
    split; [intros _|reflexivity].
    apply andb_false_iff in E as [E|E].
    + apply Nat.leb_gt in E. right. lia.
    + apply Nat.leb_gt in E. left. lia.
Qed.

End TruncateFacts.

(* ================================================================== *)
(** * Properties of the matcher *)
(* ================================================================== *)

Section MatcherFacts.

Variable fl : flags.

Lemma orelse_some (a b : result) (res : jsstring * captures) :
  orelse a b = Some res -> a = Some res \/ b = Some res.
Proof. destruct a; simpl; intros H; [left|right]; exact H. Qed.

Lemma rep_shrinks atom gs greedy k :
  shrinking atom ->
  forall fuel min max s c res,
    rep atom gs greedy k fuel min max s c = Some res ->
    exists s' c', List.length s' <= List.length s /\ k s' c' = Some res.
Proof.
  intros Hatom. induction fuel as [|fuel IH]; intros min max s c res H.
  - simpl in H. destruct max as [[|n]|]; eauto.
  - simpl in H.
    assert (Hround :
      atom s (reset_caps gs c)
        (fun s' c' =>
           if (min =? 0) && (List.length s' =? List.length s) then None
           else rep atom gs greedy k fuel (pred min) (option_map pred max) s' c')
      = Some res ->
      exists s' c', List.length s' <= List.length s /\ k s' c' = Some res).
    { intros Hr. apply Hatom in Hr as (s1 & c1 & Hlen & Hd).
      destruct ((min =? 0) && (List.length s1 =? List.length s));
        [discriminate|].
      apply IH in Hd as (s2 & c2 & Hlen2 & Hk).
      exists s2, c2. split; [lia | exact Hk]. }
    destruct max as [[|n]|]; [eauto| |];
      (destruct (negb (min =? 0)); [now apply Hround|]);
      (destruct greedy; apply orelse_some in H as [H|H]; eauto).
Qed.

Lemma backref_rest_length (t s s' : jsstring) :
  backref_rest fl t s = Some s' -> List.length s' <= List.length s.
Proof.
  revert s. induction t as [|x t IH]; intros [|y s]; simpl; intros H;
    try discriminate; try (injection H as <-; simpl; lia).
  destruct (N.eqb _ _); [|discriminate]. apply IH in H. lia.
Qed.

Lemma m_shrinks (r : regex) : shrinking (m fl r).
Proof.
  induction r as [| a | | neg items | a IHa b IHb | a IHa b IHb
                 | greedy min max a IHa | i a IHa | i];
    intros s c k res H; simpl in H.
  - eauto.
  - destruct s as [|x s]; [discriminate|].
    destruct (N.eqb _ _); [|discriminate].
    exists s, c. simpl. split; [lia | exact H].
  - destruct s as [|x s]; [discriminate|].
    destruct (any_match fl x); [|discriminate].
    exists s, c. simpl. split; [lia | exact H].
  - destruct s as [|x s]; [discriminate|].
    destruct (class_match fl neg items x); [|discriminate].
    exists s, c. simpl. split; [lia | exact H].
  - apply IHa in H as (s1 & c1 & L1 & H).
    apply IHb in H as (s2 & c2 & L2 & H).
    exists s2, c2. split; [lia | exact H].
  - apply orelse_some in H as [H|H]; [now apply IHa in H | now apply IHb in H].
  - now apply (rep_shrinks _ _ _ IHa) in H.
  - apply IHa in H as (s1 & c1 & L1 & H). eauto.
  - destruct (get_cap i c) as [t|]; [|eauto].
    destruct (backref_rest fl t s) as [s'|] eqn:E; [|discriminate].
    apply backref_rest_length in E. eauto.
Qed.

End MatcherFacts.

Lemma match_at_length (re : regexp) (s rest : jsstring) (caps : captures) :
  match_at re s = Some (rest, caps) -> List.length rest <= List.length s.
Proof.
  unfold match_at. intros H.
  apply m_shrinks in H as (s' & c' & L & H). unfold accept in H.
  injection H as -> ->. exact L.
Qed.

Lemma match_at_progress (re : regexp) (s rest : jsstring) (caps : captures) :
  starts_with_char re = true ->
  match_at re s = Some (rest, caps) -> List.length rest < List.length s.
Proof.
  unfold starts_with_char, match_at. intros Hre H.
  destruct (tree re) as [| | | | a b | | | |]; try discriminate.
  destruct a; try discriminate.
  simpl in H. destruct s as [|x s]; [discriminate|].
  destruct (N.eqb _ _); [|discriminate].
  apply m_shrinks in H as (s' & c' & L & H). unfold accept in H.
  injection H as -> ->. simpl. lia.
Qed.

Lemma search_progress (re : regexp) (s mt rest : jsstring) (caps : captures) :
  starts_with_char re = true ->
  search re s = Some (mt, caps, rest) -> List.length rest < List.length s.
Proof.
  intros Hre. induction s as [|x s IH]; simpl; intros H.
  - destruct (match_at re []) as [[r c]|] eqn:E; [|discriminate].
    apply (match_at_progress _ _ Hre) in E. simpl in E. lia.
  - destruct (match_at re (x :: s)) as [[r c]|] eqn:E.
    + injection H as _ _ <-. now apply (match_at_progress _ _ Hre) in E.
    + apply IH in H. lia.
Qed.

(* ================================================================== *)
(** * Properties of the search result parser *)
(* ================================================================== *)

Section ParserFacts.

Import WebSearch.

Variable P : platform.

Lemma link_loop_total (re : regexp) (maxResults : number) :
  starts_with_char re = true ->
  forall fuel html acc,
    List.length html < fuel ->
    exists r, link_loop P re maxResults fuel html acc = Some r.
Proof.
  intros Hre. induction fuel as [|fuel IH]; intros html acc Hlen; [lia|].
  simpl. destruct (search re html) as [[[mt caps] rest]|] eqn:E; [|eauto].
  destruct (length_lt _ _); [|eauto].
  destruct (actual_url _); [|eauto].
  apply IH. apply (search_progress _ _ Hre) in E. lia.
Qed.

Lemma snippet_loop_total (re : regexp) (maxResults : number) :
  starts_with_char re = true ->
  forall fuel html acc,
    List.length html < fuel ->
    exists r, snippet_loop re maxResults fuel html acc = Some r.
Proof.
  intros Hre. induction fuel as [|fuel IH]; intros html acc Hlen; [lia|].
  simpl. destruct (search re html) as [[[mt caps] rest]|] eqn:E; [|eauto].
  destruct (length_lt _ _); [|eauto].
  apply IH. apply (search_progress _ _ Hre) in E. lia.
Qed.

(** The two parsing loops end: the fuel that parseDDGResults hands them is
    enough on every page. *)
Lemma parseDDGResults_total (html : jsstring) (maxResults : number) :
  exists r, parseDDGResults P html maxResults = Some r.
Proof.
  unfold parseDDGResults, parseDDGResults_fuel.
  destruct (@link_loop_total
              (if test resultLinkRegex html then resultLinkRegex
               else resultLinkRegex2)
              maxResults
              ltac:(destruct (test resultLinkRegex html); reflexivity)
              (S (List.length html)) html [] (Nat.lt_succ_diag_r _))
    as [[urlTitles|e] ->]; [|eauto].
  destruct (@snippet_loop_total
              (if test snippetRegex html then snippetRegex else snippetRegex2)
              maxResults
              ltac:(destruct (test snippetRegex html); reflexivity)
              (S (List.length html)) html [] (Nat.lt_succ_diag_r _))
    as [snippets ->].
  eauto.
Qed.


Lemma combine_loop_from (maxResults : number) (snippets : list jsstring) :
  forall rest i results (Q : WebSearchResult -> Prop),
    Forall Q results ->
    Forall (fun ut => forall j,
              Q {| url := fst ut; title := snd ut; snippet := nth j snippets [] |})
           rest ->
    Forall Q (combine_loop maxResults snippets rest i results).
Proof.
  induction rest as [|[u t] rest IH]; intros i results Q Hres Hrest; simpl.
  - exact Hres.
  - destruct (length_lt _ _); [|exact Hres].
    inversion Hrest; subst. apply IH; [|assumption].
    apply Forall_app. split; [exact Hres|]. constructor; [|constructor].
    apply (H1 i).
Qed.


End ParserFacts.

(* ================================================================== *)
(** * Properties of the two operations at their boundary *)
(* ================================================================== *)

(** C8, at the input on which it fails.  The server answers 200 with an
    HTML content type, and reading the body is rejected with null, the
    reason the caller gave when aborting the request.  The handler of
    either operation starts by reading [error.name], which throws on null:
    the operation raises a TypeError to its caller instead of returning a
    result. *)
Theorem execute_raises_on_null_rejection :
  let torn :=
    Normal {| status := 200; statusText := js "OK";
              contentType := Some (js "text/html"); body := Throw Nullish |} in
  let P := Sample.host [torn] in
  let raised := Obj {| name := js "TypeError"; message := type_error P |} in
  fst (WebRead.execute P (js "https://example.com/") None None world0)
  = Throw raised
  /\ option_map fst (WebSearch.execute P (js "rocq") None world0)
     = Some (Throw raised).
Proof. vm_compute. split; reflexivity. Qed.

(** With the signal aborted, every call of fetch throws an AbortError; the
    retry loop goes through its three attempts and the operation reports
    the cancellation. *)
Example execute_cancelled :
  let aborted := Throw {| name := js "AbortError"; message := js "This operation was aborted" |} in
  let out := WebRead.execute (Sample.host [aborted; aborted; aborted])
               (js "https://example.com/") None None world0 in
  (exists r, fst out = Normal r
             /\ WebRead.r_text r = js "Request cancelled"
             /\ WebRead.isError r = false)
  /\ fetches (log (snd out)) = 3.
Proof. vm_compute. split; [eexists|]; repeat split. Qed.

(* ================================================================== *)
(** * Properties of the content locator *)
(* ================================================================== *)

Lemma compiles_any_flags (source : jsstring) (f : flags) :
  compiles source
  = match compile source f with POk _ => true | _ => false end.
Proof.
  unfold compiles, compile.
  destruct (parse_disj _ source 1) as [[[r rest] g]| |]; try reflexivity.
  destruct rest; [|reflexivity]. now destruct (max_backref r <? g).
Qed.

Lemma compile_all_ok (P : platform) (sources : list jsstring) :
  forallb WebRead.is_ascii sources = true ->
  forallb compiles sources = true ->
  WebRead.compile_all P sources
  = Normal (map (fun source => match_all (compiled source flags_gi)) sources).
Proof.
  induction sources as [|source rest IH]; simpl; [reflexivity|].
  intros A H. apply andb_true_iff in A as [A1 A2].
  apply andb_true_iff in H as [H1 H2].
  rewrite (IH A2 H2). unfold WebRead.RegExp_gi, compiled.
  rewrite A1.
  rewrite (compiles_any_flags source flags_gi) in H1.
  destruct (compile source flags_gi); try discriminate. reflexivity.
Qed.

Lemma contentSelectors_compile (P : platform) (html selector : jsstring) :
  In selector WebRead.contentSelectors ->
  WebRead.extractBySelector P html selector = Normal (candidate html selector).
Proof.
  intros Hin. unfold WebRead.extractBySelector, candidate.
  simpl in Hin.
  rewrite compile_all_ok; [reflexivity| |];
    repeat (destruct Hin as [<-|Hin]; [vm_compute; reflexivity|]);
    contradiction.
Qed.

Lemma try_selectors_find (P : platform) (html : jsstring) (selectors : list jsstring) :
  (forall selector, In selector selectors -> In selector WebRead.contentSelectors) ->
  WebRead.try_selectors P html selectors
  = Normal (option_map (candidate html)
              (find (fun selector => 500 <? List.length (candidate html selector))
                    selectors)).
Proof.
  induction selectors as [|selector rest IH]; intros Hsub; simpl; [reflexivity|].
  rewrite (@contentSelectors_compile P html selector) by (apply Hsub; now left).
  destruct (500 <? List.length (candidate html selector)); [reflexivity|].
  apply IH. intros s Hs. apply Hsub. now right.
Qed.

(** Without a selector the locator goes through its list of selectors in
    order and returns what [extractBySelector] gives for the first one
    whose extraction is longer than 500 characters; when none is, it
    returns the inner part of the body element, and when there is no body
    element, the whole document. *)
Lemma extractMainContent_order (P : platform) (html : jsstring) :
  WebRead.contentSelectors
  = [ js "article"; js "[role=" ++ DQ ++ js "main" ++ DQ ++ js "]"; js "main";
      js "#content"; js "#main"; js ".content"; js ".main"; js ".article";
      js ".post" ]
  /\ WebRead.extractMainContent P html
     = Normal
         match find (fun selector => 500 <? List.length (candidate html selector))
                    WebRead.contentSelectors with
         | Some selector => candidate html selector
         | None =>
             match body_region html with
             | Some inner => inner
             | None => html
             end
         end.
Proof.
  split; [reflexivity|].
  unfold WebRead.extractMainContent.
  rewrite try_selectors_find by auto.
  destruct (find _ _); simpl; [reflexivity|].
  unfold body_region. destruct (search _ html) as [[[mt caps] rest]|]; reflexivity.
Qed.

(** C4, at the input on which it fails.  The page holds a container with
    role="main" around 600 characters and, after it, a container with the
    id content around 600 other characters.  The selector [role="main"]
    comes second in the list and #content fourth, but the text of the
    selector is spliced into the pattern as if it were an element name,
    where the brackets make it a character class: the pattern does not
    find the container, and the locator returns the one with the id
    content. *)
Theorem extractMainContent_misses_role_main :
  let first := repeat 120%N 600 in
  let second := repeat 121%N 600 in
  let page :=
    js "<div role=" ++ DQ ++ js "main" ++ DQ ++ js ">" ++ first ++ js "</div>"
    ++ js "<div id=" ++ DQ ++ js "content" ++ DQ ++ js ">" ++ second ++ js "</div>" in
  nth 1 WebRead.contentSelectors [] = js "[role=" ++ DQ ++ js "main" ++ DQ ++ js "]"
  /\ nth 3 WebRead.contentSelectors [] = js "#content"
  /\ WebRead.extractBySelector (Sample.host []) page
       (js "[role=" ++ DQ ++ js "main" ++ DQ ++ js "]") = Normal []
  /\ WebRead.extractMainContent (Sample.host []) page
     = Normal (js "<div id=" ++ DQ ++ js "content" ++ DQ ++ js ">" ++ second
               ++ js "</div>").
Proof. vm_compute. repeat split. Qed.

(* ================================================================== *)
(** * Quantified classes and the walks over a string *)
(* ================================================================== *)

Section ClassFacts.

Variable fl : flags.

Lemma orelse_none_r (a : result) : orelse a None = a.
Proof. now destruct a. Qed.

Lemma rep_star_greedy (p : char16 -> bool) (k : cont) :
  forall fuel s c,
    List.length s <= fuel ->
    rep (one p) [] true k fuel 0 None s c = greedy_class p k s c.
Proof.
  induction fuel as [|fuel IH]; intros s c Hlen.
  - destruct s; [reflexivity | simpl in Hlen; lia].
  - destruct s as [|x s]; [reflexivity|].
    simpl. destruct (p x); [|reflexivity].
    replace (List.length s =? S (List.length s)) with false
      by (symmetry; apply Nat.eqb_neq; lia).
    rewrite IH by (simpl in Hlen; lia). reflexivity.
Qed.

Lemma rep_plus_greedy (p : char16 -> bool) (k : cont) :
  forall fuel s c,
    List.length s <= fuel ->
    rep (one p) [] true k (S fuel) 1 None s c = plus_class p k s c.
Proof.
  intros fuel s c Hlen. destruct s as [|x s]; [reflexivity|].
  simpl. destruct (p x); [|reflexivity].
  apply rep_star_greedy. simpl in Hlen. lia.
Qed.

Lemma rep_star_lazy (p : char16 -> bool) (k : cont) :
  forall fuel s c,
    List.length s <= fuel ->
    rep (one p) [] false k fuel 0 None s c = lazy_class p k s c.
Proof.
  induction fuel as [|fuel IH]; intros s c Hlen.
  - destruct s; [|simpl in Hlen; lia]. simpl. now rewrite orelse_none_r.
  - destruct s as [|x s]; [reflexivity|].
    simpl. destruct (p x); [|reflexivity].
    replace (List.length s =? S (List.length s)) with false
      by (symmetry; apply Nat.eqb_neq; lia).
    rewrite IH by (simpl in Hlen; lia). reflexivity.
Qed.

Lemma m_star_class (neg : bool) (items : list citem) s c k :
  m fl (RQuant true 0 None (RClass neg items)) s c k
  = greedy_class (class_match fl neg items) k s c.
Proof.
  change (m fl (RQuant true 0 None (RClass neg items)) s c k)
    with (rep (one (class_match fl neg items)) [] true k
              (0 + List.length s) 0 None s c).
  now apply rep_star_greedy.
Qed.

Lemma m_plus_class (neg : bool) (items : list citem) s c k :
  m fl (RQuant true 1 None (RClass neg items)) s c k
  = plus_class (class_match fl neg items) k s c.
Proof.
  change (m fl (RQuant true 1 None (RClass neg items)) s c k)
    with (rep (one (class_match fl neg items)) [] true k
              (S (List.length s)) 1 None s c).
  now apply rep_plus_greedy.
Qed.

Lemma m_lazy_class (neg : bool) (items : list citem) s c k :
  m fl (RQuant false 0 None (RClass neg items)) s c k
  = lazy_class (class_match fl neg items) k s c.
Proof.
  change (m fl (RQuant false 0 None (RClass neg items)) s c k)
    with (rep (one (class_match fl neg items)) [] false k
              (0 + List.length s) 0 None s c).
  now apply rep_star_lazy.
Qed.

Lemma m_lazy_any s c k :
  m fl (RQuant false 0 None RAny) s c k = lazy_class (any_match fl) k s c.
Proof.
  change (m fl (RQuant false 0 None RAny) s c k)
    with (rep (one (any_match fl)) [] false k (0 + List.length s) 0 None s c).
  now apply rep_star_lazy.
Qed.

End ClassFacts.

Lemma span_split (p : char16 -> bool) (s : jsstring) :
  s = span_of p s ++ after_span p s.
Proof.
  induction s as [|x s IH]; simpl; [reflexivity|].
  destruct (p x); simpl; [now rewrite <- IH | reflexivity].
Qed.

Lemma after_span_head (p : char16 -> bool) (s : jsstring) (x : char16) (t : jsstring) :
  after_span p s = x :: t -> p x = false.
Proof.
  induction s as [|y s IH]; simpl; [discriminate|].
  destruct (p y) eqn:E; [exact IH|]. intros H. injection H as <- _. exact E.
Qed.

Lemma after_span_length (p : char16 -> bool) (s : jsstring) :
  List.length (after_span p s) <= List.length s.
Proof.
  induction s as [|y s IH]; simpl; [lia|]. destruct (p y); simpl; lia.
Qed.

Lemma greedy_class_accept (p : char16 -> bool) (s : jsstring) (c : captures) :
  greedy_class p accept s c = Some (after_span p s, c).
Proof.
  induction s as [|x s IH]; simpl; [reflexivity|].
  destruct (p x); [|reflexivity]. now rewrite IH.
Qed.

Lemma consumed_app (a b : jsstring) : consumed (a ++ b) b = a.
Proof.
  unfold consumed. rewrite length_app.
  replace (List.length a + List.length b - List.length b) with (List.length a + 0) by lia.
  rewrite firstn_app_2. simpl. apply app_nil_r.
Qed.

Section WalkFacts.

Variables (re : regexp) (f : replacer).

Lemma replace_walk_skip (a b : jsstring) :
  replace_walk re f (a ++ b) (List.length a) = replace_walk re f b 0.
Proof. induction a as [|x a IH]; simpl; [reflexivity | exact IH]. Qed.

Lemma replace_nil : match_at re [] = None -> replace re f [] = [].
Proof. unfold replace. simpl. now intros ->. Qed.

Lemma replace_nomatch (x : char16) (s : jsstring) :
  match_at re (x :: s) = None -> replace re f (x :: s) = x :: replace re f s.
Proof. unfold replace. simpl. now intros ->. Qed.

Lemma replace_match (x : char16) (s mt rest : jsstring) (caps : captures) :
  match_at re (x :: s) = Some (rest, caps) ->
  x :: s = mt ++ rest ->
  mt <> [] ->
  replace re f (x :: s) = f mt caps ++ replace re f rest.
Proof.
  intros Hm Hs Hne. unfold replace.
  change (replace_walk re f (x :: s) 0)
    with (match match_at re (x :: s) with
          | Some (rest, caps) =>
              let mt := consumed (x :: s) rest in
              f mt caps ++
              match List.length mt with
              | 0 => x :: replace_walk re f s 0
              | S n => replace_walk re f s n
              end
          | None => x :: replace_walk re f s 0
          end).
  rewrite Hm. cbv zeta. rewrite Hs, consumed_app.
  destruct mt as [|y mt]; [contradiction|].
  injection Hs as -> ->. simpl. now rewrite replace_walk_skip.
Qed.

End WalkFacts.

(* ================================================================== *)
(** * Whitespace: collapsing and trimming *)
(* ================================================================== *)

Lemma after_span_ext (p q : char16 -> bool) (s : jsstring) :
  (forall x, p x = q x) -> after_span p s = after_span q s.
Proof.
  intros H. induction s as [|x s IH]; simpl; [reflexivity|].
  rewrite H. now rewrite IH.
Qed.

Lemma class_space (x : char16) :
  class_match flags_none false [CSpace true] x = is_whitespace x.
Proof.
  unfold class_match, class_has. simpl. now destruct (is_whitespace x).
Qed.

Lemma literal_ws :
  literal (js "\s+") flags_g eq_refl
  = {| tree := RQuant true 1 None (RClass false [CSpace true]);
       ngroups := 0; fl := flags_none |}.
Proof. reflexivity. Qed.

Lemma match_at_ws (s : jsstring) :
  match_at (literal (js "\s+") flags_g eq_refl) s
  = match s with
    | x :: s' =>
        if is_whitespace x then Some (after_span is_whitespace s', []) else None
    | [] => None
    end.
Proof.
  rewrite literal_ws. unfold match_at. cbn [tree fl ngroups repeat].
  rewrite m_plus_class. unfold plus_class.
  destruct s as [|x s]; [reflexivity|].
  rewrite class_space. destruct (is_whitespace x); [|reflexivity].
  rewrite greedy_class_accept.
  now rewrite (after_span_ext _ is_whitespace s class_space).
Qed.

Lemma collapse_nil : collapse [] = [].
Proof. reflexivity. Qed.

Lemma collapse_other (x : char16) (s : jsstring) :
  is_whitespace x = false -> collapse (x :: s) = x :: collapse s.
Proof.
  intros H. unfold collapse. apply replace_nomatch.
  rewrite match_at_ws. now rewrite H.
Qed.

Lemma collapse_space (x : char16) (s : jsstring) :
  is_whitespace x = true ->
  collapse (x :: s) = 32%N :: collapse (after_span is_whitespace s).
Proof.
  intros H. unfold collapse.
  rewrite (@replace_match _ _ x s (x :: span_of is_whitespace s)
             (after_span is_whitespace s) []).
  - reflexivity.
  - rewrite match_at_ws. now rewrite H.
  - simpl. now rewrite <- span_split.
  - discriminate.
Qed.

Lemma collapse_spaced (s : jsstring) : spaced (collapse s).
Proof.
  remember (List.length s) as n eqn:Hn. revert s Hn.
  induction n as [n IH] using lt_wf_ind. intros s Hn.
  destruct s as [|x s]; [exact I|].
  destruct (is_whitespace x) eqn:E.
  - rewrite (collapse_space _ _ E). simpl. split.
    + intros _. split; [reflexivity|].
      destruct (after_span is_whitespace s) as [|y t] eqn:Ea; [exact I|].
      pose proof (after_span_head _ _ Ea) as Hy.
      now rewrite (collapse_other _ _ Hy).
    + apply (IH (List.length (after_span is_whitespace s))); [|reflexivity].
      pose proof (after_span_length is_whitespace s). subst n. simpl. lia.
  - rewrite (collapse_other _ _ E). simpl. split.
    + intros H. congruence.
    + apply (IH (List.length s)); [subst n; simpl; lia | reflexivity].
Qed.

Lemma spaced_app_r (a b : jsstring) : spaced (a ++ b) -> spaced b.
Proof.
  induction a as [|x a IH]; simpl; [auto|]. intros [_ H]. auto.
Qed.

Lemma spaced_app_l (a b : jsstring) : spaced (a ++ b) -> spaced a.
Proof.
  induction a as [|x a IH]; simpl; [auto|]. intros [H1 H2].
  split; [|auto]. intros Hx. destruct (H1 Hx) as [-> Hnext].
  split; [reflexivity|]. destruct a; [exact I|exact Hnext].
Qed.

Lemma trimStart_suffix (s : jsstring) : exists p, s = p ++ trimStart s.
Proof.
  induction s as [|x s [p IH]]; simpl; [now exists []|].
  destruct (is_whitespace x); [|now exists []].
  exists (x :: p). simpl. now rewrite <- IH.
Qed.

Lemma trimStart_head (s : jsstring) (c : char16) :
  hd_error (trimStart s) = Some c -> is_whitespace c = false.
Proof.
  induction s as [|x s IH]; simpl; [discriminate|].
  destruct (is_whitespace x) eqn:E; [exact IH|].
  simpl. intros H. injection H as <-. exact E.
Qed.

Lemma trimEnd_prefix (s : jsstring) : exists q, s = trimEnd s ++ q.
Proof.
  unfold trimEnd. destruct (trimStart_suffix (rev s)) as [p Hp].
  exists (rev p). rewrite <- rev_app_distr, <- Hp. now rewrite rev_involutive.
Qed.

Lemma hd_error_app (a b : jsstring) (c : char16) :
  hd_error a = Some c -> hd_error (a ++ b) = Some c.
Proof. destruct a; simpl; [discriminate | auto]. Qed.

Lemma trim_tidy (s : jsstring) : spaced s -> tidy (trim s).
Proof.
  intros Hs. unfold trim, tidy.
  destruct (trimStart_suffix s) as [p Hp].
  destruct (trimEnd_prefix (trimStart s)) as [q Hq].
  split; [|split].
  - rewrite Hp in Hs. apply spaced_app_r in Hs.
    rewrite Hq in Hs. now apply spaced_app_l in Hs.
  - intros c Hc. apply (trimStart_head s).
    rewrite Hq. now apply hd_error_app.
  - intros c Hc. unfold trimEnd in Hc. rewrite rev_involutive in Hc.
    now apply trimStart_head in Hc.
Qed.

Lemma tidy_nil : tidy [].
Proof. repeat split; simpl; intros; discriminate. Qed.

Lemma tidy_spaced (s : jsstring) : tidy s -> spaced s.
Proof. now intros [H _]. Qed.

(** A tidy text has no newline, carriage return or tab, nor any other
    whitespace character than the space. *)
Lemma spaced_only_spaces (s : jsstring) (c : char16) :
  spaced s -> In c s -> is_whitespace c = true -> c = 32%N.
Proof.
  induction s as [|x s IH]; simpl; [contradiction|].
  intros [H1 H2] [<-|Hin] Hc; [now destruct (H1 Hc) | auto].
Qed.

Lemma stripTags_tidy (html : jsstring) : tidy (WebSearch.stripTags html).
Proof. unfold WebSearch.stripTags. apply trim_tidy. apply collapse_spaced. Qed.

Lemma trim_stripTags_tidy (html : jsstring) : tidy (trim (WebSearch.stripTags html)).
Proof. apply trim_tidy, tidy_spaced, stripTags_tidy. Qed.

(* ================================================================== *)
(** * Removing tags *)
(* ================================================================== *)

Lemma literal_tag :
  literal (js "<[^>]+>") flags_g eq_refl
  = {| tree := RSeq (RChar 60%N)
                 (RSeq (RQuant true 1 None (RClass true [CChar 62%N]))
                       (RChar 62%N));
       ngroups := 0; fl := flags_none |}.
Proof. reflexivity. Qed.

Lemma class_not_gt (x : char16) :
  class_match flags_none true [CChar 62%N] x = negb (62 =? x)%N.
Proof.
  unfold class_match, class_has.
  cbn [existsb item_has ignoreCase flags_none andb orb].
  now destruct (62 =? x)%N.
Qed.

Lemma m_seq (fl : flags) (a b : regex) s c k :
  m fl (RSeq a b) s c k = m fl a s c (fun s' c' => m fl b s' c' k).
Proof. reflexivity. Qed.

Lemma m_char_cons (fl : flags) (a x : char16) s c k :
  m fl (RChar a) (x :: s) c k
  = if N.eqb (canon fl a) (canon fl x) then k s c else None.
Proof. reflexivity. Qed.

Lemma greedy_until_gt (s : jsstring) (c : captures) :
  greedy_class (class_match flags_none true [CChar 62%N])
    (fun s' c' => m flags_none (RChar 62%N) s' c' accept) s c
  = option_map (fun r => (r, c)) (after_gt s).
Proof.
  induction s as [|x s IH]; [reflexivity|].
  cbn [greedy_class after_gt]. rewrite class_not_gt, m_char_cons.
  change (canon flags_none 62%N) with 62%N.
  change (canon flags_none x) with x.
  destruct (62 =? x)%N; cbn [negb option_map]; [reflexivity|].
  rewrite IH. apply orelse_none_r.
Qed.

Lemma match_at_tag (s : jsstring) :
  match_at (literal (js "<[^>]+>") flags_g eq_refl) s
  = match s with
    | x :: y :: s2 =>
        if (60 =? x)%N && negb (62 =? y)%N
        then option_map (fun r => (r, [])) (after_gt s2)
        else None
    | _ => None
    end.
Proof.
  rewrite literal_tag. unfold match_at. cbn [tree fl ngroups repeat].
  destruct s as [|x s]; [reflexivity|].
  rewrite m_seq, m_char_cons.
  change (canon flags_none 60%N) with 60%N.
  change (canon flags_none x) with x.
  destruct (60 =? x)%N; [|now destruct s].
  rewrite m_seq, (m_plus_class flags_none). unfold plus_class.
  destruct s as [|y s2]; [reflexivity|].
  rewrite class_not_gt. destruct (62 =? y)%N; cbn [negb andb]; [reflexivity|].
  apply greedy_until_gt.
Qed.

Lemma after_gt_split (s rest : jsstring) :
  after_gt s = Some rest -> exists u, s = u ++ 62%N :: rest.
Proof.
  revert rest. induction s as [|x s IH]; cbn [after_gt]; intros rest H;
    [discriminate|].
  destruct (62 =? x)%N eqn:E.
  - apply N.eqb_eq in E. subst x. injection H as <-. now exists [].
  - destruct (IH _ H) as [u ->]. now exists (x :: u).
Qed.

Lemma after_gt_none (s : jsstring) : after_gt s = None <-> ~ In 62%N s.
Proof.
  induction s as [|x s IH]; cbn [after_gt In].
  - split; [intros _ [] | reflexivity].
  - destruct (62 =? x)%N eqn:E.
    + apply N.eqb_eq in E. split; [discriminate | intros H; exfalso; auto].
    + apply N.eqb_neq in E. rewrite IH.
      split; [intros H [Hx|Hin]; [congruence | contradiction]
             | intros H Hin; apply H; now right].
Qed.

Lemma remove_tags_nil : remove_tags [] = [].
Proof. reflexivity. Qed.

Lemma remove_tags_keep (x : char16) (s : jsstring) :
  match_at (literal (js "<[^>]+>") flags_g eq_refl) (x :: s) = None ->
  remove_tags (x :: s) = x :: remove_tags s.
Proof. apply replace_nomatch. Qed.

Lemma remove_tags_drop (x : char16) (s rest : jsstring) (caps : captures) :
  match_at (literal (js "<[^>]+>") flags_g eq_refl) (x :: s) = Some (rest, caps) ->
  remove_tags (x :: s) = remove_tags rest
  /\ List.length rest < List.length (x :: s)
  /\ (forall c, In c rest -> In c s).
Proof.
  intros H. pose proof H as H'. rewrite match_at_tag in H'.
  destruct s as [|y s2]; [discriminate|].
  destruct ((60 =? x)%N && negb (62 =? y)%N); [|discriminate].
  destruct (after_gt s2) as [r|] eqn:E; [|discriminate].
  injection H' as <- <-.
  destruct (after_gt_split _ E) as [u ->].
  split; [|split].
  - unfold remove_tags.
    rewrite (@replace_match _ _ x (y :: u ++ 62%N :: r)
               (x :: y :: u ++ [62%N]) r []); try assumption.
    + reflexivity.
    + simpl. now rewrite <- app_assoc.
    + discriminate.
  - cbn [List.length]. rewrite length_app. cbn [List.length].
    unfold jsstring, char16 in *. lia.
  - intros c Hc. right. apply in_or_app. right. now right.
Qed.

Lemma remove_tags_in (s : jsstring) (c : char16) :
  In c (remove_tags s) -> In c s.
Proof.
  remember (List.length s) as n eqn:Hn. revert s Hn.
  induction n as [n IH] using lt_wf_ind. intros s Hn Hin.
  destruct s as [|x s]; [exact Hin|].
  destruct (match_at (literal (js "<[^>]+>") flags_g eq_refl) (x :: s))
    as [[rest caps]|] eqn:E.
  - destruct (remove_tags_drop _ _ E) as (Heq & Hlen & Hsub).
    rewrite Heq in Hin. right. apply Hsub.
    apply (IH (List.length rest)); [subst n; exact Hlen | reflexivity | exact Hin].
  - rewrite (remove_tags_keep _ _ E) in Hin. destruct Hin as [<-|Hin]; [now left|].
    right. apply (IH (List.length s)); [subst n; simpl; lia | reflexivity | exact Hin].
Qed.

(** After the removal no tag is left: the pattern matches nowhere. *)
Lemma remove_tags_clean (s : jsstring) :
  search (literal (js "<[^>]+>") flags_g eq_refl) (remove_tags s) = None.
Proof.
  remember (List.length s) as n eqn:Hn. revert s Hn.
  induction n as [n IH] using lt_wf_ind. intros s Hn.
  destruct s as [|x s]; [reflexivity|].
  destruct (match_at (literal (js "<[^>]+>") flags_g eq_refl) (x :: s))
    as [[rest caps]|] eqn:E.
  - destruct (remove_tags_drop _ _ E) as (Heq & Hlen & _). rewrite Heq.
    apply (IH (List.length rest)); [subst n; exact Hlen | reflexivity].
  - rewrite (remove_tags_keep _ _ E).
    assert (IHs : search (literal (js "<[^>]+>") flags_g eq_refl) (remove_tags s) = None)
      by (apply (IH (List.length s)); [subst n; simpl; lia | reflexivity]).
    cbn [search]. rewrite IHs.
    assert (Hhere : match_at (literal (js "<[^>]+>") flags_g eq_refl)
                      (x :: remove_tags s) = None); [|now rewrite Hhere].
    rewrite match_at_tag in E |- *.
    destruct (remove_tags s) as [|y' r2] eqn:Er; [reflexivity|].
    destruct (60 =? x)%N; [|reflexivity]. cbn [andb] in *.
    destruct (62 =? y')%N eqn:Ey'; cbn [negb]; [reflexivity|].
    destruct s as [|y s2]; [rewrite remove_tags_nil in Er; discriminate|].
    destruct (62 =? y)%N eqn:Ey; cbn [negb] in E.
    + (* the next character is > : it stays in front *)
      assert (Hk : remove_tags (y :: s2) = y :: remove_tags s2).
      { apply remove_tags_keep. rewrite match_at_tag.
        apply N.eqb_eq in Ey. subst y. now destruct s2. }
      rewrite Hk in Er. injection Er as -> _. congruence.
    + (* no > anywhere after *)
      destruct (after_gt s2) eqn:Ea; [discriminate|].
      assert (Hno : ~ In 62%N (y :: s2)).
      { intros [Hy|Hin]; [subst y; discriminate|].
        now apply after_gt_none in Ea. }
      assert (Hno2 : ~ In 62%N r2).
      { intros Hin. apply Hno. apply remove_tags_in. rewrite Er. now right. }
      apply after_gt_none in Hno2. now rewrite Hno2.
Qed.

(* ================================================================== *)
(** * The text of search results *)
(* ================================================================== *)

Section ResultText.

Import WebSearch.

Variable P : platform.

Lemma link_loop_tidy (re : regexp) (maxResults : number) :
  forall fuel html acc l,
    Forall (fun ut => tidy (snd ut)) acc ->
    link_loop P re maxResults fuel html acc = Some (Normal l) ->
    Forall (fun ut => tidy (snd ut)) l.
Proof.
  induction fuel as [|fuel IH]; intros html acc l Hacc H; [discriminate|].
  simpl in H. destruct (search re html) as [[[mt caps] rest]|].
  - destruct (length_lt _ _); [|now injection H as <-].
    destruct (actual_url _) as [u|]; [|discriminate].
    apply IH in H; [exact H|].
    destruct (organic u _); [|exact Hacc].
    apply Forall_app. split; [exact Hacc|].
    constructor; [apply trim_stripTags_tidy | constructor].
  - now injection H as <-.
Qed.

Lemma snippet_loop_tidy (re : regexp) (maxResults : number) :
  forall fuel html acc l,
    Forall tidy acc ->
    snippet_loop re maxResults fuel html acc = Some l ->
    Forall tidy l.
Proof.
  induction fuel as [|fuel IH]; intros html acc l Hacc H; [discriminate|].
  simpl in H. destruct (search re html) as [[[mt caps] rest]|].
  - destruct (length_lt _ _); [|now injection H as <-].
    apply IH in H; [exact H|].
    apply Forall_app. split; [exact Hacc|].
    constructor; [apply trim_stripTags_tidy | constructor].
  - now injection H as <-.
Qed.

Lemma nth_tidy (snippets : list jsstring) (j : nat) :
  Forall tidy snippets -> tidy (nth j snippets []).
Proof.
  intros H. destruct (Nat.lt_ge_cases j (List.length snippets)) as [Hj|Hj].
  - rewrite Forall_forall in H. apply H. now apply nth_In.
  - rewrite nth_overflow by exact Hj. apply tidy_nil.
Qed.

Lemma stripTags_steps (html : jsstring) :
  stripTags html = trim (collapse (search_entities (remove_tags html))).
Proof. reflexivity. Qed.

(** C10, as the code has it.  The parser always comes to an end, and the
    title and the snippet of every result it gives are tidy: each is
    trimmed, every whitespace run in it is a single space, and so it has no
    newline, carriage return or tab.  Both come out of stripTags, whose
    first step removes every tag [<...>] of the matched markup; the
    entities are decoded after that step, so an angle bracket written as an
    entity stays in the text. *)
Theorem parseDDGResults_tidy (html : jsstring) (maxResults : number) :
  (exists c, parseDDGResults P html maxResults = Some c)
  /\ (forall results,
        parseDDGResults P html maxResults = Some (Normal results) ->
        Forall (fun r =>
                  tidy (title r) /\ tidy (snippet r)
                  /\ forall c, In c (title r) \/ In c (snippet r) ->
                               c <> 10%N /\ c <> 13%N /\ c <> 9%N)
               results)
  /\ forall text,
       stripTags text = trim (collapse (search_entities (remove_tags text)))
       /\ test (literal (js "<[^>]+>") flags_g eq_refl) (remove_tags text) = false.
Proof.
  split; [apply parseDDGResults_total|]. split.
  - intros results H.
    assert (Ht : Forall (fun r => tidy (title r) /\ tidy (snippet r)) results).
    { unfold parseDDGResults, parseDDGResults_fuel in H.
      destruct (link_loop _ _ _ _ _ _) as [[urlTitles|e]|] eqn:E; try discriminate.
      destruct (snippet_loop _ _ _ _ _) as [snippets|] eqn:Es; [|discriminate].
      injection H as <-.
      apply link_loop_tidy in E; [|constructor].
      apply snippet_loop_tidy in Es; [|constructor].
      apply combine_loop_from; [constructor|].
      eapply Forall_impl; [|exact E]. intros [u t] Hut j. simpl.
      split; [exact Hut | now apply nth_tidy]. }
    eapply Forall_impl; [|exact Ht]. intros r [Ht1 Ht2].
    split; [exact Ht1|]. split; [exact Ht2|].
    intros c Hc.
    assert (Hws : is_whitespace c = true -> c = 32%N).
    { destruct Hc as [Hc|Hc];
        [apply (spaced_only_spaces _ _ (tidy_spaced Ht1) Hc)
        |apply (spaced_only_spaces _ _ (tidy_spaced Ht2) Hc)]. }
    repeat split; intros ->; specialize (Hws eq_refl); discriminate.
  - intros text. split; [reflexivity|].
    unfold test. now rewrite remove_tags_clean.
Qed.

End ResultText.

Lemma parseDDGResults_tidy_witness :
  Forall (fun r =>
            tidy (WebSearch.title r) /\ tidy (WebSearch.snippet r)
            /\ forall c, In c (WebSearch.title r) \/ In c (WebSearch.snippet r) ->
                         c <> 10%N /\ c <> 13%N /\ c <> 9%N)
    [{| WebSearch.url := js "https://example.com/";
        WebSearch.title := js "An example";
        WebSearch.snippet := [] |}].
Proof.
  exact (proj1 (proj2 (@parseDDGResults_tidy (Sample.host [])
                  (results_page [(js "https://example.com/", js " An   <b>example</b> ")])
                  (WebSearch.Finite 10)))
           [{| WebSearch.url := js "https://example.com/";
               WebSearch.title := js "An example";
               WebSearch.snippet := [] |}]
           eq_refl).
Defined.

(** The claim C10 fails where it excludes tag syntax: an anchor text that
    writes its angle brackets as entities gives a title with [<b>] in it. *)
Lemma title_keeps_decoded_brackets :
  WebSearch.parseDDGResults (Sample.host [])
    (results_page [(js "https://example.com/", js "&lt;b&gt;bold&lt;/b&gt; news")])
    (WebSearch.Finite 10)
  = Some (Normal [{| WebSearch.url := js "https://example.com/";
                     WebSearch.title := js "<b>bold</b> news";
                     WebSearch.snippet := [] |}])
  /\ test (literal (js "<[^>]+>") flags_g eq_refl) (js "<b>bold</b> news") = true.
Proof. split; vm_compute; reflexivity. Qed.

(* ================================================================== *)
(** * Stepping the matcher through a pattern *)
(* ================================================================== *)

Lemma upper_nonletter (k x : char16) :
  nonletter k = true -> N.eqb k (upper x) = N.eqb k x.
Proof.
  unfold nonletter, upper. intros Hk.
  destruct ((97 <=? x) && (x <=? 122))%N eqn:E; [|reflexivity].
  apply andb_true_iff in E as [E1 E2].
  apply N.leb_le in E1, E2.
  replace (k =? x - 32)%N with false; [symmetry|symmetry];
    apply N.eqb_neq; intros ->;
    repeat (apply orb_true_iff in Hk as [Hk|Hk]);
    try (apply andb_true_iff in Hk as [Hk1 Hk2]);
    rewrite ?N.ltb_lt in *; lia.
Qed.

Lemma lower_nonletter (k x : char16) :
  nonletter k = true -> N.eqb k (lower x) = N.eqb k x.
Proof.
  unfold nonletter, lower. intros Hk.
  destruct ((65 <=? x) && (x <=? 90))%N eqn:E; [|reflexivity].
  apply andb_true_iff in E as [E1 E2].
  apply N.leb_le in E1, E2.
  replace (k =? x + 32)%N with false; [symmetry|symmetry];
    apply N.eqb_neq; intros ->;
    repeat (apply orb_true_iff in Hk as [Hk|Hk]);
    try (apply andb_true_iff in Hk as [Hk1 Hk2]);
    rewrite ?N.ltb_lt in *; lia.
Qed.

Lemma upper_self_nonletter (k : char16) : nonletter k = true -> upper k = k.
Proof.
  unfold nonletter, upper. intros Hk.
  destruct ((97 <=? k) && (k <=? 122))%N eqn:E; [|reflexivity].
  apply andb_true_iff in E as [E1 E2]. apply N.leb_le in E1, E2.
  repeat (apply orb_true_iff in Hk as [Hk|Hk]);
    try (apply andb_true_iff in Hk as [Hk1 Hk2]);
    rewrite ?N.ltb_lt in *; lia.
Qed.

(** Under either flag set a character that is no letter matches itself
    only. *)
Lemma canon_nonletter (fl : flags) (k x : char16) :
  nonletter k = true -> N.eqb (canon fl k) (canon fl x) = N.eqb k x.
Proof.
  intros Hk. unfold canon. destruct (ignoreCase fl); [|reflexivity].
  rewrite (upper_self_nonletter _ Hk). now apply upper_nonletter.
Qed.

Lemma class_not_char (fl : flags) (k x : char16) :
  nonletter k = true ->
  class_match fl true [CChar k] x = negb (N.eqb k x).
Proof.
  intros Hk. unfold class_match, class_has.
  cbn [existsb item_has].
  rewrite (upper_nonletter _ _ Hk), (lower_nonletter _ _ Hk).
  destruct (ignoreCase fl), (N.eqb k x); reflexivity.
Qed.

Lemma class_everything (fl : flags) (x : char16) :
  class_match fl false [CSpace true; CSpace false] x = true.
Proof.
  unfold class_match, class_has. simpl. now destruct (is_whitespace x).
Qed.

Section Stepping.

Variable fl : flags.

Lemma m_char_ok (a x : char16) s c k :
  N.eqb (canon fl a) (canon fl x) = true ->
  m fl (RChar a) (x :: s) c k = k s c.
Proof. simpl. now intros ->. Qed.

Lemma m_seq_char_ok (a x : char16) (r : regex) s c k :
  N.eqb (canon fl a) (canon fl x) = true ->
  m fl (RSeq (RChar a) r) (x :: s) c k = m fl r s c k.
Proof. simpl. now intros ->. Qed.

Lemma m_seq_char_fail (a x : char16) (r : regex) s c k :
  N.eqb (canon fl a) (canon fl x) = false ->
  m fl (RSeq (RChar a) r) (x :: s) c k = None.
Proof. simpl. now intros ->. Qed.

Lemma m_chars_same (l : jsstring) (r : regex) s c k :
  m fl (chars l r) (l ++ s) c k = m fl r s c k.
Proof.
  induction l as [|a l IH]; [reflexivity|].
  simpl. now rewrite N.eqb_refl.
Qed.

Lemma m_chars_prefix (l : jsstring) (r : regex) s c k :
  prefix_canon fl l s = false -> m fl (chars l r) s c k = None.
Proof.
  revert s. induction l as [|a l IH]; intros s H; [discriminate|].
  destruct s as [|x s]; [reflexivity|]. simpl in *.
  destruct (N.eqb _ _); [|reflexivity]. now apply IH.
Qed.

Lemma m_seq_star (neg : bool) (items : list citem) (r : regex) s c k :
  m fl (RSeq (RQuant true 0 None (RClass neg items)) r) s c k
  = greedy_class (class_match fl neg items) (fun s' c' => m fl r s' c' k) s c.
Proof. rewrite m_seq. apply m_star_class. Qed.

Lemma m_seq_plus (neg : bool) (items : list citem) (r : regex) s c k :
  m fl (RSeq (RQuant true 1 None (RClass neg items)) r) s c k
  = plus_class (class_match fl neg items) (fun s' c' => m fl r s' c' k) s c.
Proof. rewrite m_seq. apply m_plus_class. Qed.

Lemma m_seq_group_lazy (i : nat) (neg : bool) (items : list citem) (r : regex) s c k :
  m fl (RSeq (RGroup i (RQuant false 0 None (RClass neg items))) r) s c k
  = lazy_class (class_match fl neg items)
      (fun s' c' => m fl r s' (set_cap i (Some (consumed s s')) c') k) s c.
Proof.
  rewrite m_seq.
  change (m fl (RGroup i (RQuant false 0 None (RClass neg items))) s c
            (fun s' c' => m fl r s' c' k))
    with (m fl (RQuant false 0 None (RClass neg items)) s c
            (fun s' c' => m fl r s' (set_cap i (Some (consumed s s')) c') k)).
  apply m_lazy_class.
Qed.

Lemma m_seq_group_lazy_any (i : nat) (r : regex) s c k :
  m fl (RSeq (RGroup i (RQuant false 0 None RAny)) r) s c k
  = lazy_class (any_match fl)
      (fun s' c' => m fl r s' (set_cap i (Some (consumed s s')) c') k) s c.
Proof.
  rewrite m_seq.
  change (m fl (RGroup i (RQuant false 0 None RAny)) s c
            (fun s' c' => m fl r s' c' k))
    with (m fl (RQuant false 0 None RAny) s c
            (fun s' c' => m fl r s' (set_cap i (Some (consumed s s')) c') k)).
  apply m_lazy_any.
Qed.

Lemma m_seq_group_plus (i : nat) (neg : bool) (items : list citem) (r : regex) s c k :
  m fl (RSeq (RGroup i (RQuant true 1 None (RClass neg items))) r) s c k
  = plus_class (class_match fl neg items)
      (fun s' c' => m fl r s' (set_cap i (Some (consumed s s')) c') k) s c.
Proof.
  rewrite m_seq.
  change (m fl (RGroup i (RQuant true 1 None (RClass neg items))) s c
            (fun s' c' => m fl r s' c' k))
    with (m fl (RQuant true 1 None (RClass neg items)) s c
            (fun s' c' => m fl r s' (set_cap i (Some (consumed s s')) c') k)).
  apply m_plus_class.
Qed.

End Stepping.

Section Runs.

Variables (p : char16 -> bool) (k : cont) (c : captures).

(** A success further down the run wins. *)
Lemma greedy_class_pick (pre s : jsstring) (r : jsstring * captures) :
  Forall (fun x => p x = true) pre ->
  greedy_class p k s c = Some r ->
  greedy_class p k (pre ++ s) c = Some r.
Proof.
  intros Hpre Hs. induction Hpre as [|x pre Hx _ IH]; [exact Hs|].
  simpl. now rewrite Hx, IH.
Qed.

Lemma greedy_class_stop (x : char16) (t : jsstring) :
  p x = false -> greedy_class p k (x :: t) c = k (x :: t) c.
Proof. simpl. now intros ->. Qed.

Lemma greedy_class_here (x : char16) (s : jsstring) :
  greedy_class p k s c = None ->
  greedy_class p k (x :: s) c = k (x :: s) c.
Proof. simpl. intros ->. now destruct (p x). Qed.

Lemma greedy_class_none (mid t : jsstring) :
  greedy_class p k t c = None ->
  fails_within k c mid t ->
  greedy_class p k (mid ++ t) c = None.
Proof.
  intros Ht. induction mid as [|x mid IH]; [auto|].
  intros [Hx Hmid]. rewrite <- app_comm_cons.
  rewrite greedy_class_here by auto. exact Hx.
Qed.



Lemma lazy_class_here (s : jsstring) (r : jsstring * captures) :
  k s c = Some r -> lazy_class p k s c = Some r.
Proof. destruct s; simpl; now intros ->. Qed.

Lemma lazy_class_skip (t s : jsstring) :
  Forall (fun x => p x = true /\ forall s', k (x :: s') c = None) t ->
  lazy_class p k (t ++ s) c = lazy_class p k s c.
Proof.
  induction 1 as [|x t [Hp Hk] _ IH]; [reflexivity|].
  simpl. now rewrite Hk, Hp.
Qed.

End Runs.

Section MatchWalk.

Variable re : regexp.

Lemma match_walk_skip (a b : jsstring) :
  match_walk re (a ++ b) (List.length a) = match_walk re b 0.
Proof. induction a as [|x a IH]; simpl; [reflexivity | exact IH]. Qed.

Lemma match_walk_nomatch (x : char16) (s : jsstring) :
  match_at re (x :: s) = None ->
  match_walk re (x :: s) 0 = match_walk re s 0.
Proof. simpl. now intros ->. Qed.

Lemma match_walk_match (x : char16) (s mt rest : jsstring) (caps : captures) :
  match_at re (x :: s) = Some (rest, caps) ->
  x :: s = mt ++ rest ->
  mt <> [] ->
  match_walk re (x :: s) 0 = mt :: match_walk re rest 0.
Proof.
  intros Hm Hs Hne.
  change (match_walk re (x :: s) 0)
    with (match match_at re (x :: s) with
          | Some (rest, _) =>
              let mt := consumed (x :: s) rest in
              mt :: match_walk re s (pred (List.length mt))
          | None => match_walk re s 0
          end).
  rewrite Hm. cbv zeta. rewrite Hs, consumed_app.
  destruct mt as [|y mt]; [contradiction|].
  injection Hs as -> ->. simpl. now rewrite match_walk_skip.
Qed.

(** Where no position starts a match, the walk finds nothing. *)
Lemma match_walk_nothing (s : jsstring) :
  Forall (fun x => forall t, match_at re (x :: t) = None) s ->
  match_at re [] = None ->
  match_walk re s 0 = [].
Proof.
  intros Hs Hnil. induction Hs as [|x s Hx _ IH].
  - simpl. now rewrite Hnil.
  - rewrite match_walk_nomatch by apply Hx. exact IH.
Qed.

Lemma match_walk_pass (pre s : jsstring) :
  Forall (fun x => forall t, match_at re (x :: t) = None) pre ->
  match_walk re (pre ++ s) 0 = match_walk re s 0.
Proof.
  induction 1 as [|x pre Hx _ IH]; [reflexivity|].
  rewrite <- app_comm_cons. rewrite match_walk_nomatch by apply Hx. exact IH.
Qed.

End MatchWalk.

(* ================================================================== *)
(** * Extraction by selector *)
(* ================================================================== *)

(** Turn the string literals of a goal into lists of code units. *)
Ltac eval_js :=
  unfold DQ, NL;
  repeat match goal with
         | |- context [js ?s] =>
             let v := eval vm_compute in (js s) in change (js s) with v
         end;
  cbn [app].

Lemma main_id_pattern_eq :
  main_id_pattern
  = {| tree :=
         RSeq (RChar 60%N)
           (RSeq (RQuant true 0 None (RClass true [CChar 62%N]))
              (chars [105; 100; 61; 34; 109; 97; 105; 110; 34]%N
                 (RSeq (RQuant true 0 None (RClass true [CChar 62%N]))
                    (RSeq (RChar 62%N)
                       (RSeq (RGroup 1 (RQuant false 0 None
                                          (RClass false [CSpace true; CSpace false])))
                          (chars [60; 47]%N
                             (RSeq (RQuant true 1 None (RClass true [CChar 62%N]))
                                (RChar 62%N))))))));
       ngroups := 1; fl := flags_i |}.
Proof. reflexivity. Qed.

Lemma not_gt_run (s : jsstring) :
  ~ In 62%N s ->
  Forall (fun x => class_match flags_i true [CChar 62%N] x = true) s.
Proof.
  intros H. apply Forall_forall. intros x Hx.
  rewrite class_not_char by reflexivity.
  apply negb_true_iff, N.eqb_neq. intros <-. contradiction.
Qed.

Lemma match_at_main_element (before inner name post : jsstring) :
  ~ In 62%N before -> ~ In 60%N inner -> name <> [] -> ~ In 62%N name ->
  match_at main_id_pattern (main_element before inner name ++ post)
  = Some (post, [Some inner]).
Proof.
  intros Hb Hi Hn Hn2.
  unfold match_at. rewrite main_id_pattern_eq. cbn [tree fl ngroups repeat].
  unfold main_element. rewrite <- !app_assoc. eval_js.
  rewrite m_seq_char_ok by reflexivity.
  rewrite m_seq_star.
  apply greedy_class_pick; [now apply not_gt_run|].
  change (105 :: 100 :: 61 :: 34 :: 109 :: 97 :: 105 :: 110 :: 34 :: 62
            :: inner ++ 60 :: 47 :: name ++ 62 :: post)%N
    with (105%N :: ([100; 61; 34; 109; 97; 105; 110; 34]%N
                      ++ 62%N :: inner ++ 60%N :: 47%N :: name ++ 62%N :: post)).
  rewrite greedy_class_here.
  2:{ apply greedy_class_none.
      - rewrite greedy_class_stop by reflexivity.
        apply m_chars_prefix. reflexivity.
      - simpl. repeat split; apply m_chars_prefix; reflexivity. }
  change (105%N :: ([100; 61; 34; 109; 97; 105; 110; 34]%N
                      ++ 62%N :: inner ++ 60%N :: 47%N :: name ++ 62%N :: post))
    with ([105; 100; 61; 34; 109; 97; 105; 110; 34]%N
            ++ 62%N :: inner ++ 60%N :: 47%N :: name ++ 62%N :: post).
  rewrite m_chars_same.
  rewrite m_seq_star.
  rewrite greedy_class_stop by reflexivity.
  rewrite m_seq_char_ok by reflexivity.
  rewrite m_seq_group_lazy.
  rewrite lazy_class_skip.
  2:{ apply Forall_forall. intros x Hx. split; [apply class_everything|].
      intros s'. apply m_chars_prefix. cbn [prefix_canon].
      rewrite (canon_nonletter flags_i) by reflexivity.
      replace (60 =? x)%N with false; [reflexivity|].
      symmetry. apply N.eqb_neq. intros <-. contradiction. }
  apply lazy_class_here.
  rewrite consumed_app.
  change (60 :: 47 :: name ++ 62 :: post)%N
    with ([60; 47]%N ++ name ++ 62%N :: post).
  rewrite m_chars_same.
  rewrite m_seq_plus.
  destruct name as [|n name]; [contradiction|].
  rewrite <- app_comm_cons. unfold plus_class.
  assert (Hrun := not_gt_run _ Hn2). inversion Hrun as [|? ? Hn0 Hrest]; subst.
  rewrite Hn0.
  apply greedy_class_pick; [exact Hrest|].
  rewrite greedy_class_stop by reflexivity.
  now rewrite m_char_ok by reflexivity.
Qed.

Lemma match_at_main_other (x : char16) (t : jsstring) :
  x <> 60%N -> match_at main_id_pattern (x :: t) = None.
Proof.
  intros Hx. unfold match_at. rewrite main_id_pattern_eq.
  cbn [tree fl ngroups repeat].
  apply m_seq_char_fail. rewrite canon_nonletter by reflexivity.
  apply N.eqb_neq. congruence.
Qed.

Lemma match_at_main_nil : match_at main_id_pattern [] = None.
Proof. reflexivity. Qed.

Lemma no_lt_no_match (s : jsstring) :
  ~ In 60%N s ->
  Forall (fun x => forall t, match_at main_id_pattern (x :: t) = None) s.
Proof.
  intros H. apply Forall_forall. intros x Hx t.
  apply match_at_main_other. intros ->. contradiction.
Qed.

Lemma candidate_main (html : jsstring) :
  candidate html (js "#main")
  = match match_all main_id_pattern html with
    | Some (x :: l) => join NL (x :: l)
    | _ =>
        WebRead.first_matches html
          [match_all (literal (js "<[^>]*id='main'[^>]*>([\s\S]*?)<\/[^>]+>") flags_gi eq_refl)]
    end.
Proof. reflexivity. Qed.

Lemma main_element_nonempty (before inner name : jsstring) :
  main_element before inner name <> [].
Proof. unfold main_element. eval_js. discriminate. Qed.

(** On a page that is plain text around one element with the id, the
    selector [#main] gives that element whole: its opening tag, its content
    and its closing tag. *)
Lemma extractBySelector_main (P : platform) (pre before inner name post : jsstring) :
  ~ In 60%N pre -> ~ In 62%N before -> ~ In 60%N inner ->
  name <> [] -> ~ In 62%N name -> ~ In 60%N post ->
  WebRead.extractBySelector P (pre ++ main_element before inner name ++ post)
    (js "#main")
  = Normal (main_element before inner name).
Proof.
  intros Hpre Hb Hi Hn Hn2 Hpost.
  unfold WebRead.extractBySelector.
  rewrite compile_all_ok by (vm_compute; reflexivity).
  fold (candidate (pre ++ main_element before inner name ++ post) (js "#main")).
  rewrite candidate_main. unfold match_all.
  rewrite match_walk_pass by now apply no_lt_no_match.
  pose proof (@match_at_main_element before inner name post Hb Hi Hn Hn2) as Hm.
  destruct (main_element before inner name ++ post) as [|x s] eqn:Es.
  { apply app_eq_nil in Es as [Es _]. now apply main_element_nonempty in Es. }
  rewrite (@match_walk_match _ x s (main_element before inner name) post
             [Some inner] Hm (eq_sym Es) (@main_element_nonempty _ _ _)).
  rewrite match_walk_nothing;
    [reflexivity | now apply no_lt_no_match | exact match_at_main_nil].
Qed.

(** When the page is fetched at the first attempt and the extraction for
    the selector is empty, the operation ends with the selector-not-found
    error, after that one network call. *)
Lemma execute_selector_not_found (P : platform) (url : jsstring)
    (format : option WebRead.Format) (x : char16) (sel html : jsstring)
    (w : world) (response : Response) :
  (newURL P url = Some (js "http:") \/ newURL P url = Some (js "https:")) ->
  net P (calls w) url = Normal response ->
  ok response = true ->
  includes (match contentType response with Some t => t | None => [] end)
           (js "text/html") = true ->
  body response = Normal html ->
  WebRead.extractBySelector P html (x :: sel) = Normal [] ->
  let out := WebRead.execute P url format (Some (x :: sel)) w in
  exists r,
    fst out = Normal r
    /\ WebRead.r_text r
       = js "Failed to read URL: " ++ js "No content found matching selector: "
         ++ x :: sel
    /\ WebRead.isError r = true
    /\ fetches (log (snd out)) = fetches (log w) + 1.
Proof.
  intros Hurl Hnet Hok Htype Hbody Hnone out. subst out.
  assert (H429 : status response <> 429%N).
  { unfold ok in Hok. apply andb_true_iff in Hok as [_ Hle].
    apply N.leb_le in Hle. lia. }
  destruct (@retry_loop_first_answer P url 3 0 3 0 None w response)
    as (w' & Hrun & _ & Hf); try (rewrite ?Nat.add_0_r; assumption);
    [lia | intros j Hj; lia |].
  unfold WebRead.execute, WebRead.execute_try.
  assert (Hproto : exists protocol,
             newURL P url = Some protocol
             /\ (str_eqb protocol (js "http:") || str_eqb protocol (js "https:")) = true).
  { destruct Hurl as [-> | ->]; eexists; split; reflexivity. }
  destruct Hproto as (protocol & -> & ->). cbn [negb].
  fold (fetchWithRetry P url 3) in Hrun.
  unfold bind, lift, ret, throw. rewrite Hrun.
  rewrite Hok. cbn [negb]. rewrite Htype. cbn [negb andb].
  rewrite Hbody, Hnone.
  cbn [WebRead.is_empty fst snd].
  change (named (Obj (mkError (js "No content found matching selector: " ++ x :: sel)))
            (js "AbortError")) with false.
  cbn [fst snd message_text message mkError].
  eexists. split; [reflexivity|]. cbn [WebRead.r_text WebRead.isError].
  repeat split. rewrite Hf. lia.
Qed.

Ltac not_in := cbv; intuition discriminate.

(** C3, at the inputs on which it fails.  The page holds one element with
    the id main.  The extraction for [#main] is the whole match of the
    pattern, not its group: it starts with the opening tag of the element,
    and it ends with the first closing tag after it, whichever element
    that closes.  For an element without children that is the element
    with its own tags; for an element with two children it stops after the
    first child, and the operation answers without the text of the
    second. *)
Theorem extractBySelector_whole_match :
  let open := js "<div id=" ++ DQ ++ js "main" ++ DQ ++ js ">" in
  let page := open ++ js "<h1>Title</h1><p>Body</p></div>" in
  let P := Sample.host [Sample.answer 200 "text/html" page] in
  WebRead.extractBySelector P (open ++ js "Hello</div>") (js "#main")
  = Normal (open ++ js "Hello</div>")
  /\ WebRead.extractBySelector P page (js "#main")
     = Normal (open ++ js "<h1>Title</h1>")
  /\ exists r,
       fst (WebRead.execute P (js "https://example.com/") None
              (Some (js "#main")) world0) = Normal r
       /\ WebRead.r_text r
          = js "# Title" ++ NL ++ NL ++ js "Source: https://example.com/"
            ++ NL ++ NL ++ js "# Title"
       /\ includes (WebRead.r_text r) (js "Body") = false.
Proof.
  vm_compute. split; [reflexivity|]. split; [reflexivity|].
  eexists. repeat split.
Qed.

(* ================================================================== *)
(** * Result anchors *)
(* ================================================================== *)

Lemma last_tail (y : char16) (u : jsstring) :
  last (y :: u) 0%N <> 61%N -> last u 0%N <> 61%N.
Proof. destruct u; [discriminate | exact (fun H => H)]. Qed.

Lemma prefix_canon_quoted (fl : flags) (l0 u t : jsstring) :
  forallb (fun a => negb (N.eqb (canon fl a) (canon fl 34%N))) l0 = true ->
  ~ In 34%N u -> last u 0%N <> 61%N ->
  prefix_canon fl (l0 ++ [61; 34]%N) (u ++ 34%N :: t) = false.
Proof.
  revert u. induction l0 as [|a l0 IH]; intros u Hl Hq He.
  - destruct u as [|y [|y2 u]]; cbn [app prefix_canon];
      rewrite ?(canon_nonletter fl 61%N) by reflexivity;
      rewrite ?(canon_nonletter fl 34%N) by reflexivity.
    + reflexivity.
    + replace (61 =? y)%N with false; [reflexivity|].
      symmetry. apply N.eqb_neq. intros <-. now apply He.
    + replace (34 =? y2)%N with false; [apply andb_false_r|].
      symmetry. apply N.eqb_neq. intros <-. apply Hq. right. now left.
  - cbn [forallb] in Hl. apply andb_true_iff in Hl as [Ha Hl].
    apply negb_true_iff in Ha.
    destruct u as [|y u].
    + cbn [app prefix_canon]. now rewrite Ha.
    + cbn [app prefix_canon].
      rewrite IH; [apply andb_false_r | exact Hl | | now apply last_tail in He].
      intros Hin. apply Hq. now right.
Qed.

Lemma fails_within_quoted (fl : flags) (l0 : jsstring) (r : regex) (k : cont)
    (c : captures) (u t : jsstring) :
  forallb (fun a => negb (N.eqb (canon fl a) (canon fl 34%N))) l0 = true ->
  ~ In 34%N u -> last u 0%N <> 61%N ->
  fails_within (fun s' c' => m fl (chars (l0 ++ [61; 34]%N) r) s' c' k) c u
    (34%N :: t).
Proof.
  intros Hl. induction u as [|y u IH]; intros Hq He; [exact I|].
  cbn [fails_within]. split.
  - apply m_chars_prefix. now apply prefix_canon_quoted.
  - apply IH; [|now apply last_tail in He].
    intros Hin. apply Hq. now right.
Qed.

Lemma not_quote_run (fl : flags) (s : jsstring) :
  ~ In 34%N s ->
  Forall (fun x => class_match fl true [CChar 34%N] x = true) s.
Proof.
  intros H. apply Forall_forall. intros x Hx.
  rewrite class_not_char by reflexivity.
  apply negb_true_iff, N.eqb_neq. intros <-. contradiction.
Qed.

Lemma line_terminator_is_whitespace (x : char16) :
  is_line_terminator x = true -> is_whitespace x = true /\ x <> 32%N.
Proof.
  unfold is_line_terminator, is_whitespace. intros H.
  repeat (apply orb_true_iff in H as [H|H]);
    apply N.eqb_eq in H; subst x; split; (reflexivity || discriminate).
Qed.

Lemma spaced_no_line_terminator (t : jsstring) (x : char16) :
  spaced t -> In x t -> is_line_terminator x = false.
Proof.
  intros Ht Hx. destruct (is_line_terminator x) eqn:E; [|reflexivity].
  apply line_terminator_is_whitespace in E as [Hws Hne].
  now apply (spaced_only_spaces _ _ Ht Hx) in Hws.
Qed.

Lemma resultLinkRegex_eq :
  WebSearch.resultLinkRegex
  = {| tree :=
         chars [60; 97]%N
           (RSeq (RQuant true 0 None (RClass true [CChar 62%N]))
              (chars ([99; 108; 97; 115; 115] ++ [61; 34])%N
                 (RSeq (RQuant true 0 None (RClass true [CChar 34%N]))
                    (chars [114; 101; 115; 117; 108; 116; 95; 95; 97]%N
                       (RSeq (RQuant true 0 None (RClass true [CChar 34%N]))
                          (RSeq (RChar 34%N)
                             (RSeq (RQuant true 0 None (RClass true [CChar 62%N]))
                                (chars ([104; 114; 101; 102] ++ [61; 34])%N
                                   (RSeq (RGroup 1 (RQuant true 1 None
                                                      (RClass true [CChar 34%N])))
                                      (RSeq (RChar 34%N)
                                         (RSeq (RQuant true 0 None
                                                  (RClass true [CChar 62%N]))
                                            (RSeq (RChar 62%N)
                                               (RSeq (RGroup 2 (RQuant false 0 None RAny))
                                                  (chars [60; 47; 97]%N
                                                     (RChar 62%N)))))))))))))));
       ngroups := 2; fl := flags_i |}.
Proof. reflexivity. Qed.

(** Peel the concrete characters off the front of a greedy run at which
    the continuation, a run of literal characters, fails. *)
Ltac peel_failures :=
  first [ rewrite greedy_class_stop by reflexivity;
          cbv beta; apply m_chars_prefix; reflexivity
        | rewrite greedy_class_here;
          [ cbv beta; apply m_chars_prefix; reflexivity | peel_failures ]
        | idtac ].

Lemma match_at_anchor (u t rest : jsstring) :
  well_formed (u, t) ->
  match_at WebSearch.resultLinkRegex (anchor (u, t) ++ rest)
  = Some (rest, [Some u; Some t]).
Proof.
  intros [(Hu & Hq & Hg & He & _) (Ht & Htidy & Hlt & _)].
  cbn [fst snd] in *.
  unfold match_at. rewrite resultLinkRegex_eq. cbn [tree fl ngroups repeat].
  unfold anchor. cbn [fst snd]. rewrite <- !app_assoc. eval_js.
  (* the opening of the tag *)
  change (60 :: 97 :: ?s)%N with ([60; 97]%N ++ s).
  rewrite m_chars_same.
  (* the first run, up to the class attribute *)
  rewrite m_seq_star.
  apply (@greedy_class_pick _ _ _ [32%N]); [repeat constructor|].
  rewrite greedy_class_here.
  2:{ peel_failures. apply greedy_class_none.
      - peel_failures.
      - now apply (@fails_within_quoted flags_i [99; 108; 97; 115; 115]%N). }
  cbv beta.
  change (99 :: 108 :: 97 :: 115 :: 115 :: 61 :: 34 :: ?s)%N
    with (([99; 108; 97; 115; 115] ++ [61; 34])%N ++ s).
  rewrite m_chars_same.
  (* the run inside the class value, up to result__a *)
  rewrite m_seq_star.
  rewrite greedy_class_here.
  2:{ peel_failures. }
  cbv beta.
  change (114 :: 101 :: 115 :: 117 :: 108 :: 116 :: 95 :: 95 :: 97 :: ?s)%N
    with ([114; 101; 115; 117; 108; 116; 95; 95; 97]%N ++ s).
  rewrite m_chars_same.
  (* the rest of the class value and its closing quote *)
  rewrite m_seq_star.
  rewrite greedy_class_stop by reflexivity.
  rewrite m_seq_char_ok by reflexivity.
  (* the run up to the href attribute *)
  rewrite m_seq_star.
  apply (@greedy_class_pick _ _ _ [32%N]); [repeat constructor|].
  rewrite greedy_class_here.
  2:{ peel_failures. apply greedy_class_none.
      - peel_failures.
      - now apply (@fails_within_quoted flags_i [104; 114; 101; 102]%N). }
  cbv beta.
  change (104 :: 114 :: 101 :: 102 :: 61 :: 34 :: ?s)%N
    with (([104; 114; 101; 102] ++ [61; 34])%N ++ s).
  rewrite m_chars_same.
  (* the first group: the destination, and its closing quote *)
  rewrite m_seq_group_plus.
  destruct u as [|y u]; [contradiction|].
  rewrite <- app_comm_cons. unfold plus_class.
  assert (Hrun := not_quote_run flags_i _ Hq).
  inversion Hrun as [|? ? Hy Hrest]; subst. rewrite Hy.
  apply greedy_class_pick; [exact Hrest|].
  rewrite greedy_class_stop by reflexivity.
  rewrite (app_comm_cons u _ y), consumed_app.
  rewrite m_seq_char_ok by reflexivity.
  (* the end of the opening tag *)
  rewrite m_seq_star.
  rewrite greedy_class_stop by reflexivity.
  rewrite m_seq_char_ok by reflexivity.
  (* the second group: the title, up to the closing tag *)
  rewrite m_seq_group_lazy_any.
  rewrite lazy_class_skip.
  2:{ apply Forall_forall. intros x Hx. split.
      - unfold any_match. cbn [dotAll flags_i orb].
        now rewrite (spaced_no_line_terminator _ _ (tidy_spaced Htidy) Hx).
      - intros s'. apply m_chars_prefix. cbn [prefix_canon].
        rewrite (canon_nonletter flags_i) by reflexivity.
        replace (60 =? x)%N with false; [reflexivity|].
        symmetry. apply N.eqb_neq. intros <-. contradiction. }
  apply lazy_class_here.
  rewrite consumed_app.
  change (60 :: 47 :: 97 :: 62 :: rest)%N with ([60; 47; 97]%N ++ 62%N :: rest).
  rewrite m_chars_same.
  now rewrite m_char_ok by reflexivity.
Qed.

Section Absent.

Variables (re : regexp) (f : replacer) (a : char16) (r : regex).

Hypothesis Htree : tree re = RSeq (RChar a) r.
Hypothesis Ha : nonletter a = true.

Lemma match_at_first_char (x : char16) (t : jsstring) :
  x <> a -> match_at re (x :: t) = None.
Proof.
  intros Hx. unfold match_at. rewrite Htree.
  apply m_seq_char_fail. rewrite canon_nonletter by exact Ha.
  apply N.eqb_neq. congruence.
Qed.

Lemma match_at_nil_char : match_at re [] = None.
Proof. unfold match_at. now rewrite Htree. Qed.

(** Replacing leaves a text as it is when the first character of the
    pattern does not occur in it. *)
Lemma replace_absent (s : jsstring) : ~ In a s -> replace re f s = s.
Proof.
  induction s as [|x s IH]; intros H.
  - apply replace_nil, match_at_nil_char.
  - rewrite replace_nomatch.
    + rewrite IH; [reflexivity|]. intros Hin. apply H. now right.
    + apply match_at_first_char. intros ->. apply H. now left.
Qed.

End Absent.

Lemma remove_tags_plain (t : jsstring) : ~ In 60%N t -> remove_tags t = t.
Proof.
  apply (@replace_absent _ _ 60%N
           (RSeq (RQuant true 1 None (RClass true [CChar 62%N])) (RChar 62%N)));
    reflexivity.
Qed.

Lemma replace_absent_char (re : regexp) (f : replacer) (a : char16) (t : jsstring) :
  (exists r, tree re = RSeq (RChar a) r) ->
  nonletter a = true ->
  ~ In a t ->
  replace re f t = t.
Proof. intros [r Hr] Ha Ht. exact (@replace_absent re f a r Hr Ha t Ht). Qed.

Lemma search_entities_plain (t : jsstring) : ~ In 38%N t -> search_entities t = t.
Proof.
  intros H. unfold search_entities. cbv zeta.
  rewrite (@replace_absent_char (literal (js "&amp;") flags_g eq_refl) _ 38%N t);
    [|eexists; reflexivity|reflexivity|exact H].
  rewrite (@replace_absent_char (literal (js "&lt;") flags_g eq_refl) _ 38%N t);
    [|eexists; reflexivity|reflexivity|exact H].
  rewrite (@replace_absent_char (literal (js "&gt;") flags_g eq_refl) _ 38%N t);
    [|eexists; reflexivity|reflexivity|exact H].
  rewrite (@replace_absent_char (literal (js "&quot;") flags_g eq_refl) _ 38%N t);
    [|eexists; reflexivity|reflexivity|exact H].
  rewrite (@replace_absent_char (literal (js "&#39;") flags_g eq_refl) _ 38%N t);
    [|eexists; reflexivity|reflexivity|exact H].
  apply (@replace_absent_char _ _ 38%N t);
    [eexists; reflexivity|reflexivity|exact H].
Qed.

Lemma after_span_stays (p : char16 -> bool) (s : jsstring) :
  match s with x :: _ => p x = false | [] => True end ->
  after_span p s = s.
Proof. destruct s as [|x s]; simpl; [reflexivity|]. now intros ->. Qed.

Lemma collapse_plain (t : jsstring) : spaced t -> collapse t = t.
Proof.
  induction t as [|x t IH]; [reflexivity|].
  cbn [spaced]. intros [Hx Ht].
  destruct (is_whitespace x) eqn:E.
  - destruct (Hx eq_refl) as [-> Hnext].
    rewrite (collapse_space _ _ E).
    rewrite after_span_stays by exact Hnext. now rewrite IH.
  - rewrite (collapse_other _ _ E). now rewrite IH.
Qed.

Lemma trimStart_plain (t : jsstring) :
  (forall c, hd_error t = Some c -> is_whitespace c = false) ->
  trimStart t = t.
Proof.
  destruct t as [|x t]; [reflexivity|]. intros H. simpl.
  now rewrite (H x eq_refl).
Qed.

Lemma trim_plain (t : jsstring) : tidy t -> trim t = t.
Proof.
  intros (_ & Hhead & Hlast). unfold trim, trimEnd.
  rewrite (trimStart_plain _ Hhead).
  rewrite (trimStart_plain _ Hlast). apply rev_involutive.
Qed.

Lemma title_plain (t : jsstring) :
  plain_title t -> trim (WebSearch.stripTags t) = t.
Proof.
  intros (_ & Htidy & Hlt & Hamp).
  rewrite stripTags_steps.
  rewrite (remove_tags_plain _ Hlt), (search_entities_plain _ Hamp).
  rewrite (collapse_plain _ (tidy_spaced Htidy)).
  now rewrite !(trim_plain Htidy).
Qed.

Lemma startsWith_in (p s : jsstring) (c : char16) :
  startsWith s p = true -> In c p -> In c s.
Proof.
  revert s. induction p as [|x p IH]; intros s H Hc; [contradiction|].
  destruct s as [|y s]; [discriminate|]. cbn [startsWith] in H.
  apply andb_true_iff in H as [Hxy H]. apply N.eqb_eq in Hxy. subst y.
  destruct Hc as [<-|Hc]; [now left | right; now apply IH].
Qed.

Lemma includes_in (s p : jsstring) (c : char16) :
  includes s p = true -> In c p -> In c s.
Proof.
  induction s as [|y s IH]; cbn [includes]; intros H Hc.
  - rewrite orb_false_r in H. now apply (startsWith_in _ _ _ H).
  - apply orb_true_iff in H as [H|H];
      [now apply (startsWith_in _ _ _ H) | right; now apply IH].
Qed.

Lemma actual_url_plain (u : jsstring) :
  includes u (js "uddg=") = false -> WebSearch.actual_url u = Some u.
Proof. intros H. unfold WebSearch.actual_url. now rewrite H. Qed.

Lemma organic_plain (u t : jsstring) :
  well_formed (u, t) -> WebSearch.organic u t = true.
Proof.
  intros [(Hu & _ & _ & _ & _ & Hrel & Hddg) (Ht & _)]. cbn [fst snd] in *.
  unfold WebSearch.organic. rewrite Hrel, Hddg.
  destruct u; [contradiction|]. destruct t; [contradiction|]. reflexivity.
Qed.

Lemma search_here (re : regexp) (s rest : jsstring) (caps : captures) :
  match_at re s = Some (rest, caps) ->
  search re s = Some (consumed s rest, caps, rest).
Proof. destruct s; simpl; now intros ->. Qed.

Lemma length_lt_10 (n : nat) :
  WebSearch.length_lt n (WebSearch.Finite 10) = (n <? 10).
Proof.
  unfold WebSearch.length_lt, Qle_bool. cbn [Qnum Qden inject_Z].
  destruct (n <? 10) eqn:E.
  - apply Nat.ltb_lt in E. apply negb_true_iff, Z.leb_gt. lia.
  - apply Nat.ltb_ge in E. apply negb_false_iff, Z.leb_le. lia.
Qed.

Lemma mem_false (c : char16) (s : jsstring) : mem c s = false -> ~ In c s.
Proof.
  unfold mem. intros H Hin.
  assert (existsb (N.eqb c) s = true); [|congruence].
  apply existsb_exists. exists c. split; [exact Hin | apply N.eqb_refl].
Qed.

Lemma spaced_b_ok (s : jsstring) : spaced_b s = true -> spaced s.
Proof.
  induction s as [|a t IH]; [exact (fun _ => I)|].
  cbn [spaced_b spaced]. intros H.
  apply andb_true_iff in H as [H1 H2]. split; [|now apply IH].
  intros Hws. rewrite Hws in H1. cbn [negb orb] in H1.
  apply andb_true_iff in H1 as [Ha Hb]. apply N.eqb_eq in Ha.
  split; [exact Ha|]. destruct t; [exact I | now apply negb_true_iff].
Qed.

Lemma starts_clean_ok (s : jsstring) (c : char16) :
  starts_clean s = true -> hd_error s = Some c -> is_whitespace c = false.
Proof.
  destruct s; cbn [starts_clean hd_error]; [discriminate|].
  intros H E. injection E as <-. now apply negb_true_iff.
Qed.

Lemma tidy_b_ok (s : jsstring) : tidy_b s = true -> tidy s.
Proof.
  unfold tidy_b, tidy. intros H.
  apply andb_true_iff in H as [H H3]. apply andb_true_iff in H as [H1 H2].
  split; [now apply spaced_b_ok|].
  split; intros c; now apply starts_clean_ok.
Qed.

Lemma well_formed_b_ok (ut : jsstring * jsstring) :
  well_formed_b ut = true -> well_formed ut.
Proof.
  destruct ut as [u t]. unfold well_formed_b, well_formed, plain_url, plain_title.
  cbn [fst snd]. intros H.
  repeat (apply andb_true_iff in H as [H ?]).
  repeat match goal with
         | H : negb _ = true |- _ => apply negb_true_iff in H
         end.
  repeat split; try (now apply mem_false); try assumption;
    try (now apply N.eqb_neq); try (intros ->; discriminate);
    match goal with
    | Ht : tidy_b _ = true |- _ => apply tidy_b_ok in Ht; apply Ht
    end.
Qed.

Lemma search_link_nil : search WebSearch.resultLinkRegex [] = None.
Proof. reflexivity. Qed.

Lemma anchor_nonempty (ut : jsstring * jsstring) : anchor ut <> [].
Proof. unfold anchor. eval_js. discriminate. Qed.

Lemma results_page_length (items : list (jsstring * jsstring)) :
  List.length items <= List.length (results_page items).
Proof.
  induction items as [|ut items IH]; [apply Nat.le_0_l|].
  unfold results_page in *. cbn [map concat List.length].
  rewrite length_app.
  pose proof (@anchor_nonempty ut) as Hne.
  destruct (anchor ut); [contradiction|]. cbn [List.length].
  unfold jsstring, char16 in *. lia.
Qed.

Section Anchors.

Import WebSearch.

Variable P : platform.

Lemma link_loop_page (items : list (jsstring * jsstring)) :
  Forall well_formed items ->
  forall fuel acc,
    List.length items < fuel ->
    link_loop P resultLinkRegex (Finite 10) fuel (results_page items) acc
    = Some (Normal (acc ++ firstn (10 - List.length acc) items)).
Proof.
  induction 1 as [|[u t] items Hut _ IH]; intros fuel acc Hfuel;
    (destruct fuel as [|fuel]; [inversion Hfuel|]); cbn [link_loop].
  - change (results_page []) with (@nil char16). rewrite search_link_nil.
    rewrite firstn_nil. now rewrite app_nil_r.
  - change (results_page ((u, t) :: items))
      with (anchor (u, t) ++ results_page items).
    rewrite (search_here _ _ (match_at_anchor (results_page items) Hut)).
    rewrite length_lt_10.
    destruct (List.length acc <? 10) eqn:E.
    + apply Nat.ltb_lt in E.
      change (grp 2 [Some u; Some t]) with t.
      change (grp 1 [Some u; Some t]) with u.
      rewrite (@title_plain t (proj2 Hut)).
      rewrite (@actual_url_plain u) by apply Hut.
      rewrite (organic_plain Hut).
      rewrite IH by (cbn [List.length] in Hfuel; lia).
      rewrite length_app. cbn [List.length].
      replace (10 - List.length acc) with (S (10 - (List.length acc + 1))) by lia.
      cbn [firstn]. now rewrite <- app_assoc.
    + apply Nat.ltb_ge in E.
      replace (10 - List.length acc) with 0 by lia.
      cbn [firstn]. now rewrite app_nil_r.
Qed.

Lemma combine_loop_url_title (snippets : list jsstring) :
  forall rest i results,
    List.length results + List.length rest <= 10 ->
    map url_title (combine_loop (Finite 10) snippets rest i results)
    = map url_title results ++ rest.
Proof.
  induction rest as [|[u t] rest IH]; intros i results Hlen; cbn [combine_loop].
  - now rewrite app_nil_r.
  - rewrite length_lt_10.
    replace (List.length results <? 10) with true
      by (symmetry; apply Nat.ltb_lt; cbn [List.length] in Hlen; lia).
    rewrite IH by (rewrite length_app; cbn [List.length] in *; lia).
    rewrite map_app. cbn [map url_title url title]. now rewrite <- app_assoc.
Qed.

(** A page of well-formed result anchors parses, with the cap at 10, to
    its first ten anchors in their order. *)
Lemma parseDDGResults_page (items : list (jsstring * jsstring)) :
  items <> [] ->
  Forall well_formed items ->
  exists results,
    parseDDGResults P (results_page items) (Finite 10) = Some (Normal results)
    /\ map url_title results = firstn 10 items.
Proof.
  intros Hne Hwf. unfold parseDDGResults, parseDDGResults_fuel.
  assert (Htest : test resultLinkRegex (results_page items) = true).
  { destruct items as [|[u t] items]; [contradiction|].
    inversion Hwf as [|? ? Hut _]; subst.
    change (results_page ((u, t) :: items))
      with (anchor (u, t) ++ results_page items).
    unfold test.
    now rewrite (search_here _ _ (match_at_anchor (results_page items) Hut)). }
  rewrite Htest.
  rewrite (link_loop_page Hwf)
    by (pose proof (results_page_length items); lia).
  cbn [app List.length]. rewrite Nat.sub_0_r.
  destruct (@snippet_loop_total
              (if test snippetRegex (results_page items)
               then snippetRegex else snippetRegex2)
              (Finite 10)
              ltac:(destruct (test snippetRegex (results_page items)); reflexivity)
              (S (List.length (results_page items))) (results_page items) []
              (Nat.lt_succ_diag_r _))
    as [snippets ->].
  eexists. split; [reflexivity|].
  rewrite combine_loop_url_title; [reflexivity|].
  cbn [List.length]. rewrite length_firstn. lia.
Qed.

End Anchors.

Lemma Forall_well_formed (l : list (jsstring * jsstring)) :
  forallb well_formed_b l = true -> Forall well_formed l.
Proof.
  intros H. apply Forall_forall. intros ut Hin.
  apply well_formed_b_ok. rewrite forallb_forall in H. now apply H.
Qed.

(** A page in the provider's own shape: a sponsored link with a relative
    href, a link back to the provider, an anchor without text, and two
    organic results behind the redirector. *)
Example parseDDGResults_filters :
  option_map
    (fun c => match c with
              | Normal results => map url_title results
              | Throw _ => []
              end)
    (WebSearch.parseDDGResults (Sample.host [])
       (results_page
          [ (js "/y.js?ad_provider=x", js "Sponsored");
            (js "https://duckduckgo.com/about", js "About");
            (js "//duckduckgo.com/l/?uddg=https%3A%2F%2Fexample.com&rut=0a1b",
             js "Example <b>Domain</b>");
            (js "https://example.org/empty", js "<b></b>");
            (js "//duckduckgo.com/l/?uddg=https%3A%2F%2Fexample.net%2Fa%20b",
             js "Second") ])
       (WebSearch.Finite 10))
  = Some [ (js "https://example.com", js "Example Domain");
           (js "https://example.net/a b", js "Second") ].
Proof. vm_compute. reflexivity. Qed.

(** The candidate written [role="main"] is handed to extractBySelector
    like an element name, so the pattern reads it as a character class. *)
Example role_main_candidate :
  candidate (js "<div role=" ++ DQ ++ js "main" ++ DQ ++ js ">text</div>")
            (js "[role=" ++ DQ ++ js "main" ++ DQ ++ js "]") = []
  /\ candidate (js "<p>see <a>this</a></p>")
              (js "[role=" ++ DQ ++ js "main" ++ DQ ++ js "]") = js "<a>this</a>".
Proof. split; vm_compute; reflexivity. Qed.

(** The fallbacks of the locator on small pages. *)
Example extractMainContent_fallbacks :
  WebRead.extractMainContent (Sample.host [])
    (js "<html><body class=x><article>short</article></body></html>")
  = Normal (js "<article>short</article>")
  /\ WebRead.extractMainContent (Sample.host []) (js "<p>no body here</p>")
     = Normal (js "<p>no body here</p>").
Proof. split; vm_compute; reflexivity. Qed.

(* ================================================================== *)
(** * The trace of the resilient fetcher *)
(* ================================================================== *)

Lemma fetches_cons_fetch (u : jsstring) (l : list event) :
  fetches (Fetched u :: l) = S (fetches l).
Proof. reflexivity. Qed.

Lemma fetches_cons_wait (q : Q) (l : list event) :
  fetches (Waited q :: l) = fetches l.
Proof. reflexivity. Qed.

Lemma waits_cons_fetch (u : jsstring) (l : list event) :
  waits (Fetched u :: l) = waits l.
Proof. reflexivity. Qed.

Lemma waits_cons_wait (q : Q) (l : list event) :
  waits (Waited q :: l) = q :: waits l.
Proof. reflexivity. Qed.

Ltac trace_arith :=
  rewrite ?fetches_cons_fetch, ?fetches_cons_wait, ?waits_cons_fetch,
    ?waits_cons_wait; cbn [List.length]; lia.

Lemma retry_loop_trace (P : platform) (url : jsstring) (maxRetries : nat) :
  forall togo attempt lastError w,
    exists evs,
      log (snd (retry_loop P url maxRetries togo attempt lastError w)) = log w ++ evs
      /\ fetches evs <= togo
      /\ Forall (only_url url) evs
      /\ calls (snd (retry_loop P url maxRetries togo attempt lastError w))
         = calls w + fetches evs
      /\ List.length (waits evs) <= fetches evs.
Proof.
  induction togo as [|togo IH]; intros attempt lastError w.
  - exists []. cbn. rewrite app_nil_r. repeat split; auto.
  - cbn [retry_loop]. unfold fetch.
    destruct (net P (calls w) url) as [response|error].
    + destruct (status response =? 429)%N.
      * unfold bind, Math_random, sleep. cbn [calls draws log].
        match goal with
        | |- context [retry_loop P url maxRetries togo ?a ?l ?w1] =>
            destruct (IH a l w1) as (evs & Hlog & Hn & Hall & Hcalls & Hw)
        end.
        cbn [log calls] in Hlog, Hcalls.
        exists (Fetched url :: Waited (rate_limit_wait attempt (random P (draws w))) :: evs).
        rewrite Hlog, Hcalls. rewrite <- !app_assoc. cbn [app].
        repeat split.
        -- trace_arith.
        -- repeat constructor; assumption.
        -- trace_arith.
        -- trace_arith.
      * exists [Fetched url]. cbn [snd log calls]. repeat split.
        -- cbv. lia.
        -- repeat constructor.
        -- cbv [fetches filter List.length]. lia.
        -- cbv. lia.
    + unfold bind.
      destruct (attempt <? maxRetries - 1).
      * unfold sleep. cbn [calls draws log].
        match goal with
        | |- context [retry_loop P url maxRetries togo ?a ?l ?w1] =>
            destruct (IH a l w1) as (evs & Hlog & Hn & Hall & Hcalls & Hw)
        end.
        cbn [log calls] in Hlog, Hcalls.
        exists (Fetched url :: Waited (error_wait attempt) :: evs).
        rewrite Hlog, Hcalls. rewrite <- !app_assoc. cbn [app].
        repeat split.
        -- trace_arith.
        -- repeat constructor; assumption.
        -- trace_arith.
        -- trace_arith.
      * unfold ret. cbn [calls draws log].
        match goal with
        | |- context [retry_loop P url maxRetries togo ?a ?l ?w1] =>
            destruct (IH a l w1) as (evs & Hlog & Hn & Hall & Hcalls & Hw)
        end.
        cbn [log calls] in Hlog, Hcalls.
        exists (Fetched url :: evs).
        rewrite Hlog, Hcalls. rewrite <- !app_assoc. cbn [app].
        repeat split.
        -- trace_arith.
        -- repeat constructor; assumption.
        -- trace_arith.
        -- trace_arith.
Qed.

(** X1.  Whatever the network does, fetchWithRetry only adds to the log,
    makes at most maxRetries calls, all of them to the address it was
    given, and never waits more often than it has fetched. *)
Theorem fetchWithRetry_bounded (P : platform) (url : jsstring)
    (maxRetries : nat) (w : world) :
  let run := fetchWithRetry P url maxRetries w in
  exists evs,
    log (snd run) = log w ++ evs
    /\ fetches evs <= maxRetries
    /\ Forall (only_url url) evs
    /\ calls (snd run) = calls w + fetches evs
    /\ List.length (waits evs) <= fetches evs.
Proof. apply retry_loop_trace. Qed.

Lemma retry_loop_all_errors (P : platform) (url : jsstring) (maxRetries : nat)
    (errs : nat -> thrown) :
  forall togo attempt lastError w,
    attempt + togo = maxRetries ->
    (forall j, j < togo -> net P (calls w + j) url = Throw (errs (attempt + j))) ->
    let run := retry_loop P url maxRetries togo attempt lastError w in
    fst run
    = Throw (or_max_retries
               match togo with
               | 0 => lastError
               | S _ => Some (errs (maxRetries - 1))
               end)
    /\ waits (log (snd run))
       = waits (log w) ++ map error_wait (seq attempt (togo - 1))
    /\ fetches (log (snd run)) = fetches (log w) + togo
    /\ draws (snd run) = draws w.
Proof.
  induction togo as [|togo IH]; intros attempt lastError w Hn Hnet.
  - cbn. rewrite app_nil_r, Nat.add_0_r. auto.
  - assert (Hnet0 : net P (calls w) url = Throw (errs attempt)).
    { specialize (Hnet 0 ltac:(lia)). now rewrite !Nat.add_0_r in Hnet. }
    cbv zeta. cbn [retry_loop]. unfold fetch. rewrite Hnet0.
    unfold bind.
    assert (Hnext : forall w1, calls w1 = S (calls w) ->
              forall j, j < togo ->
                net P (calls w1 + j) url = Throw (errs (S attempt + j))).
    { intros w1 Hw1 j Hj. rewrite Hw1.
      replace (S (calls w) + j) with (calls w + S j) by lia.
      replace (S attempt + j) with (attempt + S j) by lia.
      apply Hnet. lia. }
    destruct togo as [|togo].
    + replace (attempt <? maxRetries - 1) with false
        by (symmetry; apply Nat.ltb_ge; lia).
      unfold ret. cbn [retry_loop throw fst snd log draws seq map Nat.sub].
      rewrite waits_app, fetches_snoc_fetch.
      replace (maxRetries - 1) with attempt by lia.
      repeat split; try reflexivity; lia.
    + replace (attempt <? maxRetries - 1) with true
        by (symmetry; apply Nat.ltb_lt; lia).
      unfold sleep. cbn [calls draws log].
      match goal with
      | |- context [retry_loop P url maxRetries (S togo) ?a ?l ?w1] =>
          destruct (IH a l w1 ltac:(lia) (Hnext w1 eq_refl))
            as (Hres & Hwaits & Hfetch & Hdraws)
      end.
      cbn [log draws] in Hwaits, Hfetch, Hdraws.
      rewrite Hres, Hwaits, Hfetch, Hdraws.
      rewrite !waits_app, fetches_snoc_wait, fetches_snoc_fetch.
      cbn [waits flat_map app]. rewrite app_nil_r.
      replace (S (S togo) - 1) with (S togo) by lia.
      replace (S togo - 1) with togo by lia.
      cbn [seq map]. rewrite <- app_assoc. cbn [app].
      repeat split; lia.
Qed.

(** X2.  When every one of the maxRetries calls fails, fetchWithRetry
    throws what the last call threw (not the first), or the error
    [Max retries exceeded] in its place when that value converts to false;
    it has waited 500 ms times a power of two after each call but the
    last, and has drawn no random number. *)
Theorem fetchWithRetry_network_errors (P : platform) (url : jsstring)
    (maxRetries : nat) (w : world) (errs : nat -> thrown) :
  0 < maxRetries ->
  (forall j, j < maxRetries -> net P (calls w + j) url = Throw (errs j)) ->
  let run := fetchWithRetry P url maxRetries w in
  fst run
  = Throw (if falsy (errs (maxRetries - 1))
           then Obj (mkError (js "Max retries exceeded"))
           else errs (maxRetries - 1))
  /\ waits (log (snd run))
     = waits (log w) ++ map error_wait (seq 0 (maxRetries - 1))
  /\ fetches (log (snd run)) = fetches (log w) + maxRetries
  /\ draws (snd run) = draws w
  /\ (error_wait 0 == 500)%Q /\ (error_wait 1 == 1000)%Q.
Proof.
  intros Hpos Hnet.
  destruct (@retry_loop_all_errors P url maxRetries errs maxRetries 0 None w
              eq_refl Hnet) as (Hres & Hrest).
  destruct maxRetries as [|n]; [inversion Hpos|].
  split; [exact Hres|].
  destruct Hrest as (H1 & H2 & H3).
  repeat split; try assumption; reflexivity.
Qed.

Lemma fetchWithRetry_network_errors_witness :
  let P := Sample.host [] in
  let run := fetchWithRetry P (js "https://example.com/") 3 world0 in
  fst run = Throw {| name := js "TypeError"; message := js "fetch failed" |}
  /\ waits (log (snd run)) = [error_wait 0; error_wait 1]
  /\ fetches (log (snd run)) = 3.
Proof.
  pose proof (@fetchWithRetry_network_errors (Sample.host [])
                (js "https://example.com/") 3 world0
                (fun _ => Obj {| name := js "TypeError"; message := js "fetch failed" |})
                ltac:(lia)
                ltac:(intros [|[|[|j]]] Hj; reflexivity))
    as (H1 & H2 & H3 & _).
  repeat split; assumption.
Defined.

Lemma retry_loop_throws (P : platform) (url : jsstring) (maxRetries : nat) :
  forall togo attempt lastError w e,
    fst (retry_loop P url maxRetries togo attempt lastError w) = Throw e ->
    (forall j, j < togo -> retryable (net P (calls w + j) url))
    /\ ((exists j e',
           j < togo /\ net P (calls w + j) url = Throw e'
           /\ e = or_max_retries (Some e')
           /\ forall i, j < i -> i < togo ->
                exists r, net P (calls w + i) url = Normal r)
        \/ ((forall j, j < togo -> exists r, net P (calls w + j) url = Normal r)
            /\ e = or_max_retries lastError)).
Proof.
  induction togo as [|togo IH]; intros attempt lastError w e H.
  - cbn in H. injection H as <-.
    split; [intros j Hj; inversion Hj|].
    right. split; [intros j Hj; inversion Hj | reflexivity].
  - cbn [retry_loop] in H. unfold fetch in H.
    assert (Hshift : forall j, calls w + S j = S (calls w) + j) by (intros; lia).
    destruct (net P (calls w) url) as [response|error] eqn:E0.
    + destruct (status response =? 429)%N eqn:Es; [|discriminate].
      unfold bind, Math_random, sleep in H. cbn [calls draws log] in H.
      apply IH in H. cbn [calls] in H. destruct H as [Hall Hcase].
      split.
      * intros [|j] Hj.
        -- rewrite Nat.add_0_r, E0. now apply N.eqb_eq.
        -- rewrite Hshift. apply Hall. lia.
      * destruct Hcase as [(j & e' & Hj & Hthrow & He & Hlater)|[Hnorm He]].
        -- left. exists (S j), e'. rewrite Hshift.
           split; [lia|]. split; [exact Hthrow|]. split; [exact He|].
           intros [|i] Hi1 Hi2; [inversion Hi1|].
           rewrite Hshift. apply Hlater; lia.
        -- right. split; [|exact He].
           intros [|j] Hj.
           ++ rewrite Nat.add_0_r, E0. now exists response.
           ++ rewrite Hshift. apply Hnorm. lia.
    + assert (H' : fst (retry_loop P url maxRetries togo (S attempt) (Some error)
                          {| calls := S (calls w); draws := draws w;
                             log := log w ++ [Fetched url]
                                    ++ (if attempt <? maxRetries - 1
                                        then [Waited (error_wait attempt)] else []) |})
                   = Throw e
                   \/ fst (retry_loop P url maxRetries togo (S attempt) (Some error)
                             {| calls := S (calls w); draws := draws w;
                                log := (log w ++ [Fetched url])
                                       ++ [Waited (error_wait attempt)] |})
                      = Throw e
                   \/ fst (retry_loop P url maxRetries togo (S attempt) (Some error)
                             {| calls := S (calls w); draws := draws w;
                                log := log w ++ [Fetched url] |})
                      = Throw e).
      { unfold bind in H. destruct (attempt <? maxRetries - 1);
          unfold sleep, ret in H; cbn [calls draws log] in H; auto. }
      assert (Hrec :
                (forall j, j < togo -> retryable (net P (S (calls w) + j) url))
                /\ ((exists j e',
                       j < togo /\ net P (S (calls w) + j) url = Throw e'
                       /\ e = or_max_retries (Some e')
                       /\ forall i, j < i -> i < togo ->
                            exists r, net P (S (calls w) + i) url = Normal r)
                    \/ ((forall j, j < togo ->
                           exists r, net P (S (calls w) + j) url = Normal r)
                        /\ e = or_max_retries (Some error)))).
      { destruct H' as [H'|[H'|H']]; apply IH in H'; exact H'. }
      clear H H'. destruct Hrec as [Hall Hcase].
      split.
      * intros [|j] Hj.
        -- rewrite Nat.add_0_r, E0. exact I.
        -- rewrite Hshift. apply Hall. lia.
      * left. destruct Hcase as [(j & e' & Hj & Hthrow & He & Hlater)|[Hnorm He]].
        -- exists (S j), e'. rewrite Hshift.
           split; [lia|]. split; [exact Hthrow|]. split; [exact He|].
           intros [|i] Hi1 Hi2; [inversion Hi1|].
           rewrite Hshift. apply Hlater; lia.
        -- exists 0, error. rewrite Nat.add_0_r, E0.
           split; [lia|]. split; [reflexivity|]. split; [exact He|].
           intros [|i] Hi1 Hi2; [inversion Hi1|].
           rewrite Hshift. apply Hnorm. lia.
Qed.

(** X3.  fetchWithRetry throws only when all maxRetries calls were used up
    on rate-limit answers and failed calls.  What it throws is what the
    most recent failed call threw (the error [Max retries exceeded]
    instead when that value converts to false), and the error
    [Max retries exceeded] when every call was answered.  It never throws
    null or undefined. *)
Theorem fetchWithRetry_throws (P : platform) (url : jsstring) (maxRetries : nat)
    (w : world) (e : thrown) :
  fst (fetchWithRetry P url maxRetries w) = Throw e ->
  (forall j, j < maxRetries -> retryable (net P (calls w + j) url))
  /\ ((exists j e',
         j < maxRetries /\ net P (calls w + j) url = Throw e'
         /\ e = (if falsy e' then Obj (mkError (js "Max retries exceeded")) else e')
         /\ forall i, j < i -> i < maxRetries ->
              exists r, net P (calls w + i) url = Normal r)
      \/ ((forall j, j < maxRetries ->
             exists r, net P (calls w + j) url = Normal r)
          /\ e = Obj (mkError (js "Max retries exceeded"))))
  /\ e <> Nullish.
Proof.
  intros H. destruct (retry_loop_throws _ _ _ _ _ _ _ H) as [Hall Hcase].
  split; [exact Hall|]. split; [exact Hcase|].
  destruct Hcase as [(j & e' & _ & _ & -> & _)|[_ ->]]; [|discriminate].
  destruct e' as [e0|[|]|]; discriminate.
Qed.

Lemma fetchWithRetry_throws_witness :
  let reset := Obj {| name := js "TypeError"; message := js "reset" |} in
  let P := Sample.host [Throw reset; Sample.answer 429 "text/html" [];
                        Sample.answer 429 "text/html" []] in
  exists j e',
    j < 3 /\ net P (calls world0 + j) (js "https://example.com/") = Throw e'
    /\ reset = (if falsy e' then Obj (mkError (js "Max retries exceeded")) else e')
    /\ forall i, j < i -> i < 3 ->
         exists r, net P (calls world0 + i) (js "https://example.com/") = Normal r.
Proof.
  intros reset P.
  destruct (@fetchWithRetry_throws P (js "https://example.com/") 3 world0 reset
              eq_refl) as (_ & [H|[_ H]] & _).
  - exact H.
  - discriminate H.
Defined.

(* ================================================================== *)
(** * The page-read operation and the network *)
(* ================================================================== *)

Lemma pure_ret {A : Type} (a : A) : pure (ret a).
Proof. intros w. reflexivity. Qed.

Lemma pure_throw {A : Type} (e : thrown) : pure (@throw A e).
Proof. intros w. reflexivity. Qed.

Lemma pure_lift {A : Type} (c : completion A) : pure (lift c).
Proof. intros w. reflexivity. Qed.

Lemma pure_bind {A B : Type} (c : M A) (f : A -> M B) :
  pure c -> (forall a, pure (f a)) -> pure (bind c f).
Proof.
  intros Hc Hf w. unfold bind. specialize (Hc w).
  destruct (c w) as [[a|e] w']; cbn [snd] in Hc; subst w'; [apply Hf | reflexivity].
Qed.

Ltac pure_steps :=
  cbv beta zeta;
  repeat first
    [ apply pure_ret | apply pure_throw | apply pure_lift
    | apply pure_bind; [|intros ?]
    | match goal with
      | |- pure (match ?x with _ => _ end) => destruct x
      end ].

Lemma read_after_fetch_pure (P : platform) (url : jsstring)
    (outputFormat : WebRead.Format) (selector : option jsstring)
    (protocol : jsstring) (w : world) :
  newURL P url = Some protocol ->
  negb (str_eqb protocol (js "http:") || str_eqb protocol (js "https:")) = false ->
  exists k : Response -> M (WebRead.ToolResult WebRead.WebReadToolDetails),
    WebRead.execute_try P url outputFormat selector
    = bind (fetchWithRetry P url 3) k
    /\ forall response, pure (k response).
Proof.
  intros Hurl Hproto. unfold WebRead.execute_try. rewrite Hurl, Hproto.
  eexists. split; [reflexivity|].
  intros response. pure_steps.
Qed.

Lemma read_execute_try_trace (P : platform) (url : jsstring)
    (outputFormat : WebRead.Format) (selector : option jsstring) (w : world) :
  exists evs,
    log (snd (WebRead.execute_try P url outputFormat selector w)) = log w ++ evs
    /\ fetches evs <= 3
    /\ Forall (only_url url) evs.
Proof.
  assert (Hnone : exists evs : list event,
             log w = log w ++ evs /\ fetches evs <= 3 /\ Forall (only_url url) evs).
  { exists []. rewrite app_nil_r. repeat split; [cbv; lia | constructor]. }
  destruct (newURL P url) as [protocol|] eqn:Hurl;
    [|unfold WebRead.execute_try; rewrite Hurl; exact Hnone].
  destruct (negb (str_eqb protocol (js "http:") || str_eqb protocol (js "https:")))
    eqn:Hproto;
    [unfold WebRead.execute_try; rewrite Hurl, Hproto; exact Hnone|].
  destruct (@read_after_fetch_pure P url outputFormat selector protocol w Hurl Hproto)
    as (k & -> & Hk).
  destruct (@retry_loop_trace P url 3 3 0 None w) as (evs & Hlog & Hn & Hall & _).
  fold (fetchWithRetry P url 3) in Hlog.
  exists evs. split; [|auto]. rewrite <- Hlog. f_equal.
  unfold bind.
  destruct (fetchWithRetry P url 3 w) as [[response|e] w1]; cbn [snd];
    [apply Hk | reflexivity].
Qed.

(** X4.  Whatever the page and the network do, one run of the page-read
    operation only adds to the log, makes at most three network calls, and
    calls no address other than the one it was given. *)
Theorem read_execute_network_budget (P : platform) (url : jsstring)
    (format : option WebRead.Format) (selector : option jsstring) (w : world) :
  exists evs,
    log (snd (WebRead.execute P url format selector w)) = log w ++ evs
    /\ fetches evs <= 3
    /\ Forall (only_url url) evs.
Proof.
  unfold WebRead.execute. cbv zeta.
  destruct (@read_execute_try_trace P url
              (match format with Some f => f | None => WebRead.markdown end)
              selector w) as (evs & Hlog & Hrest).
  exists evs. split; [|exact Hrest]. rewrite <- Hlog.
  destruct (WebRead.execute_try _ _ _ _ _) as [[r|[e|f|]] w']; cbn [snd];
    try reflexivity.
  destruct (named _ _); reflexivity.
Qed.

(** X5.  A text that the URL constructor rejects is reported as
    [Invalid URL] with the error flag set, and the network is not touched:
    the world is left as it was. *)
Theorem read_execute_invalid_url (P : platform) (url : jsstring)
    (format : option WebRead.Format) (selector : option jsstring) (w : world) :
  newURL P url = None ->
  let out := WebRead.execute P url format selector w in
  answers (fst out) (js "Failed to read URL: " ++ js "Invalid URL: " ++ url) true
  /\ snd out = w.
Proof.
  intros Hurl. unfold WebRead.execute, WebRead.execute_try. rewrite Hurl.
  cbv zeta. unfold throw.
  change (named (Obj (mkError (js "Invalid URL: " ++ url))) (js "AbortError"))
    with false.
  cbn [fst snd message_text message mkError].
  split; [|reflexivity]. eexists. repeat split.
Qed.

Lemma read_execute_invalid_url_witness :
  let out := WebRead.execute (Sample.host []) (js "not a url") None None world0 in
  answers (fst out) (js "Failed to read URL: Invalid URL: not a url") true
  /\ snd out = world0.
Proof.
  exact (@read_execute_invalid_url (Sample.host []) (js "not a url") None None
           world0 eq_refl).
Defined.

Lemma fetchWithRetry_first_call (P : platform) (url : jsstring) (n : nat)
    (w : world) (r : Response) :
  net P (calls w) url = Normal r ->
  status r <> 429%N ->
  fetchWithRetry P url (S n) w
  = (Normal r, {| calls := S (calls w); draws := draws w;
                  log := log w ++ [Fetched url] |}).
Proof.
  intros Hnet Hst. unfold fetchWithRetry. cbn [retry_loop]. unfold fetch.
  rewrite Hnet. apply N.eqb_neq in Hst. now rewrite Hst.
Qed.

Lemma valid_protocol (P : platform) (url : jsstring) :
  (newURL P url = Some (js "http:") \/ newURL P url = Some (js "https:")) ->
  exists protocol,
    newURL P url = Some protocol
    /\ negb (str_eqb protocol (js "http:") || str_eqb protocol (js "https:")) = false.
Proof. intros [-> | ->]; eexists; split; reflexivity. Qed.

(** X6.  An HTTP error status other than 429 is not retried: after the one
    call the operation reports [Failed to fetch] with the status and its
    text, sets the error flag, and has not waited. *)
Theorem read_execute_http_error (P : platform) (url : jsstring)
    (format : option WebRead.Format) (selector : option jsstring) (w : world)
    (response : Response) :
  (newURL P url = Some (js "http:") \/ newURL P url = Some (js "https:")) ->
  net P (calls w) url = Normal response ->
  ok response = false ->
  status response <> 429%N ->
  let out := WebRead.execute P url format selector w in
  answers (fst out)
    (js "Failed to read URL: " ++ js "Failed to fetch: " ++ dec (status response)
     ++ js " " ++ statusText response) true
  /\ log (snd out) = log w ++ [Fetched url].
Proof.
  intros Hurl Hnet Hok Hst.
  destruct (valid_protocol P url Hurl) as (protocol & Hp & Hproto).
  unfold WebRead.execute, WebRead.execute_try. rewrite Hp, Hproto.
  cbv zeta. unfold bind.
  rewrite (@fetchWithRetry_first_call P url 2 w response Hnet Hst).
  rewrite Hok. cbn [negb]. unfold throw.
  match goal with
  | |- context [named (Obj (mkError ?m)) (js "AbortError")] =>
      change (named (Obj (mkError m)) (js "AbortError")) with false
  end.
  cbn [fst snd message_text message mkError log].
  split; [|reflexivity]. eexists. repeat split.
Qed.

Lemma read_execute_http_error_witness :
  let out :=
    WebRead.execute
      (Sample.host [Normal {| status := 404; statusText := js "Not Found";
                              contentType := Some (js "text/html");
                              body := Normal (js "<p>gone</p>") |}])
      (js "https://example.com/missing") None None world0 in
  answers (fst out) (js "Failed to read URL: Failed to fetch: 404 Not Found") true
  /\ log (snd out) = [Fetched (js "https://example.com/missing")].
Proof.
  apply (@read_execute_http_error
           (Sample.host [Normal {| status := 404; statusText := js "Not Found";
                                   contentType := Some (js "text/html");
                                   body := Normal (js "<p>gone</p>") |}])
           (js "https://example.com/missing") None None world0
           {| status := 404; statusText := js "Not Found";
              contentType := Some (js "text/html");
              body := Normal (js "<p>gone</p>") |}).
  - right. reflexivity.
  - reflexivity.
  - reflexivity.
  - discriminate.
Defined.

Lemma startsWith_app (s p q : jsstring) :
  startsWith s (p ++ q) = true -> startsWith s p = true.
Proof.
  revert s. induction p as [|x p IH]; intros s H; [now destruct s|].
  destruct s as [|y s]; [discriminate|]. cbn [app startsWith] in *.
  apply andb_true_iff in H as [Hxy H]. rewrite Hxy. now apply IH.
Qed.

Lemma includes_app (s p q : jsstring) :
  includes s (p ++ q) = true -> includes s p = true.
Proof.
  induction s as [|y s IH]; cbn [includes]; intros H.
  - rewrite orb_false_r in *. now apply startsWith_app with q.
  - apply orb_true_iff in H as [H|H]; apply orb_true_iff;
      [left; now apply startsWith_app with q | right; now apply IH].
Qed.

(** X7.  A response whose content type names neither a text type nor
    XHTML, a missing content-type header included, is refused with
    [Unsupported content type] and the error flag; the body is not read, so
    the outcome is the same whatever the body holds, a body whose reading
    would fail included. *)
Theorem read_execute_unsupported_content_type (P : platform) (url : jsstring)
    (format : option WebRead.Format) (selector : option jsstring) (w : world)
    (response : Response) :
  (newURL P url = Some (js "http:") \/ newURL P url = Some (js "https:")) ->
  net P (calls w) url = Normal response ->
  ok response = true ->
  let type := match contentType response with Some c => c | None => [] end in
  includes type (js "text/") = false ->
  includes type (js "application/xhtml") = false ->
  let out := WebRead.execute P url format selector w in
  answers (fst out)
    (js "Failed to read URL: " ++ js "Unsupported content type: " ++ type
     ++ js ". This tool only supports HTML and text content.") true
  /\ log (snd out) = log w ++ [Fetched url].
Proof.
  intros Hurl Hnet Hok type Htext Hxhtml.
  assert (Hhtml : includes type (js "text/html") = false).
  { destruct (includes type (js "text/html")) eqn:E; [|reflexivity].
    change (js "text/html") with (js "text/" ++ js "html") in E.
    apply includes_app in E. congruence. }
  assert (Hst : status response <> 429%N).
  { unfold ok in Hok. apply andb_true_iff in Hok as [_ Hle].
    apply N.leb_le in Hle. lia. }
  destruct (valid_protocol P url Hurl) as (protocol & Hp & Hproto).
  unfold WebRead.execute, WebRead.execute_try. rewrite Hp, Hproto.
  cbv zeta. unfold bind.
  rewrite (@fetchWithRetry_first_call P url 2 w response Hnet Hst).
  rewrite Hok. cbn [negb]. fold type. rewrite Hhtml, Hxhtml, Htext.
  cbn [negb andb]. unfold throw.
  match goal with
  | |- context [named (Obj (mkError ?m)) (js "AbortError")] =>
      change (named (Obj (mkError m)) (js "AbortError")) with false
  end.
  cbn [fst snd message_text message mkError log].
  split; [|reflexivity]. eexists. repeat split.
Qed.

Lemma read_execute_unsupported_content_type_witness :
  let out :=
    WebRead.execute
      (Sample.host [Normal {| status := 200; statusText := js "OK";
                              contentType := None;
                              body := Throw Nullish |}])
      (js "https://example.com/blob") None None world0 in
  answers (fst out)
    (js "Failed to read URL: Unsupported content type: . This tool only supports HTML and text content.")
    true
  /\ log (snd out) = [Fetched (js "https://example.com/blob")].
Proof.
  apply (@read_execute_unsupported_content_type
           (Sample.host [Normal {| status := 200; statusText := js "OK";
                                   contentType := None;
                                   body := Throw Nullish |}])
           (js "https://example.com/blob") None None world0
           {| status := 200; statusText := js "OK"; contentType := None;
              body := Throw Nullish |}).
  - right. reflexivity.
  - reflexivity.
  - reflexivity.
  - reflexivity.
  - reflexivity.
Defined.

(** X8.  For a text response that is not HTML the page is handed to the
    truncator as it came: the selector and the format play no part (a
    selector that matches nothing, or one that is no pattern at all, raises
    nothing here), no title is reported, and the error flag stays off. *)
Theorem read_execute_plain_text (P : platform) (url : jsstring) (w : world)
    (response : Response) (raw : jsstring) :
  (newURL P url = Some (js "http:") \/ newURL P url = Some (js "https:")) ->
  net P (calls w) url = Normal response ->
  ok response = true ->
  let type := match contentType response with Some c => c | None => [] end in
  includes type (js "text/") = true ->
  includes type (js "text/html") = false ->
  includes type (js "application/xhtml") = false ->
  body response = Normal raw ->
  let t := Truncate.truncateHead (DEFAULT_MAX_BYTES P) (DEFAULT_MAX_LINES P) raw in
  forall format selector,
  exists out,
    fst (WebRead.execute P url format selector w) = Normal out
    /\ WebRead.r_text out
       = Truncate.content t
         ++ (if Truncate.truncated t then WebRead.truncation_notice P t else [])
    /\ WebRead.isError out = false
    /\ WebRead.d_title (WebRead.r_details out) = None
    /\ WebRead.d_truncated (WebRead.r_details out) = Truncate.truncated t.
Proof.
  intros Hurl Hnet Hok type Htext Hhtml Hxhtml Hbody t format selector.
  assert (Hst : status response <> 429%N).
  { unfold ok in Hok. apply andb_true_iff in Hok as [_ Hle].
    apply N.leb_le in Hle. lia. }
  destruct (valid_protocol P url Hurl) as (protocol & Hp & Hproto).
  eexists. split.
  { unfold WebRead.execute, WebRead.execute_try. rewrite Hp, Hproto.
    cbv zeta. unfold bind at 1.
    rewrite (@fetchWithRetry_first_call P url 2 w response Hnet Hst).
    rewrite Hok. cbn [negb]. fold type. rewrite Hhtml, Hxhtml, Htext.
    cbn [negb andb]. unfold bind, lift, ret. rewrite Hbody.
    reflexivity. }
  fold t.
  cbn [WebRead.r_text WebRead.isError WebRead.r_details WebRead.d_title
       WebRead.d_truncated].
  split; [destruct (Truncate.truncated t); now rewrite ?app_nil_r|].
  repeat split.
Qed.

Lemma read_execute_plain_text_witness :
  let P := Sample.host [Sample.answer 200 "text/plain" (js "a < b")] in
  exists out,
    fst (WebRead.execute P (js "https://example.com/notes.txt")
           None (Some (js "(")) world0) = Normal out
    /\ WebRead.r_text out = js "a < b" /\ WebRead.isError out = false.
Proof.
  intros P.
  destruct (@read_execute_plain_text P (js "https://example.com/notes.txt")
              world0
              (Sample.response 200 "text/plain" (js "a < b")) (js "a < b")
              (or_intror eq_refl) eq_refl eq_refl eq_refl eq_refl eq_refl eq_refl
              None (Some (js "(")))
    as (out & H0 & H1 & H2 & _).
  exists out. split; [exact H0|]. split; [exact H1 | exact H2].
Defined.

(** X9.  When the three calls all fail (the network is down, or the caller
    has aborted the signal, which makes every call throw the abort reason),
    the operation still makes all three calls and waits 500 ms and 1000 ms
    between them before it answers.  The answer depends on what the last
    call threw: a value that converts to false (an abort with the reason
    null) is reported as [Max retries exceeded] with the error flag, an
    AbortError as [Request cancelled] without it, anything else by its
    message with the error flag. *)
Theorem read_execute_network_down (P : platform) (url : jsstring)
    (format : option WebRead.Format) (selector : option jsstring) (w : world)
    (errs : nat -> thrown) :
  (newURL P url = Some (js "http:") \/ newURL P url = Some (js "https:")) ->
  (forall j, j < 3 -> net P (calls w + j) url = Throw (errs j)) ->
  let out := WebRead.execute P url format selector w in
  (if falsy (errs 2)
   then answers (fst out) (js "Failed to read URL: Max retries exceeded") true
   else if named (errs 2) (js "AbortError")
        then answers (fst out) (js "Request cancelled") false
        else answers (fst out) (js "Failed to read URL: " ++ message_text (errs 2))
               true)
  /\ fetches (log (snd out)) = fetches (log w) + 3
  /\ waits (log (snd out)) = waits (log w) ++ [error_wait 0; error_wait 1].
Proof.
  intros Hurl Hnet.
  destruct (valid_protocol P url Hurl) as (protocol & Hp & Hproto).
  destruct (@retry_loop_all_errors P url 3 errs 3 0 None w eq_refl Hnet)
    as (Hres & Hwaits & Hfetch & _).
  fold (fetchWithRetry P url 3) in Hres, Hwaits, Hfetch.
  cbn [Nat.sub seq map or_max_retries] in Hres, Hwaits.
  unfold WebRead.execute, WebRead.execute_try. rewrite Hp, Hproto.
  cbv zeta. unfold bind.
  destruct (fetchWithRetry P url 3 w) as [c w1]. cbn [fst snd] in *. subst c.
  destruct (errs 2) as [e|[|]|]; cbn [falsy named message_text];
    try (split; [eexists; repeat split | split; assumption]).
  destruct (str_eqb (name e) (js "AbortError"));
    (split; [eexists; repeat split | split; assumption]).
Qed.

Lemma read_execute_network_down_witness :
  let aborted := Obj {| name := js "AbortError"; message := js "This operation was aborted" |} in
  let out := WebRead.execute (Sample.host [Throw aborted; Throw aborted; Throw aborted])
               (js "https://example.com/") None None world0 in
  answers (fst out) (js "Request cancelled") false
  /\ fetches (log (snd out)) = 3
  /\ waits (log (snd out)) = [error_wait 0; error_wait 1].
Proof.
  intros aborted out.
  exact (@read_execute_network_down
           (Sample.host [Throw aborted; Throw aborted; Throw aborted])
           (js "https://example.com/") None None world0 (fun _ => aborted)
           (or_intror eq_refl)
           ltac:(intros [|[|[|j]]] Hj; [reflexivity | reflexivity | reflexivity | lia])).
Defined.

(* ================================================================== *)
(** * The limit of the search parser *)
(* ================================================================== *)

Lemma length_lt_mono (x : WebSearch.number) (n k : nat) :
  n <= k -> WebSearch.length_lt n x = false -> WebSearch.length_lt k x = false.
Proof.
  intros Hnk. destruct x as [q| | |]; cbn [WebSearch.length_lt]; try congruence.
  intros H. apply negb_false_iff in H. apply negb_false_iff.
  apply Qle_bool_iff in H. apply Qle_bool_iff.
  eapply Qle_trans; [exact H|].
  rewrite <- Zle_Qle. lia.
Qed.

Lemma combine_loop_length (maxResults : WebSearch.number)
    (snippets : list jsstring) (n : nat) :
  WebSearch.length_lt n maxResults = false ->
  forall rest i results,
    List.length results <= n ->
    List.length (WebSearch.combine_loop maxResults snippets rest i results) <= n.
Proof.
  intros Hn. induction rest as [|[u t] rest IH]; intros i results Hlen;
    cbn [WebSearch.combine_loop]; [exact Hlen|].
  destruct (WebSearch.length_lt (List.length results) maxResults) eqn:E;
    [|exact Hlen].
  apply IH. rewrite length_app. cbn [List.length].
  destruct (Nat.lt_ge_cases (List.length results) n) as [Hlt|Hge]; [lia|].
  rewrite (length_lt_mono maxResults Hge Hn) in E. discriminate.
Qed.

Lemma parseDDGResults_length (P : platform) (html : jsstring)
    (maxResults : WebSearch.number) (results : list WebSearch.WebSearchResult)
    (n : nat) :
  WebSearch.parseDDGResults P html maxResults = Some (Normal results) ->
  WebSearch.length_lt n maxResults = false ->
  List.length results <= n.
Proof.
  unfold WebSearch.parseDDGResults, WebSearch.parseDDGResults_fuel.
  intros H Hn.
  destruct (WebSearch.link_loop _ _ _ _ _ _) as [[urlTitles|e]|]; try discriminate.
  destruct (WebSearch.snippet_loop _ _ _ _ _) as [snippets|]; [|discriminate].
  injection H as <-. apply combine_loop_length; [exact Hn | apply Nat.le_0_l].
Qed.

(** X10.  The search parser never gives more results than maxResults
    allows: when [n < maxResults] is false for a count [n], at most [n]
    results come back, whatever the page holds. *)
Theorem parseDDGResults_at_most (P : platform) (html : jsstring)
    (maxResults : WebSearch.number) (results : list WebSearch.WebSearchResult)
    (n : nat) :
  WebSearch.parseDDGResults P html maxResults = Some (Normal results) ->
  WebSearch.length_lt n maxResults = false ->
  List.length results <= n.
Proof. apply parseDDGResults_length. Qed.

Lemma parseDDGResults_at_most_witness :
  List.length
    [ {| WebSearch.url := js "https://example.com/page1";
         WebSearch.title := js "Result number 1"; WebSearch.snippet := [] |};
      {| WebSearch.url := js "https://example.com/page2";
         WebSearch.title := js "Result number 2"; WebSearch.snippet := [] |} ] <= 2.
Proof.
  apply (@parseDDGResults_at_most (Sample.host []) (results_page Sample.items)
           (WebSearch.Finite (3 # 2)) _ 2).
  - vm_compute. reflexivity.
  - reflexivity.
Defined.

Lemma length_lt_clamped (x : WebSearch.number) :
  WebSearch.length_lt 20 (WebSearch.Math_min x (WebSearch.Finite 20)) = false.
Proof.
  destruct x as [q| | |]; cbn [WebSearch.Math_min]; try reflexivity.
  destruct (Qle_bool q 20) eqn:E; cbn [WebSearch.length_lt]; [|reflexivity].
  apply negb_false_iff. exact E.
Qed.

(* ================================================================== *)
(** * The search operation and the network *)
(* ================================================================== *)

Lemma search_execute_try_run (P : platform) (query : jsstring)
    (limit : WebSearch.number) (w : world) (q : jsstring) :
  URI.encodeURIComponent query = Some q ->
  exists c,
    WebSearch.execute_try P query limit w
    = Some (c, snd (fetchWithRetry P (search_address q) 3 w))
    /\ match c with
       | Normal r =>
           exists response html results,
             fst (fetchWithRetry P (search_address q) 3 w) = Normal response
             /\ ok response = true
             /\ body response = Normal html
             /\ WebSearch.parseDDGResults P html limit = Some (Normal results)
             /\ WebSearch.resultCount (WebRead.r_details r) = List.length results
             /\ WebRead.isError r = false
       | Throw _ => True
       end.
Proof.
  intros Hq. unfold WebSearch.execute_try. rewrite Hq.
  fold (search_address q).
  destruct (fetchWithRetry P (search_address q) 3 w) as [[response|e] w1];
    cbn [fst snd]; [|eexists; split; [reflexivity | exact I]].
  destruct (ok response) eqn:Hok; cbn [negb];
    [|eexists; split; [reflexivity | exact I]].
  destruct (body response) as [html|e] eqn:Hbody;
    [|eexists; split; [reflexivity | exact I]].
  destruct (parseDDGResults_total P html limit) as [[results|e] Hparse];
    rewrite Hparse; [|eexists; split; [reflexivity | exact I]].
  destruct results as [|r results];
    (eexists; split; [reflexivity|]);
    [exists response, html, [] | exists response, html, (r :: results)];
    repeat split; try assumption; reflexivity.
Qed.

(** X11.  One run of the search operation always comes to an end; it only
    adds to the log, makes at most three network calls, calls no address
    but the search provider's HTML endpoint with the encoded query as its
    one parameter, and a result it returns reports at most 20 results,
    whatever max_results was asked for. *)
Theorem search_execute_network_budget (P : platform) (query : jsstring)
    (max_results : option WebSearch.number) (w : world) :
  exists c w' evs,
    WebSearch.execute P query max_results w = Some (c, w')
    /\ log w' = log w ++ evs
    /\ fetches evs <= 3
    /\ Forall (fun ev =>
                 exists q, URI.encodeURIComponent query = Some q
                           /\ only_url (search_address q) ev) evs
    /\ forall out, c = Normal out ->
                   WebSearch.resultCount (WebRead.r_details out) <= 20.
Proof.
  unfold WebSearch.execute. cbv zeta.
  set (limit := WebSearch.Math_min _ _).
  destruct (URI.encodeURIComponent query) as [q|] eqn:Hq.
  - destruct (@search_execute_try_run P query limit w q Hq) as (c & Hrun & Hc).
    rewrite Hrun.
    destruct (@retry_loop_trace P (search_address q) 3 3 0 None w)
      as (evs & Hlog & Hn & Hall & _).
    fold (fetchWithRetry P (search_address q) 3) in Hlog.
    assert (Hevs : Forall (fun ev => exists q0, Some q = Some q0
                                      /\ only_url (search_address q0) ev) evs).
    { eapply Forall_impl; [|exact Hall]. intros ev Hev. now exists q. }
    destruct c as [r|e].
    + destruct Hc as (response & html & results & _ & _ & _ & Hparse & Hcount & _).
      exists (Normal r), (snd (fetchWithRetry P (search_address q) 3 w)), evs.
      repeat split; try assumption.
      intros r0 Hr. inversion Hr. subst r0. rewrite Hcount.
      apply (@parseDDGResults_length P html limit results 20 Hparse).
      apply length_lt_clamped.
    + destruct e as [e|f|]; [destruct (named (Obj e) (js "AbortError"))| |];
        eexists; exists (snd (fetchWithRetry P (search_address q) 3 w)), evs;
        (split; [reflexivity|]);
        (split; [assumption|]); (split; [assumption|]); (split; [assumption|]);
        intros r Hr; inversion Hr;
        cbn [WebRead.r_details WebSearch.no_details WebSearch.resultCount]; lia.
  - unfold WebSearch.execute_try. rewrite Hq.
    match goal with
    | |- context [named ?a ?b] => change (named a b) with false
    end.
    eexists; exists w, []. split; [reflexivity|].
    rewrite app_nil_r. split; [reflexivity|]. split; [cbv; lia|].
    split; [constructor|].
    intros r Hr. inversion Hr.
    cbn [WebRead.r_details WebSearch.no_details WebSearch.resultCount]. lia.
Qed.

(** X12.  When max_results leaves no room (it is zero, negative or not a
    number, so that [0 < maxResults] is false), the parser gives no result
    and throws nothing, whatever the page holds, a malformed redirect link
    included. *)
Theorem parseDDGResults_no_room (P : platform) (html : jsstring)
    (maxResults : WebSearch.number) :
  WebSearch.length_lt 0 maxResults = false ->
  WebSearch.parseDDGResults P html maxResults = Some (Normal []).
Proof.
  intros H0.
  unfold WebSearch.parseDDGResults, WebSearch.parseDDGResults_fuel.
  cbn [WebSearch.link_loop WebSearch.snippet_loop List.length].
  rewrite H0.
  destruct (search _ html) as [[[mt caps] rest]|];
    destruct (search _ html) as [[[mt' caps'] rest']|]; reflexivity.
Qed.

Lemma parseDDGResults_no_room_witness :
  WebSearch.parseDDGResults (Sample.host [])
    (results_page [(js "/l/?uddg=%", js "broken")])
    (WebSearch.Math_min WebSearch.NaN (WebSearch.Finite 20))
  = Some (Normal []).
Proof.
  apply (@parseDDGResults_no_room (Sample.host [])
           (results_page [(js "/l/?uddg=%", js "broken")])
           (WebSearch.Math_min WebSearch.NaN (WebSearch.Finite 20))).
  reflexivity.
Defined.

(** X13.  An HTTP error status other than 429 from the search provider is
    not retried: after the one call the operation reports [Search failed]
    with the status and its text and sets the error flag. *)
Theorem search_execute_http_error (P : platform) (query q : jsstring)
    (max_results : option WebSearch.number) (w : world) (response : Response) :
  URI.encodeURIComponent query = Some q ->
  net P (calls w) (search_address q) = Normal response ->
  ok response = false ->
  status response <> 429%N ->
  exists out w',
    WebSearch.execute P query max_results w = Some (Normal out, w')
    /\ WebRead.r_text out
       = js "Search error: " ++ js "Search failed: " ++ dec (status response)
         ++ js " " ++ statusText response
    /\ WebRead.isError out = true
    /\ WebSearch.resultCount (WebRead.r_details out) = 0
    /\ log w' = log w ++ [Fetched (search_address q)].
Proof.
  intros Hq Hnet Hok Hst.
  unfold WebSearch.execute, WebSearch.execute_try. cbv zeta. rewrite Hq.
  fold (search_address q).
  rewrite (@fetchWithRetry_first_call P (search_address q) 2 w response Hnet Hst).
  rewrite Hok. cbn [negb].
  match goal with
  | |- context [named (Obj (mkError ?m)) (js "AbortError")] =>
      change (named (Obj (mkError m)) (js "AbortError")) with false
  end.
  eexists. eexists. split; [reflexivity|]. repeat split.
Qed.

Lemma search_execute_http_error_witness :
  let P := Sample.host [Normal {| status := 503; statusText := js "Service Unavailable";
                                  contentType := Some (js "text/html");
                                  body := Normal [] |}] in
  exists out w',
    WebSearch.execute P (js "rocq prover") None world0 = Some (Normal out, w')
    /\ WebRead.r_text out = js "Search error: Search failed: 503 Service Unavailable"
    /\ WebRead.isError out = true
    /\ WebSearch.resultCount (WebRead.r_details out) = 0
    /\ log w' = [Fetched (js "https://html.duckduckgo.com/html/?q=rocq%20prover")].
Proof.
  intros P.
  apply (@search_execute_http_error P (js "rocq prover") (js "rocq%20prover") None
           world0
           {| status := 503; statusText := js "Service Unavailable";
              contentType := Some (js "text/html"); body := Normal [] |}).
  - reflexivity.
  - reflexivity.
  - reflexivity.
  - discriminate.
Defined.

(** X14.  A query that encodeURIComponent rejects (a lone surrogate code
    unit) makes the search operation answer with the URIError message and
    the error flag, before any network call: the world is left as it
    was. *)
Theorem search_execute_bad_query (P : platform) (query : jsstring)
    (max_results : option WebSearch.number) (w : world) :
  URI.encodeURIComponent query = None ->
  WebSearch.execute P query max_results w
  = Some (Normal {| WebRead.r_text := js "Search error: " ++ uri_error P;
                    WebRead.r_details := WebSearch.no_details query;
                    WebRead.isError := true |}, w).
Proof.
  intros Hq. unfold WebSearch.execute, WebSearch.execute_try. cbv zeta.
  rewrite Hq. reflexivity.
Qed.

Lemma search_execute_bad_query_witness :
  WebSearch.execute (Sample.host []) (js "half a pair " ++ [56832%N]) None world0
  = Some (Normal {| WebRead.r_text := js "Search error: URI malformed";
                    WebRead.r_details :=
                      WebSearch.no_details (js "half a pair " ++ [56832%N]);
                    WebRead.isError := true |}, world0).
Proof.
  apply (@search_execute_bad_query (Sample.host []) (js "half a pair " ++ [56832%N])
           None world0).
  reflexivity.
Defined.

(* ================================================================== *)
(** * URI coding *)
(* ================================================================== *)

Ltac divmod := zify; Z.to_euclidean_division_equations; lia.

Lemma below_16 (v : N) (Q : N -> Prop) :
  (v < 16)%N -> (forall n, n < 16 -> Q (N.of_nat n)) -> Q v.
Proof.
  intros Hv H. rewrite <- (N2Nat.id v). apply H. lia.
Qed.

Ltac sixteen :=
  match goal with
  | H : (?v < 16)%N |- _ =>
      pattern v; apply (@below_16 v); [exact H|];
      let n := fresh "n" in
      let Hn := fresh "Hn" in
      intros n Hn;
      do 16 (destruct n as [|n]; [reflexivity|]); lia
  end.

Lemma hexval_hexdigit (v : N) :
  (v < 16)%N -> hexval (URI.hexdigit v) = Some v.
Proof. intros Hv. sixteen. Qed.

Lemma unescaped_hexdigit (v : N) :
  (v < 16)%N -> URI.unescaped (URI.hexdigit v) = true.
Proof. intros Hv. sixteen. Qed.

Lemma hexdigit_not_percent (v : N) :
  (v < 16)%N -> isc (URI.hexdigit v) "%" = false.
Proof. intros Hv. sixteen. Qed.

Lemma hexn_percent (b : N) (rest : jsstring) :
  (b < 256)%N ->
  hexn 2 0%N (URI.hexdigit (b / 16) :: URI.hexdigit (b mod 16) :: rest)
  = Some (b, rest).
Proof.
  intros Hb. cbn [hexn].
  rewrite !hexval_hexdigit by divmod.
  f_equal. f_equal. divmod.
Qed.

Lemma percent_safe (b : N) :
  (b < 256)%N -> forallb uri_safe (URI.percent b) = true.
Proof.
  intros Hb. unfold URI.percent, uri_safe. cbn [forallb].
  rewrite !unescaped_hexdigit by divmod. reflexivity.
Qed.

Lemma utf8_bytes (v : N) :
  (v < 1114112)%N -> Forall (fun b => (b < 256)%N) (URI.utf8 v).
Proof.
  intros Hv. unfold URI.utf8.
  destruct (N.ltb_spec v 128); [repeat constructor; lia|].
  destruct (N.ltb_spec v 2048); [repeat constructor; divmod|].
  destruct (N.ltb_spec v 65536); repeat constructor; divmod.
Qed.

Lemma utf8_safe (v : N) :
  (v < 1114112)%N -> forallb uri_safe (flat_map URI.percent (URI.utf8 v)) = true.
Proof.
  intros Hv. pose proof (utf8_bytes Hv) as Hb.
  induction Hb as [|b l Hb _ IH]; [reflexivity|].
  cbn [flat_map]. rewrite forallb_app, IH, percent_safe by exact Hb. reflexivity.
Qed.

Lemma pair_scalar (c d : char16) :
  Truncate.is_high c = true -> Truncate.is_low d = true ->
  (65536 <= (c - 55296) * 1024 + (d - 56320) + 65536
   /\ (c - 55296) * 1024 + (d - 56320) + 65536 < 1114112)%N.
Proof.
  unfold Truncate.is_high, Truncate.is_low. intros Hc Hd.
  apply andb_true_iff in Hc as [Hc1 Hc2]. apply andb_true_iff in Hd as [Hd1 Hd2].
  apply N.leb_le in Hc1, Hc2, Hd1, Hd2. lia.
Qed.

Lemma encode_safe_within (n : nat) :
  forall s e,
    List.length s <= n ->
    utf16_string s ->
    URI.encodeURIComponent s = Some e ->
    forallb uri_safe e = true.
Proof.
  induction n as [|n IH]; intros s e Hlen Hs He.
  - destruct s; [injection He as <-; reflexivity | cbn in Hlen; lia].
  - destruct s as [|c s1]; [injection He as <-; reflexivity|].
    cbn [URI.encodeURIComponent] in He. cbn [List.length] in Hlen.
    inversion Hs as [|? ? Hc Hs1]; subst.
    destruct (URI.unescaped c) eqn:Hu.
    + destruct (URI.encodeURIComponent s1) as [e1|] eqn:E1; [|discriminate].
      injection He as <-. cbn [forallb]. unfold uri_safe at 1. rewrite Hu.
      apply (IH s1); [lia | exact Hs1 | exact E1].
    + destruct (Truncate.is_low c); [discriminate|].
      destruct (Truncate.is_high c) eqn:Hh.
      * destruct s1 as [|d s2]; [discriminate|].
        destruct (Truncate.is_low d) eqn:Hl; [|discriminate].
        destruct (URI.encodeURIComponent s2) as [e2|] eqn:E2; [|discriminate].
        injection He as <-. cbn [option_map].
        inversion Hs1 as [|? ? Hd Hs2]; subst.
        rewrite forallb_app, utf8_safe by (apply pair_scalar; assumption).
        apply (IH s2); [cbn [List.length] in Hlen; lia | exact Hs2 | exact E2].
      * destruct (URI.encodeURIComponent s1) as [e1|] eqn:E1; [|discriminate].
        injection He as <-.
        rewrite forallb_app, utf8_safe by lia.
        apply (IH s1); [lia | exact Hs1 | exact E1].
Qed.

(** X15.  The encoded query that the search operation puts into its
    address holds nothing but unreserved characters and percent signs: no
    [&], [#], [=], [/], [?] or space of the query reaches the address as
    it is. *)
Theorem encoded_query_is_safe (query e : jsstring) :
  utf16_string query ->
  URI.encodeURIComponent query = Some e ->
  forallb uri_safe e = true
  /\ forall c, In c (js "&#=/? +" ++ DQ) -> ~ In c e.
Proof.
  intros Hs He.
  assert (Hsafe : forallb uri_safe e = true)
    by (apply (@encode_safe_within (List.length query) query e); auto).
  split; [exact Hsafe|].
  intros c Hc Hin.
  rewrite forallb_forall in Hsafe. specialize (Hsafe c Hin).
  cbv in Hc.
  repeat (destruct Hc as [<-|Hc]; [discriminate Hsafe|]).
  exact Hc.
Qed.

Lemma encoded_query_is_safe_witness :
  forallb uri_safe (js "a%26b%3D1%20%23x") = true.
Proof.
  apply (@encoded_query_is_safe (js "a&b=1 #x") (js "a%26b%3D1%20%23x")).
  - repeat constructor.
  - reflexivity.
Defined.

Ltac decide_comparisons :=
  repeat match goal with
         | |- context [(?a <? ?b)%N] =>
             first [ replace (a <? b)%N with true
                       by (symmetry; apply N.ltb_lt; divmod)
                   | replace (a <? b)%N with false
                       by (symmetry; apply N.ltb_ge; divmod) ]
         | |- context [(?a <=? ?b)%N] =>
             first [ replace (a <=? b)%N with true
                       by (symmetry; apply N.leb_le; divmod)
                   | replace (a <=? b)%N with false
                       by (symmetry; apply N.leb_gt; divmod) ]
         | |- context [(?a =? ?b)%N] =>
             first [ replace (a =? b)%N with true
                       by (symmetry; apply N.eqb_eq; divmod)
                   | replace (a =? b)%N with false
                       by (symmetry; apply N.eqb_neq; divmod) ]
         end.

Lemma continuation_percent (n : nat) (acc b : N) (rest : jsstring) :
  (128 <= b)%N -> (b < 192)%N ->
  URI.continuation (S n) acc
    (37%N :: URI.hexdigit (b / 16) :: URI.hexdigit (b mod 16) :: rest)
  = URI.continuation n (acc * 64 + b mod 64)%N rest.
Proof.
  intros H1 H2. cbn [URI.continuation].
  change (isc 37%N "%") with true. cbv iota.
  rewrite hexn_percent by lia.
  decide_comparisons. reflexivity.
Qed.

Lemma decode_scalar (v : N) (rest : jsstring) (f : nat) :
  (v < 1114112)%N ->
  (v < 55296 \/ 57343 < v)%N ->
  URI.decode (S f) (flat_map URI.percent (URI.utf8 v) ++ rest)
  = option_map (app (URI.utf16 v)) (URI.decode f rest).
Proof.
  intros Hv Hs. unfold URI.utf8, URI.utf16.
  destruct (N.ltb_spec v 128) as [H1|H1].
  - cbn [flat_map URI.percent app URI.decode].
    change (isc 37%N "%") with true. cbv iota.
    rewrite hexn_percent by lia.
    decide_comparisons. reflexivity.
  - destruct (N.ltb_spec v 2048) as [H2|H2].
    + cbn [flat_map]. rewrite app_nil_r, <- app_assoc.
      cbn [URI.percent app URI.decode].
      change (isc 37%N "%") with true. cbv iota.
      rewrite hexn_percent by divmod.
      replace (192 + v / 64 <? 128)%N with false
        by (symmetry; apply N.ltb_ge; divmod).
      replace (192 + v / 64 <? 192)%N with false
        by (symmetry; apply N.ltb_ge; divmod).
      replace (192 + v / 64 <? 224)%N with true
        by (symmetry; apply N.ltb_lt; divmod).
      replace (248 <=? 192 + v / 64)%N with false
        by (symmetry; apply N.leb_gt; divmod).
      cbv iota beta. change (N.to_nat 1) with 1.
      rewrite continuation_percent by divmod.
      cbn [URI.continuation].
      replace ((192 + v / 64) mod 32 * 64 + (128 + v mod 64) mod 64)%N with v
        by divmod.
      decide_comparisons. cbn [orb andb]. unfold URI.utf16.
      decide_comparisons. reflexivity.
    + destruct (N.ltb_spec v 65536) as [H3|H3].
      * cbn [flat_map]. rewrite app_nil_r, <- !app_assoc.
        cbn [URI.percent app URI.decode].
        change (isc 37%N "%") with true. cbv iota.
        rewrite hexn_percent by divmod.
        replace (224 + v / 4096 <? 128)%N with false
          by (symmetry; apply N.ltb_ge; divmod).
        replace (224 + v / 4096 <? 192)%N with false
          by (symmetry; apply N.ltb_ge; divmod).
        replace (224 + v / 4096 <? 224)%N with false
          by (symmetry; apply N.ltb_ge; divmod).
        replace (224 + v / 4096 <? 240)%N with true
          by (symmetry; apply N.ltb_lt; divmod).
        replace (248 <=? 224 + v / 4096)%N with false
          by (symmetry; apply N.leb_gt; divmod).
        cbv iota beta. change (N.to_nat 2) with 2.
        rewrite !continuation_percent by divmod.
        cbn [URI.continuation].
        replace (((224 + v / 4096) mod 16 * 64 + (128 + v / 64 mod 64) mod 64) * 64
                 + (128 + v mod 64) mod 64)%N with v by divmod.
        replace ((55296 <=? v)%N && (v <=? 57343)%N) with false
          by (symmetry; apply andb_false_iff;
              destruct Hs; [left; apply N.leb_gt; lia | right; apply N.leb_gt; lia]).
        decide_comparisons. cbn [orb andb]. unfold URI.utf16.
        decide_comparisons. cbn [orb andb]. unfold URI.utf16.
      decide_comparisons. reflexivity.
      * cbn [flat_map]. rewrite app_nil_r, <- !app_assoc.
        cbn [URI.percent app URI.decode].
        change (isc 37%N "%") with true. cbv iota.
        rewrite hexn_percent by divmod.
        replace (240 + v / 262144 <? 128)%N with false
          by (symmetry; apply N.ltb_ge; divmod).
        replace (240 + v / 262144 <? 192)%N with false
          by (symmetry; apply N.ltb_ge; divmod).
        replace (240 + v / 262144 <? 224)%N with false
          by (symmetry; apply N.ltb_ge; divmod).
        replace (240 + v / 262144 <? 240)%N with false
          by (symmetry; apply N.ltb_ge; divmod).
        replace (248 <=? 240 + v / 262144)%N with false
          by (symmetry; apply N.leb_gt; divmod).
        cbv iota beta. change (N.to_nat 3) with 3.
        rewrite !continuation_percent by divmod.
        cbn [URI.continuation].
        replace ((((240 + v / 262144) mod 8 * 64 + (128 + v / 4096 mod 64) mod 64) * 64
                  + (128 + v / 64 mod 64) mod 64) * 64
                 + (128 + v mod 64) mod 64)%N with v by divmod.
        decide_comparisons. cbn [orb andb]. unfold URI.utf16.
        decide_comparisons. cbn [orb andb]. unfold URI.utf16.
      decide_comparisons. reflexivity.
Qed.

Lemma unescaped_not_percent (c : char16) :
  URI.unescaped c = true -> isc c "%" = false.
Proof.
  intros Hu. destruct (isc c "%") eqn:E; [|reflexivity].
  apply N.eqb_eq in E. subst c. discriminate Hu.
Qed.

Lemma utf16_pair (c d : char16) :
  Truncate.is_high c = true -> Truncate.is_low d = true ->
  URI.utf16 ((c - 55296) * 1024 + (d - 56320) + 65536) = [c; d].
Proof.
  intros Hc Hd. pose proof (pair_scalar c d Hc Hd) as [Hlo Hhi].
  unfold Truncate.is_high, Truncate.is_low in Hc, Hd.
  apply andb_true_iff in Hc as [Hc1 Hc2]. apply andb_true_iff in Hd as [Hd1 Hd2].
  apply N.leb_le in Hc1, Hc2, Hd1, Hd2.
  unfold URI.utf16.
  replace ((c - 55296) * 1024 + (d - 56320) + 65536 <? 65536)%N with false
    by (symmetry; apply N.ltb_ge; lia).
  f_equal; [divmod|]. f_equal. divmod.
Qed.

Lemma not_surrogate (c : char16) :
  Truncate.is_high c = false -> Truncate.is_low c = false ->
  (c < 55296 \/ 57343 < c)%N.
Proof.
  unfold Truncate.is_high, Truncate.is_low. intros Hh Hl.
  apply andb_false_iff in Hh. apply andb_false_iff in Hl.
  rewrite !N.leb_gt in Hh, Hl. lia.
Qed.

Lemma decode_encode_within (n : nat) :
  forall s e,
    List.length s <= n ->
    utf16_string s ->
    URI.encodeURIComponent s = Some e ->
    List.length s <= List.length e
    /\ forall fuel, List.length s <= fuel -> URI.decode fuel e = Some s.
Proof.
  induction n as [|n IH]; intros s e Hlen Hs He.
  - destruct s; [|cbn in Hlen; lia]. injection He as <-.
    split; [apply Nat.le_refl | intros fuel _; now destruct fuel].
  - destruct s as [|c s1].
    { injection He as <-.
      split; [apply Nat.le_refl | intros fuel _; now destruct fuel]. }
    cbn [URI.encodeURIComponent] in He. cbn [List.length] in Hlen.
    inversion Hs as [|? ? Hc Hs1]; subst.
    destruct (URI.unescaped c) eqn:Hu.
    + destruct (URI.encodeURIComponent s1) as [e1|] eqn:E1; [|discriminate].
      injection He as <-.
      destruct (IH s1 e1 ltac:(lia) Hs1 E1) as [Hle Hdec].
      split; [cbn [List.length]; lia|].
      intros [|fuel] Hfuel; [cbn in Hfuel; lia|].
      cbn [URI.decode]. rewrite (unescaped_not_percent c Hu).
      rewrite Hdec by (cbn [List.length] in Hfuel; lia). reflexivity.
    + destruct (Truncate.is_low c) eqn:Hlow; [discriminate|].
      destruct (Truncate.is_high c) eqn:Hh.
      * destruct s1 as [|d s2]; [discriminate|].
        destruct (Truncate.is_low d) eqn:Hl; [|discriminate].
        destruct (URI.encodeURIComponent s2) as [e2|] eqn:E2; [|discriminate].
        injection He as <-.
        inversion Hs1 as [|? ? Hd Hs2]; subst.
        cbn [List.length] in Hlen.
        destruct (IH s2 e2 ltac:(lia) Hs2 E2) as [Hle Hdec].
        pose proof (pair_scalar c d Hh Hl) as [Hlo Hhi].
        split.
        -- rewrite length_app. unfold URI.utf8.
           replace ((c - 55296) * 1024 + (d - 56320) + 65536 <? 128)%N with false
             by (symmetry; apply N.ltb_ge; lia).
           replace ((c - 55296) * 1024 + (d - 56320) + 65536 <? 2048)%N with false
             by (symmetry; apply N.ltb_ge; lia).
           replace ((c - 55296) * 1024 + (d - 56320) + 65536 <? 65536)%N with false
             by (symmetry; apply N.ltb_ge; lia).
           cbn [flat_map URI.percent app List.length]. lia.
        -- intros [|fuel] Hfuel; [cbn in Hfuel; lia|].
           rewrite decode_scalar by lia.
           rewrite Hdec by (cbn [List.length] in Hfuel; lia).
           cbn [option_map]. now rewrite utf16_pair.
      * destruct (URI.encodeURIComponent s1) as [e1|] eqn:E1; [|discriminate].
        injection He as <-.
        destruct (IH s1 e1 ltac:(lia) Hs1 E1) as [Hle Hdec].
        split.
        -- rewrite length_app.
           assert (1 <= List.length (flat_map URI.percent (URI.utf8 c))).
           { unfold URI.utf8.
             destruct (c <? 128)%N; [cbn; lia|].
             destruct (c <? 2048)%N; [cbn; lia|].
             destruct (c <? 65536)%N; cbn; lia. }
           cbn [List.length]. lia.
        -- intros [|fuel] Hfuel; [cbn in Hfuel; lia|].
           rewrite decode_scalar by (try apply not_surrogate; try assumption; lia).
           rewrite Hdec by (cbn [List.length] in Hfuel; lia).
           cbn [option_map]. unfold URI.utf16.
           replace (c <? 65536)%N with true by (symmetry; apply N.ltb_lt; lia).
           reflexivity.
Qed.

Lemma decode_encode (s e : jsstring) :
  utf16_string s ->
  URI.encodeURIComponent s = Some e ->
  URI.decodeURIComponent e = Some s.
Proof.
  intros Hs He.
  destruct (@decode_encode_within (List.length s) s e (Nat.le_refl _) Hs He)
    as [Hle Hdec].
  apply Hdec. exact Hle.
Qed.

(* ================================================================== *)
(** * Redirect links of the search provider *)
(* ================================================================== *)

Lemma includes_after (a s p : jsstring) :
  includes s p = true -> includes (a ++ s) p = true.
Proof.
  intros H. induction a as [|x a IH]; [exact H|].
  cbn [app includes]. rewrite IH. apply orb_true_r.
Qed.

Lemma includes_here (s p : jsstring) :
  startsWith s p = true -> includes s p = true.
Proof. intros H. destruct s; cbn [includes]; now rewrite H. Qed.

Lemma startsWith_self (p s : jsstring) : startsWith (p ++ s) p = true.
Proof.
  induction p as [|x p IH]; [now destruct s|].
  cbn [app startsWith]. now rewrite N.eqb_refl, IH.
Qed.

Lemma search_skip (re : regexp) (x : char16) (s : jsstring) :
  match_at re (x :: s) = None -> search re (x :: s) = search re s.
Proof. intros H. cbn [search]. now rewrite H. Qed.

Lemma m_group_plus (fl : flags) (i : nat) (neg : bool) (items : list citem) s c k :
  m fl (RGroup i (RQuant true 1 None (RClass neg items))) s c k
  = plus_class (class_match fl neg items)
      (fun s' c' => k s' (set_cap i (Some (consumed s s')) c')) s c.
Proof.
  change (m fl (RGroup i (RQuant true 1 None (RClass neg items))) s c k)
    with (m fl (RQuant true 1 None (RClass neg items)) s c
            (fun s' c' => k s' (set_cap i (Some (consumed s s')) c'))).
  apply m_plus_class.
Qed.

Lemma uddg_pattern :
  literal (js "uddg=([^&]+)") flags_none eq_refl
  = {| tree := chars [117; 100; 100; 103; 61]%N
                 (RGroup 1 (RQuant true 1 None (RClass true [CChar 38%N])));
       ngroups := 1; fl := flags_none |}.
Proof. reflexivity. Qed.

Lemma greedy_class_all (p : char16 -> bool) (k : cont) (c : captures)
    (pre t : jsstring) (r : jsstring * captures) :
  Forall (fun x => p x = true) pre ->
  match t with x :: _ => p x = false | [] => True end ->
  k t c = Some r ->
  greedy_class p k (pre ++ t) c = Some r.
Proof.
  intros Hpre Ht Hk. apply greedy_class_pick; [exact Hpre|].
  destruct t as [|x t]; [exact Hk|]. cbn [greedy_class]. now rewrite Ht.
Qed.

Lemma match_at_uddg (e tail : jsstring) :
  e <> [] -> ~ In 38%N e ->
  match tail with x :: _ => x = 38%N | [] => True end ->
  match_at (literal (js "uddg=([^&]+)") flags_none eq_refl)
    (js "uddg=" ++ e ++ tail)
  = Some (tail, [Some e]).
Proof.
  intros He Hamp Htail. rewrite uddg_pattern. unfold match_at.
  cbn [fl tree ngroups repeat].
  change (js "uddg=") with [117; 100; 100; 103; 61]%N.
  rewrite m_chars_same, m_group_plus.
  destruct e as [|x e]; [contradiction|].
  cbn [app plus_class].
  assert (Hcls : forall y, y <> 38%N ->
             class_match flags_none true [CChar 38%N] y = true).
  { intros y Hy. rewrite class_not_char by reflexivity.
    apply negb_true_iff, N.eqb_neq. congruence. }
  rewrite Hcls by (intros ->; apply Hamp; now left).
  erewrite greedy_class_all; [reflexivity| | |].
  - apply Forall_forall. intros y Hy. apply Hcls.
    intros ->. apply Hamp. now right.
  - destruct tail as [|y tail]; [exact I|]. subst y. reflexivity.
  - unfold accept. cbn [set_cap set_nth].
    change (x :: e ++ tail) with ((x :: e) ++ tail).
    now rewrite consumed_app.
Qed.

Lemma safe_no_ampersand (e : jsstring) :
  forallb uri_safe e = true -> ~ In 38%N e.
Proof.
  intros H Hin. rewrite forallb_forall in H. specialize (H _ Hin).
  discriminate H.
Qed.

Lemma actual_url_redirect (target e tail : jsstring) :
  utf16_string target ->
  target <> [] ->
  URI.encodeURIComponent target = Some e ->
  match tail with x :: _ => x = 38%N | [] => True end ->
  WebSearch.actual_url (js "//duckduckgo.com/l/?uddg=" ++ e ++ tail) = Some target.
Proof.
  intros Hs Hne He Htail.
  pose proof (@encode_safe_within (List.length target) target e (Nat.le_refl _) Hs He)
    as Hsafe.
  destruct (@decode_encode_within (List.length target) target e (Nat.le_refl _) Hs He)
    as [Hle _].
  assert (Hene : e <> []).
  { intros ->. destruct target; [contradiction | cbn in Hle; lia]. }
  unfold WebSearch.actual_url.
  change (js "//duckduckgo.com/l/?uddg=")
    with (js "//duckduckgo.com/l/?" ++ js "uddg=").
  rewrite <- app_assoc.
  rewrite includes_after
    by (apply includes_here; apply startsWith_self).
  change (js "//duckduckgo.com/l/?")
    with [47; 47; 100; 117; 99; 107; 100; 117; 99; 107; 103; 111; 46; 99; 111;
          109; 47; 108; 47; 63]%N.
  cbn [app].
  repeat (rewrite search_skip
            by (rewrite uddg_pattern; apply m_chars_prefix; reflexivity)).
  change (117 :: 100 :: 100 :: 103 :: 61 :: e ++ tail)%N
    with (js "uddg=" ++ e ++ tail).
  rewrite (search_here _ _ (match_at_uddg tail Hene (safe_no_ampersand e Hsafe) Htail)).
  cbn [grp get_cap nth_error].
  now apply decode_encode.
Qed.

(** X16.  The redirect links of the search provider are undone exactly:
    for every target address, the href that carries its encoded form in the
    uddg parameter, followed by further parameters or by nothing, is turned
    back into the target itself. *)
Theorem actual_url_round_trip (target e tail : jsstring) :
  utf16_string target ->
  target <> [] ->
  URI.encodeURIComponent target = Some e ->
  match tail with x :: _ => x = 38%N | [] => True end ->
  WebSearch.actual_url (js "//duckduckgo.com/l/?uddg=" ++ e ++ tail) = Some target.
Proof. apply actual_url_redirect. Qed.

Lemma actual_url_round_trip_witness :
  WebSearch.actual_url
    (js "//duckduckgo.com/l/?uddg=" ++ js "https%3A%2F%2Fexample.org%2Fa%20b%3Fq%3D1%26r%3D2"
     ++ js "&rut=0a1b")
  = Some (js "https://example.org/a b?q=1&r=2").
Proof.
  apply (@actual_url_round_trip (js "https://example.org/a b?q=1&r=2")).
  - repeat constructor.
  - discriminate.
  - reflexivity.
  - reflexivity.
Defined.

(* ================================================================== *)
(** * A redirect link that cannot be decoded *)
(* ================================================================== *)

Lemma match_at_readable (u t rest : jsstring) :
  readable (u, t) ->
  match_at WebSearch.resultLinkRegex (anchor (u, t) ++ rest)
  = Some (rest, [Some u; Some t]).
Proof.
  intros (Hu & Hq & He & Hlt & Hline).
  cbn [fst snd] in *.
  unfold match_at. rewrite resultLinkRegex_eq. cbn [tree fl ngroups repeat].
  unfold anchor. cbn [fst snd]. rewrite <- !app_assoc. eval_js.
  (* the opening of the tag *)
  change (60 :: 97 :: ?s)%N with ([60; 97]%N ++ s).
  rewrite m_chars_same.
  (* the first run, up to the class attribute *)
  rewrite m_seq_star.
  apply (@greedy_class_pick _ _ _ [32%N]); [repeat constructor|].
  rewrite greedy_class_here.
  2:{ peel_failures. apply greedy_class_none.
      - peel_failures.
      - now apply (@fails_within_quoted flags_i [99; 108; 97; 115; 115]%N). }
  cbv beta.
  change (99 :: 108 :: 97 :: 115 :: 115 :: 61 :: 34 :: ?s)%N
    with (([99; 108; 97; 115; 115] ++ [61; 34])%N ++ s).
  rewrite m_chars_same.
  (* the run inside the class value, up to result__a *)
  rewrite m_seq_star.
  rewrite greedy_class_here.
  2:{ peel_failures. }
  cbv beta.
  change (114 :: 101 :: 115 :: 117 :: 108 :: 116 :: 95 :: 95 :: 97 :: ?s)%N
    with ([114; 101; 115; 117; 108; 116; 95; 95; 97]%N ++ s).
  rewrite m_chars_same.
  (* the rest of the class value and its closing quote *)
  rewrite m_seq_star.
  rewrite greedy_class_stop by reflexivity.
  rewrite m_seq_char_ok by reflexivity.
  (* the run up to the href attribute *)
  rewrite m_seq_star.
  apply (@greedy_class_pick _ _ _ [32%N]); [repeat constructor|].
  rewrite greedy_class_here.
  2:{ peel_failures. apply greedy_class_none.
      - peel_failures.
      - now apply (@fails_within_quoted flags_i [104; 114; 101; 102]%N). }
  cbv beta.
  change (104 :: 114 :: 101 :: 102 :: 61 :: 34 :: ?s)%N
    with (([104; 114; 101; 102] ++ [61; 34])%N ++ s).
  rewrite m_chars_same.
  (* the first group: the destination, and its closing quote *)
  rewrite m_seq_group_plus.
  destruct u as [|y u]; [contradiction|].
  rewrite <- app_comm_cons. unfold plus_class.
  assert (Hrun := not_quote_run flags_i _ Hq).
  inversion Hrun as [|? ? Hy Hrest]; subst. rewrite Hy.
  apply greedy_class_pick; [exact Hrest|].
  rewrite greedy_class_stop by reflexivity.
  rewrite (app_comm_cons u _ y), consumed_app.
  rewrite m_seq_char_ok by reflexivity.
  (* the end of the opening tag *)
  rewrite m_seq_star.
  rewrite greedy_class_stop by reflexivity.
  rewrite m_seq_char_ok by reflexivity.
  (* the second group: the title, up to the closing tag *)
  rewrite m_seq_group_lazy_any.
  rewrite lazy_class_skip.
  2:{ apply Forall_forall. intros x Hx. split.
      - unfold any_match. cbn [dotAll flags_i orb].
        now rewrite (Hline x Hx).
      - intros s'. apply m_chars_prefix. cbn [prefix_canon].
        rewrite (canon_nonletter flags_i) by reflexivity.
        replace (60 =? x)%N with false; [reflexivity|].
        symmetry. apply N.eqb_neq. intros <-. contradiction. }
  apply lazy_class_here.
  rewrite consumed_app.
  change (60 :: 47 :: 97 :: 62 :: rest)%N with ([60; 47; 97]%N ++ 62%N :: rest).
  rewrite m_chars_same.
  now rewrite m_char_ok by reflexivity.
Qed.


Lemma well_formed_readable (ut : jsstring * jsstring) :
  well_formed ut -> readable ut.
Proof.
  intros [(Hu & Hq & _ & He & _) (_ & Htidy & Hlt & _)].
  repeat split; try assumption.
  intros x Hx. apply (spaced_no_line_terminator _ _ (tidy_spaced Htidy) Hx).
Qed.

Lemma length_lt_below (x : WebSearch.number) (n k : nat) :
  n <= k -> WebSearch.length_lt k x = true -> WebSearch.length_lt n x = true.
Proof.
  intros Hnk Hk. destruct (WebSearch.length_lt n x) eqn:E; [reflexivity|].
  rewrite (length_lt_mono x Hnk E) in Hk. discriminate.
Qed.

Section BadRedirect.

Import WebSearch.

Variable P : platform.

Lemma link_loop_step (maxResults : number) (fuel : nat) (u t rest : jsstring)
    (acc : list (jsstring * jsstring)) :
  readable (u, t) ->
  link_loop P resultLinkRegex maxResults (S fuel) (anchor (u, t) ++ rest) acc
  = if length_lt (List.length acc) maxResults then
      match actual_url u with
      | None => Some (Throw {| name := js "URIError"; message := uri_error P |})
      | Some url =>
          link_loop P resultLinkRegex maxResults fuel rest
            (if organic url (trim (stripTags t))
             then acc ++ [(url, trim (stripTags t))] else acc)
      end
    else Some (Normal acc).
Proof.
  intros Hr. cbn [link_loop].
  rewrite (search_here _ _ (match_at_readable rest Hr)). reflexivity.
Qed.

Lemma link_loop_bad (maxResults : number) (u t rest : jsstring)
    (items : list (jsstring * jsstring)) :
  Forall well_formed items ->
  readable (u, t) ->
  actual_url u = None ->
  forall fuel acc,
    List.length items < fuel ->
    length_lt (List.length acc + List.length items) maxResults = true ->
    link_loop P resultLinkRegex maxResults fuel
      (results_page items ++ anchor (u, t) ++ rest) acc
    = Some (Throw {| name := js "URIError"; message := uri_error P |}).
Proof.
  intros Hitems Hr Hbad.
  induction Hitems as [|[u0 t0] items Hut _ IH]; intros fuel acc Hfuel Hroom;
    (destruct fuel as [|fuel]; [inversion Hfuel|]).
  - change (results_page []) with (@nil char16). cbn [app].
    rewrite link_loop_step by exact Hr.
    cbn [List.length] in Hroom. rewrite Nat.add_0_r in Hroom.
    now rewrite Hroom, Hbad.
  - change (results_page ((u0, t0) :: items))
      with (anchor (u0, t0) ++ results_page items).
    rewrite <- app_assoc.
    rewrite link_loop_step by (now apply well_formed_readable).
    rewrite (length_lt_below maxResults (Nat.le_add_r _ _) Hroom).
    rewrite (@actual_url_plain u0) by apply Hut.
    rewrite (@title_plain t0) by apply Hut.
    rewrite (organic_plain Hut).
    apply IH; [cbn [List.length] in Hfuel; lia|].
    rewrite length_app. cbn [List.length] in *.
    replace (List.length acc + 1 + List.length items)
      with (List.length acc + S (List.length items)) by lia.
    exact Hroom.
Qed.

Lemma test_first_anchor (u t rest : jsstring) :
  readable (u, t) -> test resultLinkRegex (anchor (u, t) ++ rest) = true.
Proof.
  intros Hr. unfold test.
  now rewrite (search_here _ _ (match_at_readable rest Hr)).
Qed.

Lemma parseDDGResults_bad (maxResults : number) (u t rest : jsstring)
    (items : list (jsstring * jsstring)) :
  Forall well_formed items ->
  readable (u, t) ->
  actual_url u = None ->
  length_lt (List.length items) maxResults = true ->
  parseDDGResults P (results_page items ++ anchor (u, t) ++ rest) maxResults
  = Some (Throw {| name := js "URIError"; message := uri_error P |}).
Proof.
  intros Hitems Hr Hbad Hroom.
  unfold parseDDGResults, parseDDGResults_fuel.
  assert (Htest : test resultLinkRegex
                    (results_page items ++ anchor (u, t) ++ rest) = true).
  { destruct Hitems as [|[u0 t0] items Hut Hitems].
    - now apply test_first_anchor.
    - change (results_page ((u0, t0) :: items))
        with (anchor (u0, t0) ++ results_page items).
      rewrite <- app_assoc. apply test_first_anchor.
      now apply well_formed_readable. }
  rewrite Htest.
  rewrite (@link_loop_bad maxResults u t rest items Hitems Hr Hbad); [reflexivity| |].
  - pose proof (results_page_length items) as Hlen.
    rewrite length_app. unfold jsstring, char16 in *. lia.
  - exact Hroom.
Qed.

End BadRedirect.

(** X17.  One redirect link that cannot be decoded makes the whole parse
    fail: when such an anchor follows well-formed results and the limit had
    room for it, the parser throws the URIError, and the results read
    before it are lost with it. *)
Theorem parseDDGResults_bad_redirect (P : platform)
    (maxResults : WebSearch.number) (u t rest : jsstring)
    (items : list (jsstring * jsstring)) :
  Forall well_formed items ->
  readable (u, t) ->
  WebSearch.actual_url u = None ->
  WebSearch.length_lt (List.length items) maxResults = true ->
  WebSearch.parseDDGResults P (results_page items ++ anchor (u, t) ++ rest)
    maxResults
  = Some (Throw {| name := js "URIError"; message := uri_error P |}).
Proof. apply parseDDGResults_bad. Qed.

Lemma parseDDGResults_bad_redirect_witness :
  WebSearch.parseDDGResults (Sample.host [])
    (results_page (firstn 3 Sample.items)
     ++ anchor (js "//duckduckgo.com/l/?uddg=%E0%A4%A", js "Broken")
     ++ results_page (skipn 3 Sample.items))
    (WebSearch.Finite 10)
  = Some (Throw {| name := js "URIError"; message := js "URI malformed" |}).
Proof.
  apply (@parseDDGResults_bad_redirect (Sample.host []) (WebSearch.Finite 10)).
  - apply Forall_well_formed. vm_compute. reflexivity.
  - repeat split; try (cbv; intuition discriminate).
    intros x Hx. cbv in Hx.
    repeat (destruct Hx as [<-|Hx]; [reflexivity|]). destruct Hx.
  - vm_compute. reflexivity.
  - reflexivity.
Defined.

(* ================================================================== *)
(** * The tag stripper and the entity decoder of the page reader *)
(* ================================================================== *)

Lemma replace_unmatched (re : regexp) (f : replacer) (s : jsstring) :
  search re s = None -> replace re f s = s.
Proof.
  induction s as [|x s IH]; intros H; cbn [search] in H.
  - apply replace_nil. now destruct (match_at re []) as [[? ?]|].
  - destruct (match_at re (x :: s)) as [[rest caps]|] eqn:E; [discriminate|].
    rewrite (replace_nomatch re f x s E). now rewrite IH.
Qed.

Lemma remove_tags_shorter (s : jsstring) :
  List.length (remove_tags s) <= List.length s.
Proof.
  remember (List.length s) as n eqn:Hn. revert s Hn.
  induction n as [n IH] using lt_wf_ind. intros s Hn.
  destruct s as [|x s]; [subst n; apply Nat.le_refl|].
  destruct (match_at (literal (js "<[^>]+>") flags_g eq_refl) (x :: s))
    as [[rest caps]|] eqn:E.
  - destruct (remove_tags_drop _ _ E) as (Heq & Hlen & _). rewrite Heq.
    specialize (IH (List.length rest) ltac:(subst n; exact Hlen) rest eq_refl).
    lia.
  - rewrite (remove_tags_keep _ _ E). cbn [List.length].
    specialize (IH (List.length s) ltac:(subst n; cbn; lia) s eq_refl).
    subst n. cbn [List.length]. lia.
Qed.

Lemma search_tag_unclosed (s : jsstring) :
  ~ In 62%N s -> search (literal (js "<[^>]+>") flags_g eq_refl) s = None.
Proof.
  induction s as [|x s IH]; intros H; [reflexivity|].
  cbn [search].
  assert (Hm : match_at (literal (js "<[^>]+>") flags_g eq_refl) (x :: s) = None).
  { rewrite match_at_tag. destruct s as [|y s2]; [reflexivity|].
    destruct ((60 =? x)%N && negb (62 =? y)%N); [|reflexivity].
    assert (Ha : after_gt s2 = None).
    { apply after_gt_none. intros Hin. apply H. right. now right. }
    now rewrite Ha. }
  rewrite Hm. apply IH. intros Hin. apply H. now right.
Qed.

(** X18.  stripTags of the page reader only deletes: what it gives is no
    longer than the page and holds no character the page did not have; no
    tag is left in it, so stripping twice changes nothing more; and a text
    without [<], or without [>] (a lone [<] as in [a < b]), comes back as
    it is. *)
Theorem stripTags_only_deletes (html : jsstring) :
  List.length (WebRead.stripTags html) <= List.length html
  /\ (forall c, In c (WebRead.stripTags html) -> In c html)
  /\ test (literal (js "<[^>]+>") flags_g eq_refl) (WebRead.stripTags html) = false
  /\ WebRead.stripTags (WebRead.stripTags html) = WebRead.stripTags html
  /\ (~ In 60%N html \/ ~ In 62%N html -> WebRead.stripTags html = html).
Proof.
  change (WebRead.stripTags html) with (remove_tags html).
  change (WebRead.stripTags (remove_tags html)) with (remove_tags (remove_tags html)).
  split; [apply remove_tags_shorter|].
  split; [intros c; apply remove_tags_in|].
  split; [unfold test; now rewrite remove_tags_clean|].
  split.
  - unfold remove_tags at 1. apply replace_unmatched, remove_tags_clean.
  - intros [H|H]; [now apply remove_tags_plain|].
    unfold remove_tags. now apply replace_unmatched, search_tag_unclosed.
Qed.

Ltac tree_of_literal :=
  match goal with
  | |- exists r, tree ?re = _ =>
      let v := eval vm_compute in (tree re) in
      change (tree re) with v; eexists; reflexivity
  end.

Ltac absent_from a t H :=
  rewrite (@replace_absent_char _ _ a t);
  [ | tree_of_literal | reflexivity | exact H ].

Lemma decodeEntities_no_amp (t : jsstring) :
  ~ In 38%N t -> WebRead.decodeEntities t = t.
Proof.
  intros H. unfold WebRead.decodeEntities. cbv zeta.
  do 8 absent_from 38%N t H. reflexivity.
Qed.

(** X19.  decodeEntities leaves a text without [&] as it is. *)
Theorem decodeEntities_plain (t : jsstring) :
  ~ In 38%N t -> WebRead.decodeEntities t = t.
Proof. apply decodeEntities_no_amp. Qed.

Lemma decodeEntities_plain_witness :
  WebRead.decodeEntities (js "1 < 2; #39") = js "1 < 2; #39".
Proof. apply decodeEntities_plain. cbv. intuition discriminate. Defined.

Lemma replace_pass (re : regexp) (f : replacer) (a : char16) (r : regex)
    (pre s : jsstring) :
  tree re = RSeq (RChar a) r ->
  nonletter a = true ->
  ~ In a pre ->
  replace re f (pre ++ s) = pre ++ replace re f s.
Proof.
  intros Htree Ha. induction pre as [|x pre IH]; intros Hpre; [reflexivity|].
  cbn [app]. rewrite replace_nomatch.
  - f_equal. apply IH. intros Hin. apply Hpre. now right.
  - eapply match_at_first_char; [exact Htree | exact Ha |].
    intros ->. apply Hpre. now left.
Qed.

(** A pattern that starts with [&] and goes on with a character other
    than the one that follows the only [&] of the text. *)
Lemma replace_other_entity (re : regexp) (f : replacer) (b x : char16) (r : regex)
    (pre t : jsstring) :
  tree re = RSeq (RChar 38%N) (RSeq (RChar b) r) ->
  N.eqb (canon (fl re) b) (canon (fl re) x) = false ->
  ~ In 38%N pre -> ~ In 38%N (x :: t) ->
  replace re f (pre ++ 38%N :: x :: t) = pre ++ 38%N :: x :: t.
Proof.
  intros Htree Hb Hpre Ht.
  rewrite (replace_pass re f pre (38%N :: x :: t) Htree eq_refl Hpre).
  f_equal. rewrite replace_nomatch.
  - f_equal. apply (@replace_absent_char re f 38%N); [eauto | reflexivity | exact Ht].
  - unfold match_at. rewrite Htree.
    rewrite m_seq_char_ok by apply N.eqb_refl.
    now apply m_seq_char_fail.
Qed.





Ltac other_entity pre Hpre Ht :=
  match goal with
  | |- context [replace ?re ?f (pre ++ 38%N :: ?x :: ?t)] =>
      let v := eval vm_compute in (tree re) in
      match v with
      | RSeq (RChar 38%N) (RSeq (RChar ?b) ?r) =>
          rewrite (@replace_other_entity re f b x r);
          [ | reflexivity | reflexivity | exact Hpre | exact Ht ]
      end
  end.

(** The walk passes a prefix that lacks the first character of the
    pattern. *)
Ltac pass_prefix pre Hpre :=
  match goal with
  | |- context [replace ?re ?f (pre ++ ?s)] =>
      let v := eval vm_compute in (tree re) in
      match v with
      | RSeq (RChar ?a) ?r =>
          rewrite (@replace_pass re f a r pre);
          [ | reflexivity | reflexivity | exact Hpre ]
      end
  end.

(** The walk leaves a text that lacks the first character of the pattern. *)
Ltac absent_in H :=
  match type of H with
  | ~ In ?a ?t' =>
      match goal with
      | |- context [replace ?re ?f ?t] =>
          unify t t';
          rewrite (@replace_absent_char re f a);
          [ | tree_of_literal | reflexivity | exact H ]
      end
  end.



(** A pattern made of plain characters matches the text it spells. *)
Ltac literal_match :=
  unfold match_at;
  match goal with
  | |- m (fl ?re) (tree ?re) _ _ _ = _ =>
      let v := eval vm_compute in (tree re) in
      let fv := eval vm_compute in (fl re) in
      let n := eval vm_compute in (ngroups re) in
      change (tree re) with v; change (fl re) with fv; change (ngroups re) with n
  end;
  rewrite !m_seq_char_ok by reflexivity;
  rewrite m_char_ok by reflexivity;
  reflexivity.

(** X21.  The decoder turns [&amp;] into [&] before it looks for the other
    entities, so a text that was escaped twice is unescaped twice: the
    spelling [&amp;lt;], which stands for the text [&lt;], comes out as
    [<], and [&amp;gt;] as [>]. *)
Theorem decodeEntities_decodes_twice (pre post : jsstring) :
  ~ In 38%N pre -> ~ In 38%N post ->
  WebRead.decodeEntities (pre ++ js "&amp;lt;" ++ post) = pre ++ js "<" ++ post
  /\ WebRead.decodeEntities (pre ++ js "&amp;gt;" ++ post) = pre ++ js ">" ++ post.
Proof.
  intros Hpre Hpost.
  assert (Hlt : ~ In 38%N (108%N :: 116%N :: 59%N :: post))
    by (intros [H|[H|[H|H]]]; [discriminate .. | contradiction]).
  assert (Hgt : ~ In 38%N (103%N :: 116%N :: 59%N :: post))
    by (intros [H|[H|[H|H]]]; [discriminate .. | contradiction]).
  assert (Hout : forall x, x <> 38%N -> ~ In 38%N (pre ++ x :: post)).
  { intros x Hx H. apply in_app_or in H as [H|[H|H]];
      [contradiction | congruence | contradiction]. }
  pose proof (Hout 60%N ltac:(discriminate)) as H60.
  pose proof (Hout 62%N ltac:(discriminate)) as H62.
  split.
  - change (js "&amp;lt;" ++ post)
      with (38%N :: 97%N :: 109%N :: 112%N :: 59%N :: 108%N :: 116%N :: 59%N :: post).
    change (js "<" ++ post) with (60%N :: post).
    unfold WebRead.decodeEntities. cbv zeta.
    pass_prefix pre Hpre.
    erewrite replace_match;
      [ | literal_match
        | instantiate (1 := [38; 97; 109; 112; 59]%N); reflexivity
        | discriminate ].
    absent_in Hlt.
    change (tpl (js "&") ?a ?b) with [38%N]. cbn [app].
    pass_prefix pre Hpre.
    erewrite replace_match;
      [ | literal_match
        | instantiate (1 := [38; 108; 116; 59]%N); reflexivity
        | discriminate ].
    absent_in Hpost.
    change (tpl (js "<") ?a ?b) with [60%N]. cbn [app].
    do 6 absent_in H60.
    reflexivity.
  - change (js "&amp;gt;" ++ post)
      with (38%N :: 97%N :: 109%N :: 112%N :: 59%N :: 103%N :: 116%N :: 59%N :: post).
    change (js ">" ++ post) with (62%N :: post).
    unfold WebRead.decodeEntities. cbv zeta.
    pass_prefix pre Hpre.
    erewrite replace_match;
      [ | literal_match
        | instantiate (1 := [38; 97; 109; 112; 59]%N); reflexivity
        | discriminate ].
    absent_in Hgt.
    change (tpl (js "&") ?a ?b) with [38%N]. cbn [app].
    assert (Hgt' : ~ In 38%N (103%N :: 116%N :: 59%N :: post)) by exact Hgt.
    other_entity pre Hpre Hgt'.
    pass_prefix pre Hpre.
    erewrite replace_match;
      [ | literal_match
        | instantiate (1 := [38; 103; 116; 59]%N); reflexivity
        | discriminate ].
    absent_in Hpost.
    change (tpl (js ">") ?a ?b) with [62%N]. cbn [app].
    do 5 absent_in H62.
    reflexivity.
Qed.

Lemma decodeEntities_decodes_twice_witness :
  WebRead.decodeEntities (js "write " ++ js "&amp;lt;" ++ js "b> for bold")
  = js "write <b> for bold".
Proof.
  apply (@decodeEntities_decodes_twice (js "write ") (js "b> for bold"));
    cbv; intuition discriminate.
Defined.

(* ================================================================== *)
(** * The whitespace of converted text *)
(* ================================================================== *)

Lemma class_blank (x : char16) :
  class_match flags_none false [CChar 32%N; CChar 9%N] x = blank x.
Proof.
  unfold class_match, class_has, blank.
  cbn [existsb item_has ignoreCase flags_none andb orb xorb].
  rewrite !orb_false_r. now rewrite (N.eqb_sym 32 x), (N.eqb_sym 9 x).
Qed.

Lemma match_at_blanks (s : jsstring) :
  match_at (literal (js "[ \t]+") flags_g eq_refl) s
  = match s with
    | x :: s' => if blank x then Some (after_span blank s', []) else None
    | [] => None
    end.
Proof.
  unfold match_at.
  change (tree (literal (js "[ \t]+") flags_g eq_refl))
    with (RQuant true 1 None (RClass false [CChar 32%N; CChar 9%N])).
  change (fl (literal (js "[ \t]+") flags_g eq_refl)) with flags_none.
  change (ngroups (literal (js "[ \t]+") flags_g eq_refl)) with 0.
  cbn [repeat]. rewrite m_plus_class. unfold plus_class.
  destruct s as [|x s]; [reflexivity|].
  rewrite class_blank. destruct (blank x); [|reflexivity].
  rewrite greedy_class_accept.
  now rewrite (after_span_ext _ blank s class_blank).
Qed.

Lemma squeeze_blanks_other (x : char16) (s : jsstring) :
  blank x = false -> squeeze_blanks (x :: s) = x :: squeeze_blanks s.
Proof.
  intros H. unfold squeeze_blanks. apply replace_nomatch.
  rewrite match_at_blanks. now rewrite H.
Qed.

Lemma squeeze_blanks_run (x : char16) (s : jsstring) :
  blank x = true ->
  squeeze_blanks (x :: s) = 32%N :: squeeze_blanks (after_span blank s).
Proof.
  intros H. unfold squeeze_blanks.
  rewrite (@replace_match _ _ x s (x :: span_of blank s) (after_span blank s) []).
  - reflexivity.
  - rewrite match_at_blanks. now rewrite H.
  - cbn [app]. now rewrite <- span_split.
  - discriminate.
Qed.

Lemma squeeze_blanks_single (s : jsstring) :
  single_runs blank 32%N (squeeze_blanks s).
Proof.
  remember (List.length s) as n eqn:Hn. revert s Hn.
  induction n as [n IH] using lt_wf_ind. intros s Hn.
  destruct s as [|x s]; [exact I|].
  destruct (blank x) eqn:E.
  - rewrite (@squeeze_blanks_run x s E). cbn [single_runs]. split.
    + intros _. split; [reflexivity|].
      destruct (after_span blank s) as [|y t] eqn:Ea; [exact I|].
      pose proof (@after_span_head blank s y t Ea) as Hy.
      now rewrite (@squeeze_blanks_other y t Hy).
    + apply (IH (List.length (after_span blank s))); [|reflexivity].
      pose proof (after_span_length blank s). subst n. cbn [List.length]. lia.
  - rewrite (@squeeze_blanks_other x s E). cbn [single_runs]. split.
    + intros H. congruence.
    + apply (IH (List.length s)); [subst n; cbn [List.length]; lia | reflexivity].
Qed.

Lemma rep_at_least (p : char16 -> bool) (k : cont) (fuel min : nat)
    (s : jsstring) (c : captures) :
  rep (one p) [] true k (S fuel) (S min) None s c
  = match s with
    | x :: s' => if p x then rep (one p) [] true k fuel min None s' c else None
    | [] => None
    end.
Proof.
  cbn [rep Nat.eqb negb andb reset_caps fold_left one pred option_map].
  destruct s as [|x s']; [reflexivity|]. reflexivity.
Qed.

Lemma match_at_newlines (s : jsstring) :
  match_at (literal (js "\n{3,}") flags_g eq_refl) s
  = match s with
    | x :: y :: z :: s' =>
        if newline x && newline y && newline z
        then Some (after_span newline s', [])
        else None
    | _ => None
    end.
Proof.
  unfold match_at.
  change (tree (literal (js "\n{3,}") flags_g eq_refl))
    with (RQuant true 3 None (RChar 10%N)).
  change (fl (literal (js "\n{3,}") flags_g eq_refl)) with flags_none.
  change (ngroups (literal (js "\n{3,}") flags_g eq_refl)) with 0.
  cbn [repeat].
  change (m flags_none (RQuant true 3 None (RChar 10%N)) s [] accept)
    with (rep (one newline) [] true accept (3 + List.length s) 3 None s []).
  cbn [Nat.add].
  destruct s as [|x [|y [|z s]]]; cbn [List.length]; rewrite rep_at_least;
    [reflexivity | | |].
  - destruct (newline x); [rewrite rep_at_least|]; reflexivity.
  - destruct (newline x); [rewrite rep_at_least|]; [|reflexivity].
    destruct (newline y); [rewrite rep_at_least|]; reflexivity.
  - destruct (newline x); [rewrite rep_at_least|]; [|reflexivity].
    destruct (newline y); [rewrite rep_at_least|]; [|reflexivity].
    destruct (newline z); [|reflexivity]. cbn [andb].
    rewrite rep_star_greedy by lia.
    apply greedy_class_accept.
Qed.

Lemma newline_eq (x : char16) : newline x = true -> x = 10%N.
Proof. unfold newline. intros H. apply N.eqb_eq in H. now subst. Qed.

Lemma squeeze_newlines_nil : squeeze_newlines [] = [].
Proof. reflexivity. Qed.

Lemma squeeze_newlines_keep (x : char16) (s : jsstring) :
  match_at (literal (js "\n{3,}") flags_g eq_refl) (x :: s) = None ->
  squeeze_newlines (x :: s) = x :: squeeze_newlines s.
Proof. intros H. unfold squeeze_newlines. now apply replace_nomatch. Qed.

Lemma squeeze_newlines_run (s : jsstring) :
  squeeze_newlines (10%N :: 10%N :: 10%N :: s)
  = 10%N :: 10%N :: squeeze_newlines (after_span newline s).
Proof.
  unfold squeeze_newlines.
  rewrite (@replace_match _ _ 10%N (10%N :: 10%N :: s)
             (10%N :: 10%N :: 10%N :: span_of newline s) (after_span newline s) []).
  - reflexivity.
  - now rewrite match_at_newlines.
  - cbn [app]. now rewrite <- span_split.
  - discriminate.
Qed.

(** The text in front of the walk: three newlines or not. *)
Lemma newlines_cases (s : jsstring) :
  (exists s', s = 10%N :: 10%N :: 10%N :: s')
  \/ match_at (literal (js "\n{3,}") flags_g eq_refl) s = None.
Proof.
  rewrite match_at_newlines.
  destruct s as [|x [|y [|z s]]]; auto.
  destruct (newline x) eqn:Ex; [|auto].
  destruct (newline y) eqn:Ey; [|auto].
  destruct (newline z) eqn:Ez; [|auto].
  left. exists s.
  now rewrite (newline_eq x Ex), (newline_eq y Ey), (newline_eq z Ez).
Qed.

Lemma squeeze_newlines_head (s : jsstring) :
  hd_error (squeeze_newlines s) = hd_error s.
Proof.
  destruct s as [|x s]; [reflexivity|].
  destruct (newlines_cases (x :: s)) as [[s' E]|E].
  - rewrite E, squeeze_newlines_run. reflexivity.
  - now rewrite (squeeze_newlines_keep x s E).
Qed.

Lemma after_newlines_head (s : jsstring) :
  startsWith (squeeze_newlines (after_span newline s)) [10%N] = false.
Proof.
  pose proof (squeeze_newlines_head (after_span newline s)) as Hh.
  destruct (after_span newline s) as [|y t] eqn:Ea.
  - now rewrite squeeze_newlines_nil.
  - pose proof (@after_span_head newline s y t Ea) as Hy.
    destruct (squeeze_newlines (y :: t)) as [|y' t']; [reflexivity|].
    cbn [hd_error] in Hh. injection Hh as ->.
    cbn [startsWith]. unfold newline in Hy. rewrite Hy. reflexivity.
Qed.

Lemma startsWith_cons (x y : char16) (s p : jsstring) :
  startsWith (x :: s) (y :: p) = N.eqb y x && startsWith s p.
Proof. reflexivity. Qed.

Lemma startsWith_longer (s : jsstring) (x : char16) (p : jsstring) :
  startsWith s [x] = false -> startsWith s (x :: p) = false.
Proof.
  destruct s as [|y s]; [reflexivity|]. rewrite !startsWith_cons.
  destruct (N.eqb x y); [|reflexivity]. now destruct s.
Qed.

Lemma squeeze_newlines_two (s : jsstring) :
  startsWith (squeeze_newlines s) [10; 10]%N = true ->
  startsWith s [10; 10]%N = true.
Proof.
  destruct s as [|x s]; [rewrite squeeze_newlines_nil; discriminate|].
  destruct (newlines_cases (x :: s)) as [[s' E]|E].
  - rewrite E. reflexivity.
  - rewrite (squeeze_newlines_keep x s E). rewrite !startsWith_cons.
    intros H. apply andb_true_iff in H as [Hx H]. rewrite Hx. cbn [andb].
    pose proof (squeeze_newlines_head s) as Hh.
    destruct (squeeze_newlines s) as [|y' t']; [discriminate|].
    destruct s as [|y s]; [discriminate|].
    cbn [hd_error] in Hh. injection Hh as ->.
    rewrite startsWith_cons in H |- *.
    apply andb_true_iff in H as [Hy _]. rewrite Hy. now destruct s.
Qed.

(** Rewriting with a closed equation, up to the two names of the type of
    code units. *)
Ltac rew H :=
  let E := fresh "E" in
  pose proof H as E; unfold jsstring, char16 in E |- *; rewrite E; clear E.

Lemma squeeze_newlines_no_three (s : jsstring) :
  includes (squeeze_newlines s) [10; 10; 10]%N = false.
Proof.
  remember (List.length s) as n eqn:Hn. revert s Hn.
  induction n as [n IH] using lt_wf_ind. intros s Hn.
  destruct s as [|x s]; [reflexivity|].
  destruct (newlines_cases (x :: s)) as [[s' E]|E].
  - rewrite E, squeeze_newlines_run. cbn [includes].
    rewrite !startsWith_cons. cbn [N.eqb Pos.eqb andb].
    rew (@startsWith_longer _ 10%N [10%N] (after_newlines_head s')).
    rew (after_newlines_head s'). cbn [orb].
    apply (IH (List.length (after_span newline s'))); [|reflexivity].
    pose proof (after_span_length newline s').
    subst n. rewrite E. cbn [List.length]. lia.
  - rewrite (squeeze_newlines_keep x s E). cbn [includes].
    rewrite (IH (List.length s) ltac:(subst n; cbn [List.length]; lia) s eq_refl).
    rewrite orb_false_r. rewrite startsWith_cons.
    destruct (N.eqb 10 x) eqn:Ex; [|reflexivity]. cbn [andb].
    destruct (startsWith (squeeze_newlines s) [10; 10]%N) eqn:E2; [|reflexivity].
    apply squeeze_newlines_two in E2. apply N.eqb_eq in Ex. subst x.
    rewrite match_at_newlines in E.
    destruct s as [|y [|z s]]; [discriminate E2 | |].
    + rewrite startsWith_cons, andb_false_r in E2. discriminate E2.
    + rewrite !startsWith_cons in E2.
      apply andb_true_iff in E2 as [Hy E2]. apply andb_true_iff in E2 as [Hz _].
      apply N.eqb_eq in Hy, Hz. subst y z.
      change (newline 10%N) with true in E. discriminate E.
Qed.

Lemma single_runs_app_r (p : char16 -> bool) (r : char16) (a b : jsstring) :
  single_runs p r (a ++ b) -> single_runs p r b.
Proof.
  induction a as [|x a IH]; cbn [app single_runs]; [auto|]. intros [_ H]. auto.
Qed.

Lemma single_runs_app_l (p : char16 -> bool) (r : char16) (a b : jsstring) :
  single_runs p r (a ++ b) -> single_runs p r a.
Proof.
  induction a as [|x a IH]; cbn [app single_runs]; [auto|]. intros [H1 H2].
  split; [|auto]. intros Hx. destruct (H1 Hx) as [-> Hnext].
  split; [reflexivity|]. destruct a; [exact I | exact Hnext].
Qed.

Lemma squeeze_newlines_single (s : jsstring) :
  single_runs blank 32%N s -> single_runs blank 32%N (squeeze_newlines s).
Proof.
  remember (List.length s) as n eqn:Hn. revert s Hn.
  induction n as [n IH] using lt_wf_ind. intros s Hn Hs.
  destruct s as [|x s]; [exact I|].
  destruct (newlines_cases (x :: s)) as [[s' E]|E].
  - rewrite E, squeeze_newlines_run. cbn [single_runs].
    split; [intros H; discriminate H|].
    split; [intros H; discriminate H|].
    apply (IH (List.length (after_span newline s'))).
    + pose proof (after_span_length newline s').
      subst n. rewrite E. cbn [List.length]. lia.
    + reflexivity.
    + rewrite E in Hs.
      change (10%N :: 10%N :: 10%N :: s') with ([10; 10; 10]%N ++ s') in Hs.
      apply single_runs_app_r in Hs.
      rewrite (span_split newline s') in Hs.
      now apply single_runs_app_r in Hs.
  - rewrite (squeeze_newlines_keep x s E). cbn [single_runs] in Hs |- *.
    destruct Hs as [Hx Hs]. split.
    + intros Hb. destruct (Hx Hb) as [-> Hnext]. split; [reflexivity|].
      pose proof (squeeze_newlines_head s) as Hh.
      destruct (squeeze_newlines s) as [|y' t']; [exact I|].
      destruct s as [|y s]; [discriminate|].
      cbn [hd_error] in Hh. injection Hh as ->. exact Hnext.
    + apply (IH (List.length s)); [subst n; cbn [List.length]; lia | reflexivity | exact Hs].
Qed.

Lemma startsWith_app_left (a b p : jsstring) :
  startsWith a p = true -> startsWith (a ++ b) p = true.
Proof.
  revert a. induction p as [|x p IH]; intros a H; [now destruct (a ++ b)|].
  destruct a as [|y a]; [discriminate|].
  cbn [app]. rewrite startsWith_cons in *.
  apply andb_true_iff in H as [Hx H]. rewrite Hx. now apply IH.
Qed.

Lemma includes_app_left (a b p : jsstring) :
  includes a p = true -> includes (a ++ b) p = true.
Proof.
  induction a as [|y a IH]; cbn [includes app]; intros H.
  - rewrite orb_false_r in H. apply includes_here.
    now apply (startsWith_app_left [] b).
  - apply orb_true_iff in H as [H|H]; apply orb_true_iff;
      [left; now apply (startsWith_app_left (y :: a) b) | right; now apply IH].
Qed.

Lemma includes_infix (a mid b p : jsstring) :
  includes (a ++ mid ++ b) p = false -> includes mid p = false.
Proof.
  intros H. destruct (includes mid p) eqn:E; [|reflexivity].
  rewrite includes_after in H; [discriminate|]. now apply includes_app_left.
Qed.

Lemma trim_infix (s : jsstring) : exists a b, s = a ++ trim s ++ b.
Proof.
  destruct (trimStart_suffix s) as [a Ha].
  destruct (trimEnd_prefix (trimStart s)) as [b Hb].
  exists a, b. unfold trim. now rewrite <- Hb.
Qed.

Lemma trim_ends (s : jsstring) :
  (forall c, hd_error (trim s) = Some c -> is_whitespace c = false)
  /\ (forall c, hd_error (rev (trim s)) = Some c -> is_whitespace c = false).
Proof.
  unfold trim. destruct (trimEnd_prefix (trimStart s)) as [q Hq]. split.
  - intros c Hc. apply (trimStart_head s). rewrite Hq. now apply hd_error_app.
  - intros c Hc. unfold trimEnd in Hc. rewrite rev_involutive in Hc.
    now apply trimStart_head in Hc.
Qed.

Lemma trim_trim (s : jsstring) : trim (trim s) = trim s.
Proof.
  destruct (trim_ends s) as [Hhead Hlast].
  unfold trim at 1. unfold trimEnd.
  rewrite (trimStart_plain _ Hhead).
  rewrite (trimStart_plain _ Hlast). apply rev_involutive.
Qed.

Lemma single_blanks (s : jsstring) :
  single_runs blank 32%N s ->
  ~ In 9%N s /\ includes s [32; 32]%N = false.
Proof.
  induction s as [|a t IH]; cbn [single_runs]; [intros _; split; [tauto | reflexivity]|].
  intros [Ha Ht]. destruct (IH Ht) as [Hno Hinc]. split.
  - intros [->|Hin]; [|contradiction]. destruct (Ha eq_refl) as [H _]. discriminate H.
  - cbn [includes]. rewrite Hinc, orb_false_r. rewrite startsWith_cons.
    destruct (N.eqb_spec 32 a) as [<-|Hne]; [|reflexivity]. cbn [andb].
    destruct (Ha eq_refl) as [_ Hnext].
    destruct t as [|b t]; [reflexivity|]. rewrite startsWith_cons.
    destruct (N.eqb_spec 32 b) as [<-|Hb]; [discriminate Hnext | reflexivity].
Qed.

Lemma clean_after (x : jsstring) :
  clean_whitespace (trim (squeeze_newlines (squeeze_blanks x))).
Proof.
  set (y := squeeze_newlines (squeeze_blanks x)).
  assert (Hy : single_runs blank 32%N y)
    by apply squeeze_newlines_single, squeeze_blanks_single.
  assert (H3 : includes y [10; 10; 10]%N = false)
    by apply squeeze_newlines_no_three.
  destruct (trim_infix y) as (a & b & Hsplit).
  assert (Ht : single_runs blank 32%N (trim y)).
  { rewrite Hsplit in Hy. apply single_runs_app_r in Hy.
    now apply single_runs_app_l in Hy. }
  destruct (single_blanks _ Ht) as [Htab Hsp].
  repeat split.
  - exact Htab.
  - exact Hsp.
  - rewrite Hsplit in H3. now apply includes_infix in H3.
  - apply trim_trim.
Qed.

(** X22.  Whatever the page holds, the text that htmlToText and
    htmlToMarkdown give has no tab, no two spaces in a row and no three
    newlines in a row, and neither begins nor ends with whitespace. *)
Theorem converters_clean_whitespace (html : jsstring) :
  clean_whitespace (WebRead.htmlToText html)
  /\ clean_whitespace (WebRead.htmlToMarkdown html).
Proof.
  split.
  - unfold WebRead.htmlToText. cbv zeta. apply clean_after.
  - unfold WebRead.htmlToMarkdown. cbv zeta. apply clean_after.
Qed.

(* ================================================================== *)
(** * Text without markup *)
(* ================================================================== *)

Lemma blanks_single (t : jsstring) :
  ~ In 9%N t -> includes t [32; 32]%N = false -> single_runs blank 32%N t.
Proof.
  induction t as [|a t IH]; [intros; exact I|].
  intros Htab Hinc. cbn [includes] in Hinc.
  apply orb_false_iff in Hinc as [Hhere Hinc].
  cbn [single_runs]. split.
  - intros Ha. unfold blank in Ha. apply orb_true_iff in Ha as [Ha|Ha];
      apply N.eqb_eq in Ha; subst a; [|exfalso; apply Htab; now left].
    split; [reflexivity|].
    destruct t as [|b t]; [exact I|].
    rewrite !startsWith_cons in Hhere.
    change (32 =? 32)%N with true in Hhere. cbn [andb] in Hhere.
    unfold blank. apply orb_false_iff. split.
    + destruct (N.eqb_spec b 32) as [->|]; [|reflexivity].
      destruct t; vm_compute in Hhere; discriminate Hhere.
    + apply N.eqb_neq. intros ->. apply Htab. right. now left.
  - apply IH; [|exact Hinc]. intros Hin. apply Htab. now right.
Qed.

Lemma squeeze_blanks_plain (t : jsstring) :
  single_runs blank 32%N t -> squeeze_blanks t = t.
Proof.
  induction t as [|x t IH]; [reflexivity|].
  cbn [single_runs]. intros [Hx Ht].
  destruct (blank x) eqn:E.
  - destruct (Hx eq_refl) as [-> Hnext].
    rewrite (@squeeze_blanks_run 32%N t E).
    rewrite after_span_stays by exact Hnext. now rewrite IH.
  - rewrite (@squeeze_blanks_other x t E). now rewrite IH.
Qed.

Lemma squeeze_newlines_plain (t : jsstring) :
  includes t [10; 10; 10]%N = false -> squeeze_newlines t = t.
Proof.
  intros H. unfold squeeze_newlines. apply replace_unmatched.
  induction t as [|x t IH]; [reflexivity|].
  cbn [includes] in H. apply orb_false_iff in H as [Hhere H].
  cbn [search].
  destruct (newlines_cases (x :: t)) as [[s' E]|E].
  - injection E as -> ->.
    destruct s'; vm_compute in Hhere; discriminate Hhere.
  - rewrite E. now apply IH.
Qed.

Lemma converters_plain (t : jsstring) :
  ~ In 60%N t -> ~ In 38%N t -> clean_whitespace t ->
  WebRead.htmlToText t = t /\ WebRead.htmlToMarkdown t = t.
Proof.
  intros Hlt Hamp (Htab & Hsp & Hnl & Htrim).
  assert (Hclose : trim (squeeze_newlines (squeeze_blanks t)) = t).
  { rewrite squeeze_blanks_plain by now apply blanks_single.
    now rewrite squeeze_newlines_plain. }
  split.
  - unfold WebRead.htmlToText. cbv zeta.
    do 14 absent_in Hlt.
    change (WebRead.stripTags t) with (remove_tags t).
    rewrite remove_tags_plain by exact Hlt.
    rewrite decodeEntities_no_amp by exact Hamp.
    exact Hclose.
  - unfold WebRead.htmlToMarkdown. cbv zeta.
    repeat absent_in Hlt.
    change (WebRead.stripTags t) with (remove_tags t).
    rewrite remove_tags_plain by exact Hlt.
    rewrite decodeEntities_no_amp by exact Hamp.
    exact Hclose.
Qed.

(** X23.  A text that holds no [<] and no [&] and whose whitespace is
    clean already goes through htmlToText and through htmlToMarkdown
    unchanged. *)
Theorem converters_keep_plain_text (t : jsstring) :
  ~ In 60%N t -> ~ In 38%N t -> clean_whitespace t ->
  WebRead.htmlToText t = t /\ WebRead.htmlToMarkdown t = t.
Proof. apply converters_plain. Qed.

Lemma converters_keep_plain_text_witness :
  WebRead.htmlToText (js "x > y, so f(x) = 2 * y") = js "x > y, so f(x) = 2 * y"
  /\ WebRead.htmlToMarkdown (js "x > y, so f(x) = 2 * y") = js "x > y, so f(x) = 2 * y".
Proof.
  apply converters_keep_plain_text.
  - cbv. intuition discriminate.
  - cbv. intuition discriminate.
  - repeat split; try reflexivity. cbv. intuition discriminate.
Defined.

(* ================================================================== *)
(** * The title of a page *)
(* ================================================================== *)

Lemma search_pass (re : regexp) (a : char16) (r : regex) (pre s : jsstring) :
  tree re = RSeq (RChar a) r ->
  nonletter a = true ->
  ~ In a pre ->
  search re (pre ++ s) = search re s.
Proof.
  intros Htree Ha. induction pre as [|x pre IH]; intros Hpre; [reflexivity|].
  cbn [app]. rewrite search_skip.
  - apply IH. intros Hin. apply Hpre. now right.
  - eapply match_at_first_char; [exact Htree | exact Ha |].
    intros ->. apply Hpre. now left.
Qed.

Lemma search_absent (re : regexp) (a : char16) (r : regex) (s : jsstring) :
  tree re = RSeq (RChar a) r ->
  nonletter a = true ->
  ~ In a s ->
  search re s = None.
Proof.
  intros Htree Ha Hs.
  rewrite <- (app_nil_r s).
  rewrite (search_pass re s [] Htree Ha Hs).
  cbn [search]. now rewrite (match_at_nil_char re Htree).
Qed.



(** An element written [open attrs > t close >], read by the pattern
    [open [^>]* > ([\s\S]*?) close >]. *)
Lemma m_element (opening closing attrs t post : jsstring) (x : char16) :
  closing = 60%N :: x :: nil ++ tl (tl closing) ->
  ~ In 62%N attrs -> ~ In 60%N t ->
  m flags_i
    (chars opening
       (RSeq (RQuant true 0 None (RClass true [CChar 62%N]))
          (RSeq (RChar 62%N)
             (RSeq (RGroup 1 (RQuant false 0 None
                                (RClass false [CSpace true; CSpace false])))
                (chars closing (RChar 62%N))))))
    (opening ++ attrs ++ 62%N :: t ++ closing ++ 62%N :: post)
    [None] accept
  = Some (post, [Some t]).
Proof.
  intros Hclosing Hattrs Ht.
  rewrite m_chars_same, m_seq_star.
  erewrite greedy_class_all; [reflexivity | now apply not_gt_run | reflexivity |].
  cbv beta. rewrite m_seq_char_ok by reflexivity.
  rewrite m_seq_group_lazy.
  rewrite lazy_class_skip.
  2:{ apply Forall_forall. intros y Hy. split; [apply class_everything|].
      intros s'. apply m_chars_prefix. rewrite Hclosing. cbn [app prefix_canon].
      rewrite (canon_nonletter flags_i) by reflexivity.
      replace (60 =? y)%N with false; [reflexivity|].
      symmetry. apply N.eqb_neq. intros <-. contradiction. }
  apply lazy_class_here.
  rewrite consumed_app, m_chars_same.
  now rewrite m_char_ok by reflexivity.
Qed.





Ltac search_fails H :=
  match type of H with
  | ~ In ?a ?t' =>
      match goal with
      | |- context [search ?re ?t] =>
          unify t t';
          let v := eval vm_compute in (tree re) in
          match v with
          | RSeq (RChar a) ?r =>
              rewrite (@search_absent re a r);
              [ | reflexivity | reflexivity | exact H ]
          end
      end
  end.







(* ================================================================== *)
(** * A page without markup *)
(* ================================================================== *)

Lemma match_all_absent (re : regexp) (a : char16) (r : regex) (html : jsstring) :
  tree re = RSeq (RChar a) r ->
  nonletter a = true ->
  ~ In a html ->
  match_all re html = None.
Proof.
  intros Htree Ha Hhtml. unfold match_all.
  rewrite match_walk_nothing; [reflexivity | | exact (match_at_nil_char re Htree)].
  apply Forall_forall. intros x Hx t.
  eapply match_at_first_char; [exact Htree | exact Ha |].
  intros ->. contradiction.
Qed.

Ltac no_match_all H :=
  match goal with
  | |- context [match_all ?re ?html] =>
      let v := eval vm_compute in (tree re) in
      match v with
      | RSeq (RChar ?a) ?r =>
          rewrite (@match_all_absent re a r html);
          [ | vm_compute; reflexivity | reflexivity | exact H ]
      end
  end.

Lemma candidate_no_markup (html selector : jsstring) :
  ~ In 60%N html ->
  In selector WebRead.contentSelectors ->
  candidate html selector = [].
Proof.
  intros Hhtml Hin. unfold WebRead.contentSelectors in Hin.
  cbn [In] in Hin.
  repeat (destruct Hin as [<-|Hin];
          [ unfold candidate;
            match goal with
            | |- context [WebRead.selector_patterns ?s] =>
                let v := eval vm_compute in (WebRead.selector_patterns s) in
                change (WebRead.selector_patterns s) with v
            end;
            cbn [map WebRead.first_matches];
            repeat no_match_all Hhtml; reflexivity | ]).
  contradiction.
Qed.

Lemma find_nothing {A : Type} (f : A -> bool) (l : list A) :
  (forall x, In x l -> f x = false) -> find f l = None.
Proof.
  induction l as [|x l IH]; intros H; [reflexivity|].
  cbn [find]. rewrite (H x (or_introl eq_refl)).
  apply IH. intros y Hy. apply H. now right.
Qed.

Lemma extractMainContent_no_markup (P : platform) (html : jsstring) :
  ~ In 60%N html -> WebRead.extractMainContent P html = Normal html.
Proof.
  intros Hhtml. unfold WebRead.extractMainContent.
  rewrite try_selectors_find by auto.
  assert (Hfind : find (fun selector => 500 <? List.length (candidate html selector))
                    WebRead.contentSelectors = None).
  { apply find_nothing. intros selector Hin.
    now rewrite (@candidate_no_markup html selector Hhtml Hin). }
  rewrite Hfind. cbn [option_map].
  search_fails Hhtml. reflexivity.
Qed.

Lemma extractTitle_no_markup (html : jsstring) :
  ~ In 60%N html -> WebRead.extractTitle html = [].
Proof.
  intros Hhtml. unfold WebRead.extractTitle.
  do 2 search_fails Hhtml. reflexivity.
Qed.

(** X25.  An HTML response whose body holds no markup at all (no [<], no
    [&], clean whitespace) comes back as it is, in either format and
    without a title header: the locator falls back to the whole page, the
    converter leaves it alone, and only the truncator has a say. *)
Theorem read_execute_plain_page (P : platform) (url : jsstring)
    (format : option WebRead.Format) (w : world) (response : Response)
    (page : jsstring) :
  (newURL P url = Some (js "http:") \/ newURL P url = Some (js "https:")) ->
  net P (calls w) url = Normal response ->
  ok response = true ->
  includes (match contentType response with Some c => c | None => [] end)
           (js "text/html") = true ->
  body response = Normal page ->
  ~ In 60%N page -> ~ In 38%N page -> clean_whitespace page ->
  let t := Truncate.truncateHead (DEFAULT_MAX_BYTES P) (DEFAULT_MAX_LINES P) page in
  exists out,
    fst (WebRead.execute P url format None w) = Normal out
    /\ WebRead.r_text out
       = Truncate.content t
         ++ (if Truncate.truncated t then WebRead.truncation_notice P t else [])
    /\ WebRead.isError out = false
    /\ WebRead.d_title (WebRead.r_details out) = Some [].
Proof.
  intros Hurl Hnet Hok Htype Hbody Hlt Hamp Hclean t.
  assert (Hst : status response <> 429%N).
  { unfold ok in Hok. apply andb_true_iff in Hok as [_ Hle].
    apply N.leb_le in Hle. lia. }
  destruct (valid_protocol P url Hurl) as (protocol & Hp & Hproto).
  destruct (@converters_plain page Hlt Hamp Hclean) as [Htext Hmd].
  assert (Hconv : forall f, match f with
                            | WebRead.markdown => WebRead.htmlToMarkdown page
                            | WebRead.text => WebRead.htmlToText page
                            end = page)
    by (intros [|]; assumption).
  eexists. split.
  { unfold WebRead.execute, WebRead.execute_try. rewrite Hp, Hproto.
    cbv zeta. unfold bind at 1.
    rewrite (@fetchWithRetry_first_call P url 2 w response Hnet Hst).
    rewrite Hok, Htype. cbn [negb andb].
    unfold bind, lift, ret. rewrite Hbody.
    rewrite (@extractMainContent_no_markup P page Hlt).
    rewrite (@extractTitle_no_markup page Hlt).
    rewrite Hconv. reflexivity. }
  fold t.
  cbn [WebRead.r_text WebRead.isError WebRead.r_details WebRead.d_title
       WebRead.is_empty app].
  split; [destruct (Truncate.truncated t); now rewrite ?app_nil_r|].
  split; reflexivity.
Qed.

Lemma read_execute_plain_page_witness :
  let P := Sample.host [Sample.answer 200 "text/html; charset=utf-8"
                          (js "Just a line of text.")] in
  exists out,
    fst (WebRead.execute P (js "https://example.com/") (Some WebRead.text) None world0)
    = Normal out
    /\ WebRead.r_text out = js "Just a line of text."
    /\ WebRead.isError out = false.
Proof.
  intros P.
  destruct (@read_execute_plain_page P (js "https://example.com/")
              (Some WebRead.text) world0
              (Sample.response 200 "text/html; charset=utf-8"
                 (js "Just a line of text."))
              (js "Just a line of text.")
              (or_intror eq_refl) eq_refl eq_refl eq_refl eq_refl
              ltac:(cbv; intuition discriminate)
              ltac:(cbv; intuition discriminate)
              ltac:(split; [cbv; intuition discriminate
                           | repeat split; vm_compute; reflexivity]))
    as (out & H0 & H1 & H2 & H3).
  exists out. split; [exact H0 | split; [|exact H2]].
  rewrite H1. vm_compute. reflexivity.
Defined.

(* ================================================================== *)
(** * When the operations raise *)
(* ================================================================== *)

Lemma or_max_retries_not_nullish (lastError : option thrown) :
  or_max_retries lastError <> Nullish.
Proof.
  destruct lastError as [[e|[|]|]|]; discriminate.
Qed.

Lemma retry_loop_answer (P : platform) (url : jsstring) (maxRetries : nat) :
  forall togo attempt lastError w r,
    fst (retry_loop P url maxRetries togo attempt lastError w) = Normal r ->
    exists j, net P (calls w + j) url = Normal r.
Proof.
  induction togo as [|togo IH]; intros attempt lastError w r H.
  - discriminate.
  - cbn [retry_loop] in H. unfold fetch in H.
    assert (Hshift : forall j, S (calls w) + j = calls w + S j) by (intros; lia).
    destruct (net P (calls w) url) as [response|error] eqn:E0.
    + destruct (status response =? 429)%N.
      * unfold bind, Math_random, sleep in H. cbn [calls draws log] in H.
        apply IH in H as [j Hj]. cbn [calls] in Hj. rewrite Hshift in Hj. eauto.
      * cbn [fst] in H. injection H as <-. exists 0. now rewrite Nat.add_0_r.
    + unfold bind in H.
      destruct (attempt <? maxRetries - 1); unfold sleep, ret in H;
        cbn [calls draws log] in H; apply IH in H as [j Hj];
        cbn [calls] in Hj; rewrite Hshift in Hj; eauto.
Qed.

Lemma compile_all_nullish (P : platform) (sources : list jsstring) :
  WebRead.compile_all P sources = Throw Nullish ->
  exists source, foreign_regexp P source = Throw Nullish.
Proof.
  induction sources as [|source rest IH]; cbn [WebRead.compile_all]; [discriminate|].
  unfold WebRead.RegExp_gi.
  destruct (WebRead.is_ascii source).
  - destruct (compile source flags_gi) as [re| |].
    + destruct (WebRead.compile_all P rest) as [ps|e]; [discriminate|].
      intros H. injection H as ->. now apply IH.
    + discriminate.
    + destruct (foreign_regexp P source) as [p|e] eqn:E.
      * destruct (WebRead.compile_all P rest) as [ps|e]; [discriminate|].
        intros H. injection H as ->. now apply IH.
      * intros H. injection H as ->. now exists source.
  - destruct (foreign_regexp P source) as [p|e] eqn:E.
    + destruct (WebRead.compile_all P rest) as [ps|e]; [discriminate|].
      intros H. injection H as ->. now apply IH.
    + intros H. injection H as ->. now exists source.
Qed.

Lemma read_execute_try_nullish (P : platform) (url : jsstring)
    (outputFormat : WebRead.Format) (selector : option jsstring) (w : world) :
  fst (WebRead.execute_try P url outputFormat selector w) = Throw Nullish ->
  (exists k response, net P k url = Normal response /\ body response = Throw Nullish)
  \/ (exists source, foreign_regexp P source = Throw Nullish).
Proof.
  unfold WebRead.execute_try.
  destruct (newURL P url) as [protocol|]; [|discriminate].
  destruct (negb _); [discriminate|].
  unfold bind at 1.
  destruct (fetchWithRetry P url 3 w) as [[response|e] w1] eqn:Hf.
  2:{ cbn [fst]. intros H. injection H as ->.
      pose proof (f_equal fst Hf) as Hf'. cbn [fst] in Hf'.
      apply retry_loop_throws in Hf' as [_ [(j & e' & _ & _ & He & _)|[_ He]]];
        symmetry in He; now apply or_max_retries_not_nullish in He. }
  pose proof (f_equal fst Hf) as Hf'. cbn [fst] in Hf'.
  apply retry_loop_answer in Hf' as [j Hj].
  assert (Hbody : forall A (k : jsstring -> M A),
             (forall text w2, fst (k text w2) <> Throw Nullish
                              \/ exists source, foreign_regexp P source = Throw Nullish) ->
             fst (bind (lift (body response)) k w1) = Throw Nullish ->
             (exists k0 response0,
                 net P k0 url = Normal response0 /\ body response0 = Throw Nullish)
             \/ (exists source, foreign_regexp P source = Throw Nullish)).
  { intros A k Hk. unfold bind, lift.
    destruct (body response) as [text|e] eqn:Hb.
    - intros H. destruct (Hk text w1) as [Hn|Hr]; [contradiction | now right].
    - cbn [fst]. intros H. injection H as ->. left. eauto. }
  destruct (negb (ok response)); [discriminate|].
  destruct (negb _ && negb _).
  - destruct (includes _ (js "text/")); [|discriminate].
    apply Hbody. intros text w2. left. discriminate.
  - apply Hbody. intros html w2.
    destruct selector as [[|c sel]|].
    + left. unfold bind, lift.
      rewrite (proj2 (extractMainContent_order P html)). discriminate.
    + unfold bind at 1. unfold bind at 1. unfold lift at 1.
      unfold WebRead.extractBySelector.
      destruct (WebRead.compile_all P _) as [patterns|e] eqn:Ec.
      * left. destruct (WebRead.is_empty _); discriminate.
      * destruct e as [e|f|]; [left; discriminate | left; discriminate|].
        right. now apply compile_all_nullish in Ec.
    + left. unfold bind, lift.
      rewrite (proj2 (extractMainContent_order P html)). discriminate.
Qed.

(** X26.  The page-read operation raises to its caller in one case only:
    when reading the body of a response, or the platform's work on a
    selector pattern outside the modelled syntax, was rejected with null
    or undefined.  On a platform where neither happens every run returns a
    result, whatever the address, the page, the selector and the network
    do. *)
Theorem read_execute_returns (P : platform) (url : jsstring)
    (format : option WebRead.Format) (selector : option jsstring) (w : world) :
  (forall k response, net P k url = Normal response -> body response <> Throw Nullish) ->
  (forall source, foreign_regexp P source <> Throw Nullish) ->
  exists r, fst (WebRead.execute P url format selector w) = Normal r.
Proof.
  intros Hbody Hre. unfold WebRead.execute. cbv zeta.
  destruct (WebRead.execute_try P url _ selector w) as [[r|e] w'] eqn:E.
  - now exists r.
  - destruct e as [e|f|].
    + destruct (named (Obj e) (js "AbortError")); eexists; reflexivity.
    + destruct (named (Bare f) (js "AbortError")); eexists; reflexivity.
    + pose proof (f_equal fst E) as E'. cbn [fst] in E'.
      apply read_execute_try_nullish in E'
        as [(k & response & Hnet & Hb)|(source & Hs)].
      * now apply Hbody in Hnet.
      * now apply Hre in Hs.
Qed.

Lemma read_execute_returns_witness :
  exists r,
    fst (WebRead.execute
           (Sample.host [Throw Nullish; Sample.answer 200 "text/html" (js "<p>late</p>")])
           (js "https://example.com/") None (Some (js "(")) world0) = Normal r.
Proof.
  apply read_execute_returns.
  - intros [|[|[|k]]] response H; try discriminate H.
    injection H as <-. discriminate.
  - discriminate.
Defined.

Lemma link_loop_throws (P : platform) (re : regexp) (maxResults : WebSearch.number) :
  forall fuel html acc e,
    WebSearch.link_loop P re maxResults fuel html acc = Some (Throw e) ->
    e = Obj {| name := js "URIError"; message := uri_error P |}.
Proof.
  induction fuel as [|fuel IH]; intros html acc e; cbn [WebSearch.link_loop];
    [discriminate|].
  destruct (search re html) as [[[mt caps] rest]|]; [|discriminate].
  destruct (WebSearch.length_lt _ _); [|discriminate].
  destruct (WebSearch.actual_url _); [apply IH|].
  now intros [= <-].
Qed.

Lemma parseDDGResults_throws (P : platform) (html : jsstring)
    (maxResults : WebSearch.number) (e : thrown) :
  WebSearch.parseDDGResults P html maxResults = Some (Throw e) ->
  e = Obj {| name := js "URIError"; message := uri_error P |}.
Proof.
  unfold WebSearch.parseDDGResults, WebSearch.parseDDGResults_fuel.
  destruct (WebSearch.link_loop _ _ _ _ _ _) as [[urlTitles|e0]|] eqn:E;
    [|intros [= <-]; now apply link_loop_throws in E|discriminate].
  destruct (WebSearch.snippet_loop _ _ _ _ _); discriminate.
Qed.

(** X27.  The search operation raises to its caller in one case only: when
    reading the body of the response was rejected with null or undefined.
    On a platform where that does not happen every run returns a
    result. *)
Theorem search_execute_returns (P : platform) (query : jsstring)
    (max_results : option WebSearch.number) (w : world) :
  (forall k url response,
     net P k url = Normal response -> body response <> Throw Nullish) ->
  exists r w', WebSearch.execute P query max_results w = Some (Normal r, w').
Proof.
  intros Hbody. unfold WebSearch.execute. cbv zeta.
  set (limit := WebSearch.Math_min _ _).
  unfold WebSearch.execute_try.
  destruct (URI.encodeURIComponent query) as [q|].
  2:{ eexists. eexists. reflexivity. }
  destruct (fetchWithRetry P _ 3 w) as [[response|e] w1] eqn:Hf.
  2:{ pose proof (f_equal fst Hf) as Hf'. cbn [fst] in Hf'.
      apply retry_loop_throws in Hf' as [_ Hcase].
      assert (He : e <> Nullish).
      { destruct Hcase as [(j & e' & _ & _ & He & _)|[_ He]]; rewrite He;
          apply or_max_retries_not_nullish. }
      destruct e as [e|f|]; [| |contradiction];
        destruct (named _ _); eexists; eexists; reflexivity. }
  pose proof (f_equal fst Hf) as Hf'. cbn [fst] in Hf'.
  apply retry_loop_answer in Hf' as [j Hj].
  destruct (negb (ok response)).
  { eexists. eexists. reflexivity. }
  destruct (body response) as [html|e] eqn:Hb.
  2:{ destruct e as [e|f|];
        [| |now apply Hbody in Hj];
        destruct (named _ _); eexists; eexists; reflexivity. }
  destruct (parseDDGResults_total P html limit) as [[results|e] Hparse];
    rewrite Hparse.
  - destruct results; eexists; eexists; reflexivity.
  - apply parseDDGResults_throws in Hparse. subst e.
    eexists. eexists. reflexivity.
Qed.

Lemma search_execute_returns_witness :
  exists r w',
    WebSearch.execute
      (Sample.host [Throw Nullish; Sample.answer 200 "text/html" (js "<p>late</p>")])
      (js "rocq") None world0 = Some (Normal r, w').
Proof.
  apply search_execute_returns.
  intros [|[|[|k]]] url response H; try discriminate H.
  injection H as <-. discriminate.
Defined.

(* ================================================================== *)
(** * The locator on a page with one article *)
(* ================================================================== *)

Lemma article_pattern_eq :
  article_pattern
  = {| tree := chars [60; 97; 114; 116; 105; 99; 108; 101]%N
                 (RSeq (RQuant true 0 None (RClass true [CChar 62%N]))
                    (RSeq (RChar 62%N)
                       (RSeq (RGroup 1 (RQuant false 0 None
                                          (RClass false [CSpace true; CSpace false])))
                          (chars [60; 47; 97; 114; 116; 105; 99; 108; 101]%N
                             (RChar 62%N)))));
       ngroups := 1; fl := flags_i |}.
Proof. reflexivity. Qed.

Lemma match_at_article (attrs inner post : jsstring) :
  ~ In 62%N attrs -> ~ In 60%N inner ->
  match_at article_pattern (article_element attrs inner ++ post)
  = Some (post, [Some inner]).
Proof.
  intros Hattrs Ht. rewrite article_pattern_eq. unfold match_at.
  cbn [tree fl ngroups repeat].
  unfold article_element. rewrite <- !app_assoc.
  change (js "<article") with [60; 97; 114; 116; 105; 99; 108; 101]%N.
  change (js ">" ++ inner ++ js "</article>" ++ post)
    with (62%N :: inner ++ [60; 47; 97; 114; 116; 105; 99; 108; 101]%N
            ++ 62%N :: post).
  now apply (@m_element _ _ attrs inner post 47%N).
Qed.

Lemma article_element_nonempty (attrs inner : jsstring) :
  article_element attrs inner <> [].
Proof. discriminate. Qed.

Lemma no_lt_no_article (s : jsstring) :
  ~ In 60%N s ->
  Forall (fun x => forall t, match_at article_pattern (x :: t) = None) s.
Proof.
  intros H. apply Forall_forall. intros x Hx t.
  apply (@match_at_first_char article_pattern 60%N _ eq_refl eq_refl).
  intros ->. contradiction.
Qed.

Lemma candidate_article (pre attrs inner post : jsstring) :
  ~ In 60%N pre -> ~ In 62%N attrs -> ~ In 60%N inner -> ~ In 60%N post ->
  candidate (pre ++ article_element attrs inner ++ post) (js "article")
  = article_element attrs inner.
Proof.
  intros Hpre Hattrs Hinner Hpost.
  change (candidate (pre ++ article_element attrs inner ++ post) (js "article"))
    with (match match_all article_pattern
                  (pre ++ article_element attrs inner ++ post) with
          | Some (x :: l) => join NL (x :: l)
          | _ => []
          end).
  unfold match_all.
  rewrite match_walk_pass by now apply no_lt_no_article.
  pose proof (@match_at_article attrs inner post Hattrs Hinner) as Hm.
  destruct (article_element attrs inner ++ post) as [|x s] eqn:Es.
  { apply app_eq_nil in Es as [Es _]. now apply article_element_nonempty in Es. }
  rewrite (@match_walk_match _ x s (article_element attrs inner) post
             [Some inner] Hm (eq_sym Es) (@article_element_nonempty _ _)).
  rewrite match_walk_nothing;
    [reflexivity | now apply no_lt_no_article | reflexivity].
Qed.

(** X28.  On a page that is plain text around one article element, the
    locator returns the article when it is longer than 500 characters,
    its own tags counted and included: the text before and after it is
    left out, and no later candidate and no fallback is tried. *)
Theorem extractMainContent_article (P : platform)
    (pre attrs inner post : jsstring) :
  ~ In 60%N pre -> ~ In 62%N attrs -> ~ In 60%N inner -> ~ In 60%N post ->
  500 < List.length (article_element attrs inner) ->
  WebRead.extractMainContent P (pre ++ article_element attrs inner ++ post)
  = Normal (article_element attrs inner).
Proof.
  intros Hpre Hattrs Hinner Hpost Hlen.
  rewrite (proj2 (extractMainContent_order P _)).
  change WebRead.contentSelectors
    with (js "article" :: tl WebRead.contentSelectors).
  cbn [find].
  rewrite (@candidate_article pre attrs inner post Hpre Hattrs Hinner Hpost).
  apply Nat.ltb_lt in Hlen. rewrite Hlen.
  now rewrite (@candidate_article pre attrs inner post Hpre Hattrs Hinner Hpost).
Qed.

Lemma extractMainContent_article_witness :
  WebRead.extractMainContent (Sample.host [])
    (js "Menu " ++ article_element (js " class=x") (repeat 120%N 600) ++ js " Footer")
  = Normal (article_element (js " class=x") (repeat 120%N 600)).
Proof.
  apply (@extractMainContent_article (Sample.host []) (js "Menu ") (js " class=x")
           (repeat 120%N 600) (js " Footer")).
  - cbv. intuition discriminate.
  - cbv. intuition discriminate.
  - intros Hin. apply repeat_spec in Hin. discriminate.
  - cbv. intuition discriminate.
  - apply Nat.ltb_lt. vm_compute. reflexivity.
Defined.

(* ================================================================== *)
(** * A selector that finds nothing *)
(* ================================================================== *)

Lemma extractBySelector_main_no_markup (P : platform) (page : jsstring) :
  ~ In 60%N page -> WebRead.extractBySelector P page (js "#main") = Normal [].
Proof.
  intros Hpage. unfold WebRead.extractBySelector.
  rewrite compile_all_ok by (vm_compute; reflexivity).
  fold (candidate page (js "#main")).
  rewrite candidate_main.
  rewrite (@match_all_absent main_id_pattern 60%N _ page eq_refl eq_refl Hpage).
  cbn [WebRead.first_matches].
  no_match_all Hpage. reflexivity.
Qed.

(** X29.  A selector that finds nothing is an error of its own: on a page
    without any tag the selector [#main] makes the operation answer
    [No content found matching selector: #main] with the error flag, after
    the one network call that fetched the page; nothing is retried. *)
Theorem read_execute_selector_not_found (P : platform) (url : jsstring)
    (format : option WebRead.Format) (w : world) (response : Response)
    (page : jsstring) :
  (newURL P url = Some (js "http:") \/ newURL P url = Some (js "https:")) ->
  net P (calls w) url = Normal response ->
  ok response = true ->
  includes (match contentType response with Some c => c | None => [] end)
           (js "text/html") = true ->
  body response = Normal page ->
  ~ In 60%N page ->
  let out := WebRead.execute P url format (Some (js "#main")) w in
  answers (fst out)
    (js "Failed to read URL: No content found matching selector: #main") true
  /\ fetches (log (snd out)) = fetches (log w) + 1.
Proof.
  intros Hurl Hnet Hok Htype Hbody Hpage.
  destruct (@execute_selector_not_found P url format 35%N (js "main") page w
              response Hurl Hnet Hok Htype Hbody
              (@extractBySelector_main_no_markup P page Hpage))
    as (r & Hr & Htext & Hflag & Hfetch).
  split; [|exact Hfetch]. exists r. repeat split; assumption.
Qed.

Lemma read_execute_selector_not_found_witness :
  let out :=
    WebRead.execute (Sample.host [Sample.answer 200 "text/html" (js "nothing here")])
      (js "https://example.com/") None (Some (js "#main")) world0 in
  answers (fst out)
    (js "Failed to read URL: No content found matching selector: #main") true
  /\ fetches (log (snd out)) = 1.
Proof.
  apply (@read_execute_selector_not_found
           (Sample.host [Sample.answer 200 "text/html" (js "nothing here")])
           (js "https://example.com/") None world0
           (Sample.response 200 "text/html" (js "nothing here"))
           (js "nothing here")).
  - right. reflexivity.
  - reflexivity.
  - reflexivity.
  - reflexivity.
  - reflexivity.
  - cbv. intuition discriminate.
Defined.

(* ================================================================== *)
(** * Result anchors with redirected destinations and marked-up titles *)
(* ================================================================== *)























(* ------------------------------------------------------------------ *)
(** ** Reading one anchor *)

Lemma canon_not_quote (a : char16) :
  negb (N.eqb (canon flags_i a) (canon flags_i 34%N)) = true -> a <> 34%N.
Proof. intros H ->. now rewrite N.eqb_refl in H. Qed.




Section LazySkip.

Variables (p : char16 -> bool) (k : cont) (c : captures).


End LazySkip.




Section Closing.

Variables (k : cont) (c : captures).

Hypothesis Hk : forall s, prefix_canon flags_i closing s = false -> k s c = None.



End Closing.




(* ------------------------------------------------------------------ *)
(** ** Deciding the predicates *)








(* ------------------------------------------------------------------ *)
(** ** Reading a page of hits *)








(** A pattern that starts with [<a] matches nowhere inside markup in
    which no anchor starts. *)
Section Gaps.

Variables (re : regexp) (r : regex).

Hypothesis Htree : tree re = RSeq (RChar 60%N) (RSeq (RChar 97%N) r).
Hypothesis Hfl : fl re = flags_i.




End Gaps.



Section Hits.

Import WebSearch.

Variable P : platform.





End Hits.






(** The redirector href of the claim, on a page of its own. *)
Example parseDDGResults_example_com :
  exists results,
    WebSearch.parseDDGResults (Sample.host [])
      (js "<div>"
       ++ anchor (js "//duckduckgo.com/l/?uddg=https%3A%2F%2Fexample.com",
                  js "Example <b>Domain</b>")
       ++ js "</div>")
      (WebSearch.Finite 10)
    = Some (Normal results)
    /\ map url_title results = [(js "https://example.com", js "Example Domain")].
Proof. eexists. split; vm_compute; reflexivity. Qed.

(** The same page, run through the parser. *)
Example parseDDGResults_sample :
  option_map
    (fun c => match c with
              | Normal results => firstn 4 (map url_title results)
              | Throw _ => []
              end)
    (WebSearch.parseDDGResults (Sample.host []) (hits_page sample_hits sample_trailer)
       (WebSearch.Finite 10))
  = Some [ (js "https://example.com", js "Example Domain");
           (js "https://example.org/a?b=", js "Q&A: 1 < 2");
           (js "https://example.net/a b?x=1&y=" ++ [233%N], js "Caf" ++ [233%N]);
           (js "https://example.com/page?n=1", js "Result 1") ].
Proof. vm_compute. reflexivity. Qed.
